(** * zillow-scraper: the record resolution engine of [server.js]

    A shallow embedding of the address-resolution logic of the service
    (the latest snapshot of [server.js]: variant generation, the strict
    RapidAPI lookup, the fuzzy search-result scorer, the ordered path
    extractor, the [/zestimate] route and the expanded response builder),
    followed by the properties the specification states about them.

    Conventions of the embedding.
    - JavaScript strings are [string]s of 8-bit characters read as ASCII
      text: case mapping, whitespace and word classes are the ASCII ones.
    - JavaScript values are the JSON fragment ([value]); numbers are the
      integers, which is what identifiers, prices and zip codes are.
    - Property access sees own properties (object fields, array indices
      and [length], string indices and [length]); members inherited from
      the built-in prototypes are functions and lie outside [value].
    - The outside world (HTTP fetch, the headless browser) is a record of
      oracles that may depend on the history of earlier interactions; the
      code threads that history as a trace of events.
    - [String], [Number], [join] and template literals are total here. In
      JavaScript they raise a [TypeError] on an object that has a member
      called [toString], which a JSON body can carry and which is then
      never a function. The properties that would depend on it are stated
      for [plain] values, which have no such member. *)

From Stdlib Require Import List String Ascii ZArith Bool Lia Arith.
From Stdlib Require Import Numbers.DecimalString.
Import ListNotations.

Open Scope string_scope.
Open Scope Z_scope.

(* ================================================================== *)
(** ** Characters and strings *)

Module Js.

Definition code (c : ascii) : nat := nat_of_ascii c.

Definition between (lo hi : nat) (c : ascii) : bool :=
  (Nat.leb lo (code c) && Nat.leb (code c) hi)%bool.

Definition is_digit (c : ascii) : bool := between 48 57 c.
Definition is_upper (c : ascii) : bool := between 65 90 c.
Definition is_lower (c : ascii) : bool := between 97 122 c.

(** [\w] of a regular expression: [[A-Za-z0-9_]]. *)
Definition is_word (c : ascii) : bool :=
  (is_digit c || is_upper c || is_lower c || Nat.eqb (code c) 95)%bool.

(** White space of [String.prototype.trim] and of [\s]: tab, line feed,
    vertical tab, form feed, carriage return, space. *)
Definition is_space (c : ascii) : bool :=
  (between 9 13 c || Nat.eqb (code c) 32)%bool.

(** Line terminators, which [.] does not match. *)
Definition is_line_terminator (c : ascii) : bool :=
  (Nat.eqb (code c) 10 || Nat.eqb (code c) 13)%bool.

Definition lower_char (c : ascii) : ascii :=
  if is_upper c then ascii_of_nat (code c + 32) else c.

Fixpoint toLowerCase (s : string) : string :=
  match s with
  | EmptyString => EmptyString
  | String c r => String (lower_char c) (toLowerCase r)
  end.

Fixpoint trimStart (s : string) : string :=
  match s with
  | String c r => if is_space c then trimStart r else s
  | EmptyString => EmptyString
  end.

(** [trimEnd] drops the trailing run of white space. *)
Fixpoint trimEnd (s : string) : string :=
  match s with
  | EmptyString => EmptyString
  | String c r =>
      match trimEnd r with
      | EmptyString => if is_space c then EmptyString else String c EmptyString
      | r' => String c r'
      end
  end.

Definition trim (s : string) : string := trimEnd (trimStart s).

(** [s.replace(/[^\w]/g, "")] and [s.replace(/\D/g, "")]. *)
Fixpoint keep (p : ascii -> bool) (s : string) : string :=
  match s with
  | EmptyString => EmptyString
  | String c r => if p c then String c (keep p r) else keep p r
  end.

Definition startsWith (s p : string) : bool := String.prefix p s.

(** [s.includes(t)]: [t] occurs in [s] as a contiguous substring. *)
Fixpoint includes (s t : string) : bool :=
  (String.prefix t s ||
   match s with
   | EmptyString => false
   | String _ r => includes r t
   end)%bool.

(** Case-insensitive prefix test, as the [i] flag compares characters. *)
Fixpoint prefix_ci (p s : string) : bool :=
  match p, s with
  | EmptyString, _ => true
  | String a p', String b s' =>
      (Ascii.eqb (lower_char a) (lower_char b) && prefix_ci p' s')%bool
  | String _ _, EmptyString => false
  end.

(** [s.replace(new RegExp(pat, "gi"), rep)] for a literal, non-empty
    [pat]: matches are found left to right and do not overlap. [skip]
    counts the characters of the current match still to be consumed. *)
Fixpoint replace_from (skip : nat) (pat rep s : string) : string :=
  match s with
  | EmptyString => EmptyString
  | String c r =>
      match skip with
      | S k => replace_from k pat rep r
      | O =>
          if prefix_ci pat s
          then rep ++ replace_from (Nat.pred (String.length pat)) pat rep r
          else String c (replace_from O pat rep r)
      end
  end.

Definition replace_gi (pat rep s : string) : string := replace_from O pat rep s.

(** [s.split(sep)] for a one-character separator. *)
Fixpoint split (sep : ascii) (s : string) : list string :=
  match s with
  | EmptyString => [EmptyString]
  | String c r =>
      if Ascii.eqb c sep then EmptyString :: split sep r
      else match split sep r with
           | w :: ws => String c w :: ws
           | [] => [String c EmptyString]
           end
  end.

(** [xs.join(sep)] on strings. *)
Fixpoint join (sep : string) (xs : list string) : string :=
  match xs with
  | [] => EmptyString
  | [x] => x
  | x :: r => x ++ sep ++ join sep r
  end.

(** The longest prefix whose characters satisfy [p], and the rest. *)
Fixpoint span (p : ascii -> bool) (s : string) : string * string :=
  match s with
  | String c r =>
      if p c then let (a, b) := span p r in (String c a, b)
      else (EmptyString, s)
  | EmptyString => (EmptyString, EmptyString)
  end.

Fixpoint forallb_str (p : ascii -> bool) (s : string) : bool :=
  match s with
  | EmptyString => true
  | String c r => (p c && forallb_str p r)%bool
  end.

Definition string_of_Z (z : Z) : string := NilZero.string_of_int (Z.to_int z).
Definition string_of_nat (n : nat) : string := string_of_Z (Z.of_nat n).

(** Value of a run of decimal digits. *)
Fixpoint digits_value (acc : Z) (s : string) : Z :=
  match s with
  | EmptyString => acc
  | String c r => digits_value (10 * acc + Z.of_nat (code c - 48)) r
  end.

End Js.

(* ================================================================== *)
(** ** JavaScript values *)

#[local] Set Warnings "-register-all".

Inductive value : Type :=
| VUndef
| VNull
| VBool (b : bool)
| VNum (n : Z)
| VStr (s : string)
| VArr (items : list value)
| VObj (fields : list (string * value)).

Module V.

(** [ToBoolean]. *)
Definition truthy (v : value) : bool :=
  match v with
  | VUndef | VNull => false
  | VBool b => b
  | VNum n => negb (n =? 0)
  | VStr s => negb (String.eqb s "")
  | VArr _ | VObj _ => true
  end.

Definition nullish (v : value) : bool :=
  match v with
  | VUndef | VNull => true
  | _ => false
  end.

(** [a || b] and [a ?? b]. *)
Definition or (a b : value) : value := if truthy a then a else b.
Definition coalesce (a b : value) : value := if nullish a then b else a.

Definition is_array (v : value) : bool :=
  match v with VArr _ => true | _ => false end.

(** An array index is the canonical decimal spelling of a natural. *)
Definition index_of_key (k : string) : option nat :=
  match k with
  | EmptyString => None
  | _ =>
      if Js.forallb_str Js.is_digit k then
        let n := Z.to_nat (Js.digits_value 0 k) in
        if String.eqb (Js.string_of_nat n) k then Some n else None
      else None
  end.

Fixpoint lookup (k : string) (fields : list (string * value)) : value :=
  match fields with
  | [] => VUndef
  | (k', v) :: r => if String.eqb k' k then v else lookup k r
  end.

(** [o[k]] on a value that is neither [null] nor [undefined]. *)
Definition get (o : value) (k : string) : value :=
  match o with
  | VObj fields => lookup k fields
  | VArr items =>
      if String.eqb k "length" then VNum (Z.of_nat (List.length items))
      else match index_of_key k with
           | Some i => nth i items VUndef
           | None => VUndef
           end
  | VStr s =>
      if String.eqb k "length" then VNum (Z.of_nat (String.length s))
      else match index_of_key k with
           | Some i =>
               match String.get i s with
               | Some c => VStr (String c EmptyString)
               | None => VUndef
               end
           | None => VUndef
           end
  | _ => VUndef
  end.

(** [o?.k]. *)
Definition opt (o : value) (k : string) : value :=
  if nullish o then VUndef else get o k.

(** [o?.k1?.k2?. ... ] *)
Definition opt_chain (o : value) (ks : list string) : value :=
  fold_left opt ks o.

(** [String(v)]. *)
Fixpoint to_string (v : value) : string :=
  match v with
  | VUndef => "undefined"
  | VNull => "null"
  | VBool true => "true"
  | VBool false => "false"
  | VNum n => Js.string_of_Z n
  | VStr s => s
  | VArr items =>
      Js.join ","
        (map (fun x => match x with
                       | VUndef | VNull => EmptyString
                       | _ => to_string x
                       end) items)
  | VObj _ => "[object Object]"
  end.

(** [v.toLowerCase()]: only strings have the method; on any other value
    the call raises a [TypeError], rendered as [None]. *)
Definition toLowerCase (v : value) : option string :=
  match v with
  | VStr s => Some (Js.toLowerCase s)
  | _ => None
  end.

Definition eq_str (a b : string) : bool := String.eqb a b.

End V.

(* ================================================================== *)
(** ** Helpers of [server.js] *)

(** [norm]: comparison form used by the fuzzy scorer. *)
Definition norm (s : value) : string :=
  Js.trim (Js.keep Js.is_word (Js.toLowerCase (V.to_string (V.or s (VStr ""))))).

(** [norm(r?.address || "")] for one search result. *)
Definition addrText (r : value) : string :=
  norm (V.or (V.opt r "address") (VStr "")).

(** One search result's score, as the loop of [pickBestSearchResult]
    computes it. *)
Definition score_of (targetAddr targetCity : string) (r : value) : Z :=
  (if Js.includes (addrText r) targetAddr then 2 else 0) +
  (if Js.includes (addrText r) targetCity then 1 else 0).

Definition pick_step (targetAddr targetCity : string)
    (acc : value * Z) (r : value) : value * Z :=
  let score := score_of targetAddr targetCity r in
  if score >? snd acc then (r, score) else acc.

(** [pickBestSearchResult(results, address, city)], on an array of
    results; the pair is [{ best, score }]. *)
Definition pickBestSearchResult (results : list value) (address city : value)
  : value * Z :=
  fold_left (pick_step (norm address) (norm city)) results (VNull, -1).

(** The reducer of the path walk: [(o, k) => (o ? o[k] : undefined)]. *)
Definition walk_step (o : value) (k : string) : value :=
  if V.truthy o then V.get o k else VUndef.

(** [p.split(".").reduce(walk_step, obj)]. *)
Definition walk (obj : value) (p : string) : value :=
  fold_left walk_step (Js.split "." p) obj.

Definition present (v : value) : bool := negb (V.nullish v).

(** [tryPaths(obj, paths)] of [extractZpidAndZestimate]. *)
Fixpoint tryPaths (obj : value) (paths : list string) : value :=
  match paths with
  | [] => VUndef
  | p :: rest =>
      let v := walk obj p in
      if present v then v else tryPaths obj rest
  end.

(** [pick(...paths)] of [sendExpanded] and [tryPick] of the route: the
    same loop, answering [null] when no path yields a value. *)
Fixpoint pick (d : value) (paths : list string) : value :=
  match paths with
  | [] => VNull
  | p :: rest =>
      let v := walk d p in
      if present v then v else pick d rest
  end.

(* ================================================================== *)
(** ** Address variant generation *)

(** A JavaScript [Set] of strings, in insertion order. *)
Definition set_add (s : list string) (x : string) : list string :=
  if existsb (String.eqb x) s then s else s ++ [x].

Definition abbrToFull : list (string * string) :=
  [ (" St ", " Street "); (" Dr ", " Drive "); (" Rd ", " Road ");
    (" Ave ", " Avenue "); (" Ln ", " Lane "); (" Ct ", " Court ");
    (" Blvd ", " Boulevard "); (" Pkwy ", " Parkway ");
    (" Ter ", " Terrace "); (" Cir ", " Circle ") ].

Definition fullToAbbr : list (string * string) :=
  [ (" Street ", " St "); (" Drive ", " Dr "); (" Road ", " Rd ");
    (" Avenue ", " Ave "); (" Lane ", " Ln "); (" Court ", " Ct ");
    (" Boulevard ", " Blvd "); (" Parkway ", " Pkwy ");
    (" Terrace ", " Ter "); (" Circle ", " Cir ") ].

Definition swapWords (s : string) (map : list (string * string)) : string :=
  Js.trim
    (fold_left (fun t kv => Js.replace_gi (fst kv) (snd kv) t) map
       (" " ++ s ++ " ")).

Fixpoint drop (n : nat) (s : string) : string :=
  match n, s with
  | O, _ => s
  | S k, String _ r => drop k r
  | S _, EmptyString => EmptyString
  end.

Definition word_at_start (s : string) : bool :=
  match s with
  | String c _ => Js.is_word c
  | EmptyString => false
  end.

(** [\b] between a character whose word-ness is [prev] and the text [s]. *)
Definition boundary (prev : bool) (s : string) : bool :=
  xorb prev (word_at_start s).

Definition directional_tokens : list string :=
  ["N"; "S"; "E"; "W"; "NE"; "NW"; "SE"; "SW"].

(** [(N|S|E|W|NE|NW|SE|SW)\b] matched at the start of [s], ignoring case. *)
Definition directional_here (s : string) : bool :=
  existsb (fun d => (Js.prefix_ci d s &&
                     boundary true (drop (String.length d) s))%bool)
          directional_tokens.

Fixpoint directional_from (prev : bool) (s : string) : bool :=
  ((boundary prev s && directional_here s) ||
   match s with
   | EmptyString => false
   | String c r => directional_from (Js.is_word c) r
   end)%bool.

(** [/\b(N|S|E|W|NE|NW|SE|SW)\b/i.test(base)]. *)
Definition hasDirectional (base : string) : bool := directional_from false base.

Fixpoint existsb_str (p : ascii -> bool) (s : string) : bool :=
  match s with
  | EmptyString => false
  | String c r => (p c || existsb_str p r)%bool
  end.

(** The match of [base] against the house-number pattern: a run of
    digits from the start, a run of white space, then the rest of the
    line up to the end of the string; the two captured groups. *)
Definition match_house (base : string) : option (string * string) :=
  let (num, r1) := Js.span Js.is_digit base in
  let (ws, rest) := Js.span Js.is_space r1 in
  if (String.eqb num "" || String.eqb ws "" ||
      existsb_str Js.is_line_terminator rest)%bool
  then None
  else Some (num, rest).

Definition directional_variant (num rest d : string) : string :=
  num ++ " " ++ d ++ " " ++ rest.

Definition non_empty (s : string) : bool := negb (String.eqb s "").

(** The [Set] after the base and its two word swaps went in. *)
Definition swap_set (base : string) : list string :=
  let variants := set_add [] base in
  let variants := set_add variants (swapWords base abbrToFull) in
  set_add variants (swapWords base fullToAbbr).

(** The [Set] that [generateAddressVariants] fills for a non-empty
    [base]: the base, the two word swaps, then the directional variants. *)
Definition variant_set (base : string) : list string :=
  let variants := swap_set base in
  if negb (hasDirectional base) then
    match match_house base with
    | Some (num, rest) =>
        fold_left (fun vs d => set_add vs (directional_variant num rest d))
                  ["E"; "W"; "N"; "S"] variants
    | None => variants
    end
  else variants.

Definition generateAddressVariants (address : value) : list string :=
  let base := Js.trim (V.to_string (V.or address (VStr ""))) in
  if String.eqb base "" then [] else filter non_empty (variant_set base).

(* ================================================================== *)
(** ** The outside world *)

(** What [fetch(url, ...)] followed by [resp.json()] can do: reject (the
    20 s abort, a transport error), or answer with [resp.ok] and a body
    that parses ([Some]) or not ([None]). *)
Inductive fetch_outcome : Type :=
| FetchThrows
| FetchResponse (ok : bool) (json : option value).

(** What [page.goto(url)] followed by [waitAndGetAnyDataBlob(page)] can
    do: raise, find no data script, or find one, whose text [JSON.parse]
    accepts ([Some]) or rejects ([None]). *)
Inductive page_outcome : Type :=
| PageThrows (msg : string)
| PageNoBlob
| PageBlob (parsed : option value).

Inductive event : Type :=
| EFetch (url : string)
| ELaunch
| EGoto (url : string)
| EClose.

Definition trace := list event.

(** The trace after one more event. *)
Definition emit (tr : trace) (e : event) : trace := (tr ++ [e])%list.

Record world : Type := {
  fetch : trace -> string -> fetch_outcome;
  launch : trace -> option string;          (* [Some msg]: launching raises *)
  page : trace -> string -> page_outcome
}.

(** [process.env]. *)
Record environment : Type := {
  API_KEY : option string;
  RAPIDAPI_HOST : option string;
  RAPIDAPI_KEY : option string;
  PREFER_API_FIRST : option string
}.

Definition env_value (o : option string) : value :=
  match o with
  | Some s => VStr s
  | None => VUndef
  end.

(* ================================================================== *)
(** ** URLs *)

Definition hex_digit (n : nat) : ascii :=
  if Nat.ltb n 10 then ascii_of_nat (48 + n) else ascii_of_nat (55 + n).

Definition uri_unreserved (c : ascii) : bool :=
  (Js.is_digit c || Js.is_upper c || Js.is_lower c ||
   existsb (Ascii.eqb c) (list_ascii_of_string "-_.!~*'()"))%bool.

Fixpoint encodeURIComponent (s : string) : string :=
  match s with
  | EmptyString => EmptyString
  | String c r =>
      if uri_unreserved c then String c (encodeURIComponent r)
      else String "%" (String (hex_digit (Js.code c / 16))
                         (String (hex_digit (Js.code c mod 16))
                            (encodeURIComponent r)))
  end.

(** [toQuery] of [rapidApiLookupStrict]. *)
Definition toQuery (obj : list (string * value)) : string :=
  Js.join "&"
    (map (fun kv => encodeURIComponent (fst kv) ++ "=" ++
                    encodeURIComponent (V.to_string (snd kv)))
       (filter (fun kv => (negb (V.nullish (snd kv)) &&
                           non_empty (Js.trim (V.to_string (snd kv))))%bool)
          obj)).

(** One endpoint shape: a path and a parameter builder. *)
Record shape : Type := {
  path : string;
  params : string -> value -> value -> value -> list (string * value)
}.

Definition citystatezip_params (a : string) (c s z : value) : list (string * value) :=
  [ ("address", VStr a);
    ("citystatezip",
     VStr (Js.trim (V.to_string c ++ ", " ++ V.to_string s ++ " " ++
                    V.to_string (V.or z (VStr ""))))) ].

Definition split_params (a : string) (c s z : value) : list (string * value) :=
  [ ("address", VStr a); ("city", c); ("state", s);
    ("zipcode", V.or z (VStr "")) ].

(** The [candidates] table of [rapidApiLookupStrict]. *)
Definition candidates : list shape :=
  [ {| path := "/property"; params := citystatezip_params |};
    {| path := "/propertyExtended"; params := citystatezip_params |};
    {| path := "/propertyByAddress"; params := citystatezip_params |};
    {| path := "/property"; params := split_params |};
    {| path := "/propertyDetails"; params := split_params |} ].

Definition attempt_url (host : string) (city state zip : value)
    (a : string) (cand : shape) : string :=
  "https://" ++ host ++ path cand ++ "?" ++ toQuery (params cand a city state zip).

(* ================================================================== *)
(** ** The strict RapidAPI lookup *)

Record want : Type := {
  want_city : string;
  want_state : string;
  want_zip : string
}.

(** The [want] record; [None] when [.toLowerCase()] is called on a value
    that is not a string, which raises before the loop starts. *)
Definition make_want (city state zip : value) : option want :=
  match V.toLowerCase (V.or city (VStr "")) with
  | None => None
  | Some c =>
      match V.toLowerCase (V.or state (VStr "")) with
      | None => None
      | Some s =>
          Some {| want_city := Js.trim c;
                  want_state := Js.trim s;
                  want_zip := Js.trim (V.to_string (V.or zip (VStr ""))) |}
      end
  end.

(** [data?.address?.k || data?.k || ""]: a field of the payload's
    address, read under [address] first and at the top level second. *)
Definition address_field (data : value) (k : string) : value :=
  V.or (V.or (V.opt_chain data ["address"; k]) (V.opt data k)) (VStr "").

Definition got_city (data : value) : option string :=
  option_map Js.trim (V.toLowerCase (address_field data "city")).

Definition got_state (data : value) : option string :=
  option_map Js.trim (V.toLowerCase (address_field data "state")).

Definition got_zip (data : value) : string :=
  Js.trim (V.to_string (address_field data "zipcode")).

(** [data?.k ?? data?.result?.k ?? data?.data?.k ?? null]. *)
Definition essential (data : value) (k : string) : value :=
  V.coalesce
    (V.coalesce
       (V.coalesce (V.opt data k) (V.opt_chain data ["result"; k]))
       (V.opt_chain data ["data"; k]))
    VNull.

Definition zillow_url (rawUrl : value) : value :=
  if V.truthy rawUrl then
    if Js.startsWith (V.to_string rawUrl) "http" then rawUrl
    else VStr ("https://www.zillow.com" ++ V.to_string rawUrl)
  else VNull.

(** The successful result of the lookup, [{ ok: true, tried, ... }]. *)
Record api_hit : Type := {
  tried : string;
  hit_zestimate : value;
  hit_zpid : value;
  hit_property_url : value;
  hit_data : value
}.

Definition dquote : string := String (ascii_of_nat 34) EmptyString.

(** The strict verdict on one payload: the [if] that guards the
    [return] inside the loop. A truthy city or state that is not a
    string makes [.toLowerCase()] raise a [TypeError], which the [catch]
    of the loop swallows: the payload is not accepted. *)
Definition acceptable (w : want) (data : value) : bool :=
  match got_city data with
  | None => false
  | Some gotCity =>
      match got_state data with
      | None => false
      | Some gotState =>
          let gotZip := got_zip data in
          let cityMatch := String.eqb gotCity (want_city w) in
          let stateMatch := String.eqb gotState (want_state w) in
          let zipMatch :=
            (negb (non_empty (want_zip w)) || String.eqb gotZip (want_zip w))%bool in
          let zestimate := essential data "zestimate" in
          let zpid := essential data "zpid" in
          (cityMatch && stateMatch && zipMatch &&
           V.truthy (V.or zestimate zpid))%bool
      end
  end.

Definition make_hit (cand : shape) (a : string) (data : value) : api_hit :=
  {| tried := path cand ++ " | addr=" ++ dquote ++ a ++ dquote;
     hit_zestimate := essential data "zestimate";
     hit_zpid := essential data "zpid";
     hit_property_url := zillow_url (essential data "url");
     hit_data := data |}.

(** What one attempt concludes from the outcome of its fetch. *)
Definition judge (w : want) (cand : shape) (a : string) (o : fetch_outcome)
  : option api_hit :=
  match o with
  | FetchThrows => None
  | FetchResponse false _ => None
  | FetchResponse true None => None
  | FetchResponse true (Some data) =>
      if acceptable w data then Some (make_hit cand a data) else None
  end.

(** Code that may raise: a value, or the message of the exception. *)
Inductive result (A : Type) : Type :=
| Ok (a : A)
| Raise (msg : string).

Arguments Ok {A} a.
Arguments Raise {A} msg.

(** The answer of [rapidApiLookupStrict]: [{ ok: true, ... }] or
    [{ ok: false, reason }]. *)
Inductive lookup_result : Type :=
| ApiOk (h : api_hit)
| ApiFail (reason : string).

(** The message of the [TypeError] raised by [.toLowerCase()] on a value
    that is not a string; the engine's exact wording is not modelled. *)
Definition type_error : string := "TypeError: toLowerCase is not a function".

Section ApiLoop.

Variable W : world.
Variable host : string.
Variable w : want.
Variables city state zip : value.

Definition attempt_event (a : string) (cand : shape) : event :=
  EFetch (attempt_url host city state zip a cand).

(** One turn of the inner loop: build the URL, fetch it, judge the answer. *)
Definition attempt (a : string) (cand : shape) (tr : trace)
  : option api_hit * trace :=
  (judge w cand a (fetch W tr (attempt_url host city state zip a cand)),
   emit tr (attempt_event a cand)).

(** [for (const cand of candidates) { ... }] for one address variant. *)
Fixpoint try_shapes (shapes : list shape) (a : string) (tr : trace)
  : option api_hit * trace :=
  match shapes with
  | [] => (None, tr)
  | cand :: rest =>
      match attempt a cand tr with
      | (Some h, tr') => (Some h, tr')
      | (None, tr') => try_shapes rest a tr'
      end
  end.

(** [for (const a of addrs) { for (const cand of candidates) ... }]. *)
Fixpoint try_variants (shapes : list shape) (addrs : list string) (tr : trace)
  : option api_hit * trace :=
  match addrs with
  | [] => (None, tr)
  | a :: rest =>
      match try_shapes shapes a tr with
      | (Some h, tr') => (Some h, tr')
      | (None, tr') => try_variants shapes rest tr'
      end
  end.

End ApiLoop.

Definition env_set (o : option string) : bool := V.truthy (env_value o).

Definition rapidApiLookupStrict (E : environment) (W : world)
    (address city state zip : value) (tr : trace)
  : result lookup_result * trace :=
  if (negb (env_set (RAPIDAPI_HOST E)) || negb (env_set (RAPIDAPI_KEY E)))%bool
  then (Ok (ApiFail "missing-keys"), tr)
  else
    match make_want city state zip with
    | None => (Raise type_error, tr)
    | Some w =>
        let host := V.to_string (env_value (RAPIDAPI_HOST E)) in
        match try_variants W host w city state zip candidates
                (generateAddressVariants address) tr with
        | (Some h, tr') => (Ok (ApiOk h), tr')
        | (None, tr') => (Ok (ApiFail "no-matching-record"), tr')
        end
    end.

(* ================================================================== *)
(** ** Serialisation and the numeric rescue scan *)

Definition hex_lower (n : nat) : ascii :=
  if Nat.ltb n 10 then ascii_of_nat (48 + n) else ascii_of_nat (87 + n).

Definition backslash : string := String (ascii_of_nat 92) EmptyString.

(** How [JSON.stringify] writes one character of a string. *)
Definition json_char (c : ascii) : string :=
  let n := Js.code c in
  if Nat.eqb n 34 then backslash ++ dquote
  else if Nat.eqb n 92 then backslash ++ backslash
  else if Nat.eqb n 8 then backslash ++ "b"
  else if Nat.eqb n 9 then backslash ++ "t"
  else if Nat.eqb n 10 then backslash ++ "n"
  else if Nat.eqb n 12 then backslash ++ "f"
  else if Nat.eqb n 13 then backslash ++ "r"
  else if Nat.ltb n 32 then
    backslash ++ "u00" ++
    String (hex_lower (n / 16)) (String (hex_lower (n mod 16)) EmptyString)
  else String c EmptyString.

Fixpoint json_chars (s : string) : string :=
  match s with
  | EmptyString => EmptyString
  | String c r => json_char c ++ json_chars r
  end.

Definition json_quote (s : string) : string := dquote ++ json_chars s ++ dquote.

(** [JSON.stringify(v)] for a value other than [undefined]: an
    [undefined] array item is written [null], an [undefined] field is
    left out. *)
Fixpoint stringify (v : value) : string :=
  match v with
  | VUndef | VNull => "null"
  | VBool true => "true"
  | VBool false => "false"
  | VNum n => Js.string_of_Z n
  | VStr s => json_quote s
  | VArr items => "[" ++ Js.join "," (map stringify items) ++ "]"
  | VObj fields =>
      "{" ++
      Js.join ","
        ((fix members (fs : list (string * value)) : list string :=
            match fs with
            | [] => []
            | (k, VUndef) :: r => members r
            | (k, x) :: r => (json_quote k ++ ":" ++ stringify x) :: members r
            end) fields) ++
      "}"
  end.

(** The first position of [s] at which [f] succeeds, as a regular
    expression search tries every start from left to right. *)
Fixpoint search {A : Type} (f : string -> option A) (s : string) : option A :=
  match f s with
  | Some a => Some a
  | None =>
      match s with
      | EmptyString => None
      | String _ r => search f r
      end
  end.

(** The quoted [key], white space, a colon, white space, at the start of
    [s]; what follows them. *)
Definition after_key (key s : string) : option string :=
  if String.prefix (dquote ++ key ++ dquote) s then
    match Js.trimStart (drop (String.length key + 2) s) with
    | String c r => if Nat.eqb (Js.code c) 58 then Some (Js.trimStart r) else None
    | EmptyString => None
    end
  else None.

Fixpoint take (n : nat) (s : string) : string :=
  match n, s with
  | S k, String c r => String c (take k r)
  | _, _ => EmptyString
  end.

(** The quoted key [zestimate], a colon, then four to nine digits. *)
Definition scan_zestimate (asStr : string) : option Z :=
  search (fun s =>
            match after_key "zestimate" s with
            | Some r =>
                let ds := fst (Js.span Js.is_digit r) in
                if Nat.leb 4 (String.length ds)
                then Some (Js.digits_value 0 (take 9 ds))
                else None
            | None => None
            end) asStr.

(** The quoted key [zpid], a colon, an optional quote, then digits. *)
Definition scan_zpid (asStr : string) : option Z :=
  search (fun s =>
            match after_key "zpid" s with
            | Some r =>
                let r' := if String.prefix dquote r then drop 1 r else r in
                let ds := fst (Js.span Js.is_digit r') in
                if non_empty ds then Some (Js.digits_value 0 ds) else None
            | None => None
            end) asStr.

Definition zestimate_paths : list string :=
  [ "homeInfo.zestimate"; "zestimate"; "property.zestimate";
    "homeDetails.zestimate";
    "props.pageProps.componentProps.gdpClientCache.default.zestimate" ].

Definition zpid_paths : list string :=
  [ "homeInfo.zpid"; "zpid"; "property.zpid";
    "props.pageProps.componentProps.zpid" ].

(** [Number(String(v).replace(/\D/g, ...)) || null]. *)
Definition digits_or_null (v : value) : value :=
  let n := Js.digits_value 0 (Js.keep Js.is_digit (V.to_string v)) in
  if n =? 0 then VNull else VNum n.

(** [extractZpidAndZestimate(anyObj)]: the pair [(zpid, zestimate)]. *)
Definition extractZpidAndZestimate (anyObj : value) : value * value :=
  if negb (V.truthy anyObj) then (VNull, VNull)
  else
    let zestimateCandidate := tryPaths anyObj zestimate_paths in
    let zpidCandidate := tryPaths anyObj zpid_paths in
    let zestimate :=
      match zestimateCandidate with
      | VNum _ => zestimateCandidate
      | _ => VNull
      end in
    let zpid :=
      match zpidCandidate with
      | VNum _ | VStr _ => digits_or_null zpidCandidate
      | _ => VNull
      end in
    let asStr := stringify anyObj in
    let zestimate :=
      if negb (V.truthy zestimate) then
        match scan_zestimate asStr with
        | Some n => VNum n
        | None => zestimate
        end
      else zestimate in
    let zpid :=
      if negb (V.truthy zpid) then
        match scan_zpid asStr with
        | Some n => VNum n
        | None => zpid
        end
      else zpid in
    (zpid, zestimate).

(* ================================================================== *)
(** ** Responses *)

(** [res.status(status).json(body)]. *)
Record response : Type := {
  status : Z;
  body : value
}.

Definition error_response (code : Z) (msg : string) : response :=
  {| status := code;
     body := VObj [("ok", VBool false); ("error", VStr msg)] |}.

(** The empty answer every unmatched path sends. *)
Definition no_match (source note : string) : response :=
  {| status := 200;
     body := VObj [ ("ok", VBool true); ("source", VStr source);
                    ("zestimate", VNull); ("zpid", VNull);
                    ("property_url", VNull); ("match_confidence", VNum 0);
                    ("note", VStr note) ] |}.

Definition sold_entry (e : value) : bool :=
  Js.includes
    (Js.toLowerCase
       (V.to_string (V.or (V.or (V.opt e "event") (V.opt e "type")) (VStr ""))))
    "sold".

Definition find_sold (history : value) : value :=
  match history with
  | VArr items =>
      match find sold_entry items with
      | Some e => e
      | None => VUndef
      end
  | _ => VUndef
  end.

(** [sendExpanded(out, res)]. The two fields [zestimateLow] and
    [zestimateHigh], which are floating-point products, are left out of
    the payload; every other field is as the code builds it. *)
Definition sendExpanded (out : api_hit) : response :=
  let d := V.or (hit_data out) (VObj []) in
  let pick := pick d in
  let zestimate :=
    V.coalesce (hit_zestimate out)
      (V.coalesce
         (V.coalesce (pick ["zestimate"]) (pick ["result.zestimate"]))
         (pick ["data.zestimate"])) in
  let priceHistory :=
    V.or (pick ["priceHistory"; "result.priceHistory"]) (VArr []) in
  let lastSoldDirectPrice := pick ["lastSoldPrice"; "result.lastSoldPrice"] in
  let lastSoldDirectDate := pick ["lastSoldDate"; "result.lastSoldDate"] in
  let derive :=
    ((negb (V.truthy lastSoldDirectPrice) || negb (V.truthy lastSoldDirectDate))
     && V.is_array priceHistory)%bool in
  let sold := find_sold priceHistory in
  let lastSoldPrice :=
    if (derive && negb (V.truthy lastSoldDirectPrice) &&
        negb (V.nullish (V.opt sold "price")))%bool
    then V.get sold "price" else lastSoldDirectPrice in
  let lastSoldDate :=
    if (derive && negb (V.truthy lastSoldDirectDate) &&
        V.truthy (V.opt sold "date"))%bool
    then V.get sold "date" else lastSoldDirectDate in
  {| status := 200;
     body := VObj
       [ ("ok", VBool true);
         ("source", VStr ("rapidapi-fallback " ++ tried out));
         ("property_url", hit_property_url out);
         ("zpid", V.coalesce (hit_zpid out) (pick ["zpid"; "result.zpid"; "data.zpid"]));
         ("homeType", pick ["homeType"; "propertyTypeDimension"; "result.homeType"; "data.homeType"]);
         ("yearBuilt", pick ["yearBuilt"; "result.yearBuilt"]);
         ("lotSize", pick ["lotSize"; "lotAreaValue"; "result.lotSize"; "result.lotAreaValue"]);
         ("livingArea", pick ["livingArea"; "livingAreaValue"; "result.livingArea"; "result.livingAreaValue"]);
         ("numBedrooms", pick ["bedrooms"; "numBedrooms"; "result.bedrooms"; "result.numBedrooms"]);
         ("numBathrooms", pick ["bathrooms"; "bathroomsFloat"; "numBathrooms"; "result.bathrooms"; "result.bathroomsFloat"]);
         ("numFloors", pick ["stories"; "storiesDecimal"; "result.stories"; "result.storiesDecimal"]);
         ("numParkingSpaces",
          pick ["parkingCapacity"; "garageParkingCapacity"; "coveredParkingCapacity";
                "result.parkingCapacity"; "result.garageParkingCapacity";
                "result.coveredParkingCapacity"]);
         ("zestimate", zestimate);
         ("rentZestimate", pick ["rentZestimate"; "result.rentZestimate"]);
         ("lastSoldPrice", lastSoldPrice);
         ("lastSoldDate", lastSoldDate);
         ("homeStatus", pick ["homeStatus"; "result.homeStatus"]);
         ("monthlyHoaFee", pick ["monthlyHoaFee"; "result.monthlyHoaFee"]);
         ("taxAnnualAmount", pick ["taxAnnualAmount"; "result.taxAnnualAmount"]);
         ("taxAssessedValue", pick ["taxAssessedValue"; "resoFacts.taxAssessedValue"; "result.taxAssessedValue"]);
         ("priceHistory", priceHistory);
         ("pool",
          V.coalesce (pick ["hasPrivatePool"; "pool"; "result.hasPrivatePool"; "result.pool"])
            (if V.is_array (pick ["poolFeatures"]) then VBool true else VNull));
         ("garageSpaces", pick ["garageParkingCapacity"; "coveredParkingCapacity"; "result.garageParkingCapacity"]);
         ("roofType", pick ["roofType"; "result.roofType"]);
         ("parking", pick ["parking"; "otherParking"; "result.parking"; "result.otherParking"]);
         ("parkingFeatures", pick ["parkingFeatures"; "result.parkingFeatures"]);
         ("sewer", pick ["sewer"; "result.sewer"]);
         ("water", pick ["waterSource"; "water"; "result.waterSource"; "result.water"]);
         ("imgSrc", pick ["imgSrc"; "result.imgSrc"]);
         ("photos", V.or (pick ["photos"; "result.photos"; "miniCardPhotos"]) (VArr []));
         ("county", pick ["county"; "address.county"; "result.county"; "result.address.county"]);
         ("match_confidence", VNum (if V.truthy zestimate then 85 else 60)) ] |}.

(* ================================================================== *)
(** ** The [/zestimate] route *)

Definition buildSearchUrl (address city state zip : value) : string :=
  let usersSearchTerm :=
    Js.join ", " (map V.to_string (filter V.truthy [address; city; state; zip])) in
  let sqs :=
    VObj [ ("pagination", VObj []);
           ("mapBounds", VObj [ ("west", VNum (-180)); ("east", VNum 180);
                                ("south", VNum (-90)); ("north", VNum 90) ]);
           ("usersSearchTerm", VStr usersSearchTerm);
           ("regionSelection", VArr []);
           ("isMapVisible", VBool false);
           ("filterState", VObj []);
           ("isListVisible", VBool true) ] in
  "https://www.zillow.com/homes/?searchQueryState=" ++
  encodeURIComponent (stringify sqs).

(** The extra fields of the scrape path and the paths that feed them. *)
Definition extra_fields : list (string * list string) :=
  [ ("parking",
     ["property.parking"; "homeDetails.parking"; "resoFacts.parking"; "data.parking"]);
    ("parkingFeatures",
     ["resoFacts.parkingFeatures"; "homeFacts.parkingFeatures";
      "property.parkingFeatures"; "data.parkingFeatures"]);
    ("sewer",
     ["resoFacts.sewer"; "homeFacts.sewer"; "property.sewer"; "data.sewer"]);
    ("water",
     ["resoFacts.waterSource"; "homeFacts.water"; "homeFacts.waterSource";
      "property.waterSource"; "property.water"; "data.waterSource"; "data.water"]);
    ("taxAssessedValue",
     ["taxAssessedValue"; "resoFacts.taxAssessedValue"; "homeFacts.taxAssessedValue";
      "property.taxAssessedValue"; "data.taxAssessedValue"]);
    ("county",
     ["address.county"; "property.address.county"; "result.address.county";
      "county"; "property.county"]) ].

(** What the loop over the detail candidates accumulates. *)
Record detail : Type := {
  d_zpid : value;
  d_zestimate : value;
  d_extras : list value          (* in the order of [extra_fields] *)
}.

Definition no_detail : detail :=
  {| d_zpid := VNull; d_zestimate := VNull;
     d_extras := map (fun _ => VNull) extra_fields |}.

Definition is_null (v : value) : bool :=
  match v with VNull => true | _ => false end.

(** The body of [for (const c of candidates)] on the detail page. *)
Definition detail_step (acc : detail) (c : value) : detail :=
  let (zp, ze) := extractZpidAndZestimate c in
  {| d_zpid :=
       if (V.truthy zp && negb (V.truthy (d_zpid acc)))%bool then zp else d_zpid acc;
     d_zestimate :=
       if (V.truthy ze && negb (V.truthy (d_zestimate acc)))%bool then ze
       else d_zestimate acc;
     d_extras :=
       map (fun fv => if is_null (snd fv) then pick c (snd (fst fv)) else snd fv)
           (combine extra_fields (d_extras acc)) |}.

Definition detail_candidates (detailRoot : value) : list value :=
  [ V.opt_chain detailRoot ["props"; "pageProps"; "componentProps"; "initialReduxState"];
    V.opt_chain detailRoot ["props"; "pageProps"; "componentProps"; "gdpClientCache"];
    V.opt_chain detailRoot ["props"; "pageProps"];
    detailRoot ].

(** What the detail page contributes: nothing when there is no blob or
    its text does not parse. *)
Definition read_detail (o : page_outcome) : detail :=
  match o with
  | PageBlob (Some detailRoot) =>
      fold_left detail_step (detail_candidates detailRoot) no_detail
  | _ => no_detail
  end.

(** [match_confidence] of the scrape path. *)
Definition scrape_confidence (zestimate : value) (score : Z) : Z :=
  if V.truthy zestimate then 90
  else Z.max 20 ((if score =? 0 then 0 else score) * 10).

Definition scrape_response (searchUrl detailUrl : string) (score : Z) (d : detail)
  : response :=
  {| status := 200;
     body := VObj
       ([ ("ok", VBool true); ("source", VStr searchUrl);
          ("property_url", VStr detailUrl);
          ("zpid", d_zpid d); ("zestimate", d_zestimate d);
          ("match_confidence", VNum (scrape_confidence (d_zestimate d) score)) ]
        ++ combine (map fst extra_fields) (d_extras d))%list |}.

(** The search results of the page blob: [listResults] under the modern
    path, else under the two legacy store paths. *)
Definition find_listResults (parsed : option value) : value :=
  let root := match parsed with Some r => r | None => VNull end in
  let listResults :=
    V.opt_chain root
      ["props"; "pageProps"; "searchPageState"; "cat1"; "searchResults"; "listResults"] in
  if V.is_array listResults then listResults
  else
    match parsed with
    | Some store =>
        V.or (V.or (V.opt_chain store ["cat1"; "searchResults"; "listResults"])
                   (V.opt_chain store ["searchResults"; "listResults"]))
             VNull
    | None => listResults
    end.

Record request : Type := {
  x_api_key : option string;     (* [req.get("X-API-Key")] *)
  req_body : value               (* [req.body] *)
}.

(** How a call of the route handler ends: with a response, or with the
    rejection of an exception no [try] catches, which sends nothing. *)
Inductive outcome : Type :=
| Sent (r : response)
| Unanswered (msg : string).

Definition checkApiKey (E : environment) (req : request) : bool :=
  if negb (env_set (API_KEY E)) then true
  else
    match x_api_key req with
    | Some key =>
        (non_empty key && String.eqb key (V.to_string (env_value (API_KEY E))))%bool
    | None => false
    end.

Definition keys_set (E : environment) : bool :=
  (env_set (RAPIDAPI_KEY E) && env_set (RAPIDAPI_HOST E))%bool.

(** Likewise for [best.detailUrl.startsWith] on a [detailUrl] that is
    not a string. *)
Definition startsWith_error : string := "TypeError: startsWith is not a function".

Section Route.

Variable E : environment.
Variable W : world.
Variables address city state zip : value.

Let searchUrl : string := buildSearchUrl address city state zip.

(** From the chosen search result to the answer of the scrape path. *)
Definition open_detail (best : value) (score : Z) (tr : trace)
  : result response * trace :=
  match V.get best "detailUrl" with
  | VStr u =>
      let detailUrl :=
        if Js.startsWith u "http" then u else "https://www.zillow.com" ++ u in
      match page W tr detailUrl with
      | PageThrows msg => (Raise msg, emit tr (EGoto detailUrl))
      | o => (Ok (scrape_response searchUrl detailUrl score (read_detail o)),
              emit tr (EGoto detailUrl))
      end
  | _ => (Raise startsWith_error, tr)
  end.

(** The part of the [try] block that follows a blob on the search page. *)
Definition after_blob (parsed : option value) (tr : trace)
  : result response * trace :=
  match find_listResults parsed with
  | VArr (r :: rs) =>
      let (best, score) := pickBestSearchResult (r :: rs) address city in
      if (negb (V.truthy best) || negb (V.truthy (V.get best "detailUrl")))%bool
      then (Ok (no_match searchUrl "No matching property found."), tr)
      else open_detail best score tr
  | _ => (Ok (no_match searchUrl "No search results in blob."), tr)
  end.

(** The part of the [try] block that follows a search page without blob. *)
Definition without_blob (tr : trace) : result response * trace :=
  if keys_set E then
    match rapidApiLookupStrict E W address city state zip tr with
    | (Raise msg, tr') => (Raise msg, tr')
    | (Ok (ApiOk out), tr') => (Ok (sendExpanded out), tr')
    | (Ok (ApiFail _), tr') =>
        (Ok (no_match "rapidapi-fallback"
               "No matching record from RapidAPI for the requested city/ZIP."),
         tr')
    end
  else (Ok (no_match searchUrl "No search data blob found."), tr).

(** The [try] block once the browser is up. *)
Definition scrape (tr : trace) : result response * trace :=
  match page W tr searchUrl with
  | PageThrows msg => (Raise msg, emit tr (EGoto searchUrl))
  | PageNoBlob => without_blob (emit tr (EGoto searchUrl))
  | PageBlob parsed => after_blob parsed (emit tr (EGoto searchUrl))
  end.

(** [try { ... } catch (err) { ... } finally { browser.close() }]. *)
Definition browse (tr : trace) : response * trace :=
  match launch W tr with
  | Some msg => (error_response 200 msg, emit tr ELaunch)
  | None =>
      match scrape (emit tr ELaunch) with
      | (Ok r, tr') => (r, emit tr' EClose)
      | (Raise msg, tr') => (error_response 200 msg, emit tr' EClose)
      end
  end.

(** The handler after the required-fields check. *)
Definition resolve (tr : trace) : outcome * trace :=
  let preferApi :=
    match PREFER_API_FIRST E with
    | Some s => String.eqb s "1"
    | None => false
    end in
  if (preferApi && keys_set E)%bool then
    match rapidApiLookupStrict E W address city state zip tr with
    | (Raise msg, tr') => (Unanswered msg, tr')
    | (Ok (ApiOk out), tr') => (Sent (sendExpanded out), tr')
    | (Ok (ApiFail _), tr') =>
        let (r, tr'') := browse tr' in (Sent r, tr'')
    end
  else let (r, tr') := browse tr in (Sent r, tr').

End Route.

(** [app.post("/zestimate", async (req, res) => { ... })]. *)
Definition zestimate_route (E : environment) (W : world) (req : request)
  : outcome * trace :=
  if negb (checkApiKey E req) then (Sent (error_response 401 "Unauthorized"), [])
  else
    let b := V.or (req_body req) (VObj []) in
    let address := V.get b "address" in
    let city := V.get b "city" in
    let state := V.get b "state" in
    let zip := V.get b "zip" in
    if (negb (V.truthy address) || negb (V.truthy city) || negb (V.truthy state))%bool
    then (Sent (error_response 400 "address, city, state are required"), [])
    else resolve E W address city state zip [].

(* ================================================================== *)
(** ** Vocabulary of the properties *)

(** What the loop of [pickBestSearchResult] has established after a
    non-empty run of results: the pair holds the first result of maximal
    score. *)
Definition first_best (ta tc : string) (results : list value) (acc : value * Z)
  : Prop :=
  exists i : nat,
    nth_error results i = Some (fst acc) /\
    snd acc = score_of ta tc (fst acc) /\
    (forall r, In r results -> score_of ta tc r <= snd acc) /\
    (forall j r, (j < i)%nat -> nth_error results j = Some r ->
                 score_of ta tc r < snd acc).

Definition city_hit (tc : string) (r : value) : bool :=
  Js.includes (addrText r) tc.

Definition is_blank (c : ascii) : bool := Ascii.eqb c " ".

(** A word between two blanks, the form of every key and value of the
    two swap tables. *)
Definition pad (w : string) : string := String " " (w ++ " ").

Definition abbreviations : list (string * string) :=
  [ ("St", "Street"); ("Dr", "Drive"); ("Rd", "Road"); ("Ave", "Avenue");
    ("Ln", "Lane"); ("Ct", "Court"); ("Blvd", "Boulevard"); ("Pkwy", "Parkway");
    ("Ter", "Terrace"); ("Cir", "Circle") ].

Definition padded (t : list (string * string)) : list (string * string) :=
  map (fun xy => (pad (fst xy), pad (snd xy))) t.

Definition starts_outside (p : ascii -> bool) (s : string) : Prop :=
  match s with
  | String c _ => p c = false
  | EmptyString => True
  end.

(** Whether the last character of [pre] is a word character; [prev]
    stands for the character before [pre]. *)
Fixpoint word_before (prev : bool) (pre : string) : bool :=
  match pre with
  | EmptyString => prev
  | String c r => word_before (Js.is_word c) r
  end.

(** [tok] stands in [s] as a whole word: between [pre], which does not
    end in a word character, and [post], which does not start with one. *)
Definition whole_word (tok s : string) : Prop :=
  exists pre post,
    s = pre ++ tok ++ post /\
    word_before false pre = false /\
    starts_outside Js.is_word post.

Definition is_directional (tok : string) : Prop :=
  In (Js.toLowerCase tok) ["n"; "s"; "e"; "w"; "ne"; "nw"; "se"; "sw"].

Section Enumeration.

Variable W : world.
Variable host : string.
Variable w : want.
Variables city state zip : value.

Definition pair_event (x : string * shape) : event :=
  attempt_event host city state zip (fst x) (snd x).

(** The verdict of the attempt [x] when it is issued after history [tr]. *)
Definition verdict (tr : trace) (x : string * shape) : option api_hit :=
  fst (attempt W host w city state zip (fst x) (snd x) tr).

(** The same loop over one flat list of (variant, shape) pairs. *)
Fixpoint try_pairs (pairs : list (string * shape)) (tr : trace)
  : option api_hit * trace :=
  match pairs with
  | [] => (None, tr)
  | x :: rest =>
      match attempt W host w city state zip (fst x) (snd x) tr with
      | (Some h, tr') => (Some h, tr')
      | (None, tr') => try_pairs rest tr'
      end
  end.

(** The history when attempt number [i] of [pairs] is issued. *)
Definition history (tr : trace) (pairs : list (string * shape)) (i : nat) : trace :=
  (tr ++ map pair_event (firstn i pairs))%list.

(** The attempts of [pairs] before number [n] were all rejected. *)
Definition rejected_before (tr : trace) (pairs : list (string * shape)) (n : nat)
  : Prop :=
  forall i x, (i < n)%nat -> nth_error pairs i = Some x ->
              verdict (history tr pairs i) x = None.

(** A run that issued the first [n] attempts of [pairs], in order, and
    stopped there: either all of [pairs] was tried and rejected, or
    attempt [n] was the first one accepted. *)
Definition stops_at_first_accept (tr : trace) (pairs : list (string * shape))
    (r : option api_hit * trace) : Prop :=
  exists n : nat,
    snd r = history tr pairs n /\
    match fst r with
    | None => n = List.length pairs /\ rejected_before tr pairs n
    | Some h =>
        exists m x, n = S m /\ nth_error pairs m = Some x /\
                    verdict (history tr pairs m) x = Some h /\
                    rejected_before tr pairs m
    end.

End Enumeration.

(** The comparison form as the specification words it for the strict
    verdict: lower case, every character that is not a letter or a
    digit removed, trimmed. *)
Definition is_alnum (c : ascii) : bool :=
  (Js.is_digit c || Js.is_upper c || Js.is_lower c)%bool.

Definition spec_norm (s : string) : string :=
  Js.trim (Js.keep is_alnum (Js.toLowerCase s)).

(** The strict verdict with that comparison form in place of the
    code's: same fields of the payload, same zip rule, same presence
    test. *)
Definition spec_strict (city state zip : string) (data : value) : bool :=
  let candCity := V.to_string (address_field data "city") in
  let candState := V.to_string (address_field data "state") in
  let candZip := V.to_string (address_field data "zipcode") in
  (String.eqb (spec_norm candCity) (spec_norm city) &&
   String.eqb (spec_norm candState) (spec_norm state) &&
   (String.eqb zip "" || String.eqb (spec_norm candZip) (spec_norm zip)) &&
   (present (essential data "zestimate") || present (essential data "zpid")))%bool.

Definition st_louis : value :=
  VObj [("city", VStr "St Louis"); ("state", VStr "MO"); ("zpid", VNum 2077)].

Definition austin_lower : value :=
  VObj [("city", VStr "austin"); ("state", VStr "tx"); ("zpid", VNum 2077)].

(** The code's verdict for a query, when [want] can be built. *)
Definition strict_verdict (city state zip data : value) : option bool :=
  option_map (fun w => acceptable w data) (make_want city state zip).

Definition required_error : response :=
  error_response 400 "address, city, state are required".

(** The fetch outcome [o] carries no payload the strict verdict accepts. *)
Definition unacceptable (w : want) (o : fetch_outcome) : Prop :=
  match o with
  | FetchResponse true (Some data) => acceptable w data = false
  | _ => True
  end.

(** The search page yields no result the fuzzy scorer can select: no
    blob, no non-empty result array, or a best result without
    [detailUrl]. *)
Definition no_selection (address city : value) (o : page_outcome) : Prop :=
  match o with
  | PageThrows _ => False
  | PageNoBlob => True
  | PageBlob parsed =>
      match find_listResults parsed with
      | VArr (r :: rs) =>
          let best := fst (pickBestSearchResult (r :: rs) address city) in
          (V.truthy best && V.truthy (V.get best "detailUrl"))%bool = false
      | _ => True
      end
  end.

(** The answers [resolve] can send. *)
Inductive resolved (searchUrl : string) : response -> Prop :=
| resolved_error (msg : string) :
    resolved searchUrl (error_response 200 msg)
| resolved_no_match (source note : string) :
    note <> "" -> resolved searchUrl (no_match source note)
| resolved_api (out : api_hit) :
    resolved searchUrl (sendExpanded out)
| resolved_scrape (detailUrl : string) (score : Z) (o : page_outcome) :
    0 <= score <= 3 ->
    resolved searchUrl (scrape_response searchUrl detailUrl score (read_detail o)).

(** Stub worlds, environments and requests for the worked examples. *)

(** Every fetch fails, the browser starts, no page carries a blob. *)
Definition silent_world : world :=
  {| fetch := fun _ _ => FetchThrows;
     launch := fun _ => None;
     page := fun _ _ => PageNoBlob |}.

Definition no_env : environment :=
  {| API_KEY := None; RAPIDAPI_HOST := None; RAPIDAPI_KEY := None;
     PREFER_API_FIRST := None |}.

Definition api_env : environment :=
  {| API_KEY := None; RAPIDAPI_HOST := Some "zillow.example";
     RAPIDAPI_KEY := Some "k"; PREFER_API_FIRST := Some "1" |}.

Definition query (address city state zip : string) : request :=
  {| x_api_key := None;
     req_body := VObj [ ("address", VStr address); ("city", VStr city);
                        ("state", VStr state); ("zip", VStr zip) ] |}.

(** The payload of a Springfield property. *)
Definition springfield_home : value :=
  VObj [ ("address", VObj [ ("city", VStr "Springfield"); ("state", VStr "IL");
                            ("zipcode", VStr "62704") ]);
         ("zpid", VNum 2077); ("zestimate", VNum 250000);
         ("url", VStr "/homedetails/2077_zpid/") ].

(** An API that knows the property only under the spelled-out street
    name; the browser finds nothing. *)
Definition street_world : world :=
  {| fetch := fun _ url =>
       if Js.includes url "address=123%20Main%20Street&"
       then FetchResponse true (Some springfield_home)
       else FetchResponse false None;
     launch := fun _ => None;
     page := fun _ _ => PageNoBlob |}.

(** An API that answers every request with a property of another city,
    and a search page whose result list is empty. *)
Definition elsewhere_world : world :=
  {| fetch := fun _ _ =>
       FetchResponse true
         (Some (VObj [ ("city", VStr "Dallas"); ("state", VStr "TX");
                       ("zpid", VNum 5) ]));
     launch := fun _ => None;
     page := fun _ _ =>
       PageBlob (Some (VObj [("searchResults", VObj [("listResults", VArr [])])])) |}.

(** Two endpoint shapes for the enumeration example. *)
Definition shape_one : shape := {| path := "/one"; params := citystatezip_params |}.
Definition shape_two : shape := {| path := "/two"; params := split_params |}.

(* ================================================================== *)
(** ** Vocabulary of the further properties *)

(** A fetch of a URL under [base]. *)
Definition fetch_under (base : string) (e : event) : Prop :=
  exists url, e = EFetch url /\ Js.startsWith url base = true.

(** The common stem of every endpoint of [candidates] on [host]. *)
Definition api_stem (host : string) : string := "https://" ++ host ++ "/property".

Definition not_a_string (v : value) : Prop := forall s, v <> VStr s.

(** A string that [trim] leaves as it is and that is not empty. *)
Definition trimmed (s : string) : Prop := Js.trim s = s /\ s <> "".

(** A character that is not white space. *)
Definition visible (c : ascii) : bool := negb (Js.is_space c).

Definition is_fetch (e : event) : bool :=
  match e with EFetch _ => true | _ => false end.

Definition is_goto (e : event) : bool :=
  match e with EGoto _ => true | _ => false end.

(** Events of the work on a page: navigations and fetches, but neither
    the start nor the end of the browser. *)
Definition is_page_work (e : event) : bool :=
  match e with EFetch _ | EGoto _ => true | _ => false end.

(** The shapes a trace of the route can take. [pre] holds the fetches
    made before the browser is started, [mid] what happens between the
    visit of the search page and the end of the browser. *)
Inductive lifecycle (W : world) (searchUrl : string) : trace -> Prop :=
| life_no_browser (pre : trace) :
    forallb is_fetch pre = true ->
    lifecycle W searchUrl pre
| life_launch_failed (pre : trace) (msg : string) :
    forallb is_fetch pre = true ->
    launch W pre = Some msg ->
    lifecycle W searchUrl (pre ++ [ELaunch])%list
| life_closed (pre mid : trace) :
    forallb is_fetch pre = true ->
    launch W pre = None ->
    forallb is_page_work mid = true ->
    lifecycle W searchUrl
      (pre ++ [ELaunch] ++ [EGoto searchUrl] ++ mid ++ [EClose])%list.

(** A request of the lookup for one of [variants]: the address is the
    first parameter of the query, whatever follows. *)
Definition attempt_for (host : string) (variants : list string) (e : event) : Prop :=
  exists a cand more,
    In a variants /\ In cand candidates /\
    e = EFetch ("https://" ++ host ++ path cand ++ "?address=" ++
                encodeURIComponent a ++ more).

(** How many events of a trace satisfy [p]. *)
Definition count (p : event -> bool) (tr : trace) : nat :=
  List.length (filter p tr).

(** The URLs the service may contact: the API under [stem], pages at an
    absolute address. *)
Definition contact_ok (stem : string) (e : event) : bool :=
  match e with
  | EFetch u => Js.startsWith u stem
  | EGoto u => Js.startsWith u "http"
  | _ => true
  end.

(** At most [nf] fetches and [ng] navigations, each to an allowed URL. *)
Definition traffic (stem : string) (nf ng : nat) (evs : trace) : Prop :=
  (count is_fetch evs <= nf)%nat /\
  (count is_goto evs <= ng)%nat /\
  forallb (contact_ok stem) evs = true.

(** [PREFER_API_FIRST === "1"]. *)
Definition prefers_api (E : environment) : bool :=
  match PREFER_API_FIRST E with
  | Some s => String.eqb s "1"
  | None => false
  end.

(** The absolute form of a [detailUrl]. *)
Definition absolute (d : string) : string :=
  if Js.startsWith d "http" then d else "https://www.zillow.com" ++ d.

(** Where an answer of the resolution comes from. A scrape answer
    belongs to a visit of the search page: it names the detail page of
    the best result listed there and carries that result's score. *)
Inductive provenance (E : environment) (W : world)
    (address city state zip : value) : response -> Prop :=
| from_failure (msg : string) :
    provenance E W address city state zip (error_response 200 msg)
| from_no_match (source note : string) :
    source = "rapidapi-fallback" \/ source = buildSearchUrl address city state zip ->
    provenance E W address city state zip (no_match source note)
| from_api (w : want) (a : string) (cand : shape) (data : value) :
    keys_set E = true ->
    make_want city state zip = Some w ->
    In a (generateAddressVariants address) ->
    In cand candidates ->
    acceptable w data = true ->
    provenance E W address city state zip (sendExpanded (make_hit cand a data))
| from_page (hist : trace) (parsed : option value) (results : list value) (d : string) :
    page W hist (buildSearchUrl address city state zip) = PageBlob parsed ->
    find_listResults parsed = VArr results ->
    results <> [] ->
    V.get (fst (pickBestSearchResult results address city)) "detailUrl" = VStr d ->
    provenance E W address city state zip
      (scrape_response (buildSearchUrl address city state zip) (absolute d)
         (snd (pickBestSearchResult results address city))
         (read_detail
            (page W (emit hist (EGoto (buildSearchUrl address city state zip)))
               (absolute d)))).

(** [null], or a value whose string form is an absolute URL. *)
Definition absolute_or_null (v : value) : bool :=
  match v with
  | VNull => true
  | _ => Js.startsWith (V.to_string v) "http"
  end.

(** An environment that asks for an API key. *)
Definition locked_env : environment :=
  {| API_KEY := Some "secret"; RAPIDAPI_HOST := None; RAPIDAPI_KEY := None;
     PREFER_API_FIRST := None |}.

(** A field of the request body, as the handler destructures it:
    [const { address, city, state, zip } = req.body || {}]. *)
Definition field (req : request) (k : string) : value :=
  V.get (V.or (req_body req) (VObj [])) k.

(** A search result that carries only an address text. *)
Definition listing (s : string) : value := VObj [("address", VStr s)].

(** Every fetch is refused and the browser does not start. *)
Definition dead_browser_world : world :=
  {| fetch := fun _ _ => FetchResponse false None;
     launch := fun _ => Some "browser failed to launch";
     page := fun _ _ => PageNoBlob |}.

(** The search page lists one property; its detail page carries no data. *)
Definition bare_listing_world : world :=
  {| fetch := fun _ _ => FetchThrows;
     launch := fun _ => None;
     page := fun _ url =>
       if Js.includes url "searchQueryState" then
         PageBlob (Some (VObj
           [("searchResults",
             VObj [("listResults",
                    VArr [VObj [ ("address", VStr "123 Main St, Springfield, IL 62704");
                                 ("detailUrl", VStr "/homedetails/2077_zpid/") ]])])]))
       else PageNoBlob |}.

Definition listing_blob : option value :=
  Some (VObj
    [("searchResults",
      VObj [("listResults",
             VArr [VObj [ ("address", VStr "123 Main St, Springfield, IL 62704");
                          ("detailUrl", VStr "/homedetails/2077_zpid/") ]])])]).

(** A value none of whose objects has a member called [toString]. On
    such a value [String], [Number], [join] and a template literal
    never raise; on an object with that member, which is never a
    function in a JSON body, they raise a [TypeError]. *)
Fixpoint plain (v : value) : bool :=
  match v with
  | VObj fields =>
      (negb (existsb (fun kv => String.eqb (fst kv) "toString") fields) &&
       forallb (fun kv => plain (snd kv)) fields)%bool
  | VArr items => forallb plain items
  | _ => true
  end.

(** Every payload the API returns is [plain]. *)
Definition plain_payloads (W : world) : Prop :=
  forall tr url ok data, fetch W tr url = FetchResponse ok (Some data) -> plain data = true.

(** The first truthy value of a list, [null] when there is none. *)
Definition first_truthy (vs : list value) : value :=
  match find V.truthy vs with
  | Some v => v
  | None => VNull
  end.

(** The first value of a list that is not [null], [null] when there is
    none. *)
Definition first_non_null (vs : list value) : value :=
  match find (fun v => negb (is_null v)) vs with
  | Some v => v
  | None => VNull
  end.

(** The characters [norm] lets through. *)
Definition norm_char (c : ascii) : bool :=
  (Js.is_digit c || Js.is_lower c || Nat.eqb (Js.code c) 95)%bool.

(** A search page that lists one property and a detail page that
    carries its zpid and zestimate; no API. *)
Definition listing_world : world :=
  {| fetch := fun _ _ => FetchThrows;
     launch := fun _ => None;
     page := fun _ url =>
       if Js.includes url "searchQueryState" then
         PageBlob (Some (VObj
           [("searchResults",
             VObj [("listResults",
                    VArr [VObj [ ("address", VStr "123 Main St, Springfield, IL 62704");
                                 ("detailUrl", VStr "/homedetails/2077_zpid/") ]])])]))
       else
         PageBlob (Some (VObj
           [("props",
             VObj [("pageProps",
                    VObj [("zpid", VNum 2077); ("zestimate", VNum 250000)])])])) |}.

(* ================================================================== *)
(** ** The earlier snapshot of the handler *)

(** The handler of the earlier [server.js]: no RapidAPI fallback, no
    extra fields, and a loop over the detail candidates that leaves as
    soon as both values are found. Its helpers ([checkApiKey], [norm],
    [buildSearchUrl], [pickBestSearchResult], [extractZpidAndZestimate])
    read as in the latest snapshot. *)
Fixpoint detail_loop_break (cs : list value) (zpid zestimate : value)
  : value * value :=
  match cs with
  | [] => (zpid, zestimate)
  | c :: rest =>
      let (zp, ze) := extractZpidAndZestimate c in
      let zpid :=
        if (V.truthy zp && negb (V.truthy zpid))%bool then zp else zpid in
      let zestimate :=
        if (V.truthy ze && negb (V.truthy zestimate))%bool then ze else zestimate in
      if (V.truthy zpid && V.truthy zestimate)%bool then (zpid, zestimate)
      else detail_loop_break rest zpid zestimate
  end.

(** The pair [(zpid, zestimate)] read from the detail page. *)
Definition read_detail_earlier (o : page_outcome) : value * value :=
  match o with
  | PageBlob (Some detailRoot) =>
      detail_loop_break (detail_candidates detailRoot) VNull VNull
  | _ => (VNull, VNull)
  end.

Definition scrape_response_earlier (searchUrl detailUrl : string) (score : Z)
    (found : value * value) : response :=
  {| status := 200;
     body := VObj
       [ ("ok", VBool true); ("source", VStr searchUrl);
         ("property_url", VStr detailUrl);
         ("zpid", fst found); ("zestimate", snd found);
         ("match_confidence", VNum (scrape_confidence (snd found) score)) ] |}.

Section EarlierRoute.

Variable W : world.
Variables address city state zip : value.

Let searchUrl : string := buildSearchUrl address city state zip.

Definition open_detail_earlier (best : value) (score : Z) (tr : trace)
  : result response * trace :=
  match V.get best "detailUrl" with
  | VStr u =>
      let detailUrl :=
        if Js.startsWith u "http" then u else "https://www.zillow.com" ++ u in
      match page W tr detailUrl with
      | PageThrows msg => (Raise msg, emit tr (EGoto detailUrl))
      | o => (Ok (scrape_response_earlier searchUrl detailUrl score
                    (read_detail_earlier o)),
              emit tr (EGoto detailUrl))
      end
  | _ => (Raise startsWith_error, tr)
  end.

Definition after_blob_earlier (parsed : option value) (tr : trace)
  : result response * trace :=
  match find_listResults parsed with
  | VArr (r :: rs) =>
      let (best, score) := pickBestSearchResult (r :: rs) address city in
      if (negb (V.truthy best) || negb (V.truthy (V.get best "detailUrl")))%bool
      then (Ok (no_match searchUrl "No matching property found."), tr)
      else open_detail_earlier best score tr
  | _ => (Ok (no_match searchUrl "No search results in blob."), tr)
  end.

Definition scrape_earlier (tr : trace) : result response * trace :=
  match page W tr searchUrl with
  | PageThrows msg => (Raise msg, emit tr (EGoto searchUrl))
  | PageNoBlob =>
      (Ok (no_match searchUrl "No search data blob found."),
       emit tr (EGoto searchUrl))
  | PageBlob parsed => after_blob_earlier parsed (emit tr (EGoto searchUrl))
  end.

Definition browse_earlier (tr : trace) : response * trace :=
  match launch W tr with
  | Some msg => (error_response 200 msg, emit tr ELaunch)
  | None =>
      match scrape_earlier (emit tr ELaunch) with
      | (Ok r, tr') => (r, emit tr' EClose)
      | (Raise msg, tr') => (error_response 200 msg, emit tr' EClose)
      end
  end.

End EarlierRoute.

(** [app.post("/zestimate", ...)] of the earlier snapshot: every call
    ends with a response. *)
Definition zestimate_route_earlier (E : environment) (W : world) (req : request)
  : response * trace :=
  if negb (checkApiKey E req) then (error_response 401 "Unauthorized", [])
  else
    let b := V.or (req_body req) (VObj []) in
    let address := V.get b "address" in
    let city := V.get b "city" in
    let state := V.get b "state" in
    let zip := V.get b "zip" in
    if (negb (V.truthy address) || negb (V.truthy city) || negb (V.truthy state))%bool
    then (error_response 400 "address, city, state are required", [])
    else browse_earlier W address city state zip [].

(** The strict verdict of the earlier snapshot of [rapidApiLookupStrict]:
    city, state and zip only. *)
Definition acceptable_earlier (w : want) (data : value) : bool :=
  match got_city data with
  | None => false
  | Some gotCity =>
      match got_state data with
      | None => false
      | Some gotState =>
          let gotZip := got_zip data in
          let cityMatch := String.eqb gotCity (want_city w) in
          let stateMatch := String.eqb gotState (want_state w) in
          let zipMatch :=
            (negb (non_empty (want_zip w)) || String.eqb gotZip (want_zip w))%bool in
          (cityMatch && stateMatch && zipMatch)%bool
      end
  end.

(** The test of the first snapshot's RapidAPI fallback: a truthy
    zestimate or zpid, wherever the property lies. *)
Definition fallback_accepts (data : value) : bool :=
  V.truthy (V.or (essential data "zestimate") (essential data "zpid")).

(** *** Comparing the snapshots *)

(** An object without the fields called [names]. *)
Definition drop_fields (names : list string) (v : value) : value :=
  match v with
  | VObj fields =>
      VObj (filter (fun kv => negb (existsb (String.eqb (fst kv)) names)) fields)
  | _ => v
  end.

(** The answer [r] of the latest snapshot is the answer [r1] of the
    earlier one with the six extra fields added. *)
Definition extends (r r1 : response) : Prop :=
  status r = status r1 /\ drop_fields (map fst extra_fields) (body r) = body r1.

(** Two runs that end alike: the same exception, or answers of which
    the first extends the second. *)
Definition alike (a b : result response * trace) : Prop :=
  snd a = snd b /\
  match fst a, fst b with
  | Ok r, Ok r1 => extends r r1
  | Raise m, Raise m1 => m = m1
  | _, _ => False
  end.

(** [u] is the detail page of the best result that a visit of the
    search page listed. *)
Definition listed_detail (W : world) (address city state zip : value) (u : string)
  : Prop :=
  exists hist parsed results d,
    page W hist (buildSearchUrl address city state zip) = PageBlob parsed /\
    find_listResults parsed = VArr results /\
    first_best (norm address) (norm city) results
      (pickBestSearchResult results address city) /\
    V.get (fst (pickBestSearchResult results address city)) "detailUrl" = VStr d /\
    u = absolute d.

(* ================================================================== *)
(** ** Worked examples *)

Example trim_ex : Js.trim "  413 5th St  " = "413 5th St".
Proof. reflexivity. Qed.

Example replace_ex :
  Js.replace_gi " St " " Street " " 1 st St x " = " 1 Street St x ".
Proof. reflexivity. Qed.

Example split_ex : Js.split "." "a.b." = ["a"; "b"; ""].
Proof. reflexivity. Qed.

Example string_of_Z_ex : Js.string_of_Z (-62704) = "-62704" /\ Js.string_of_Z 0 = "0".
Proof. split; reflexivity. Qed.

Example get_ex :
  V.get (VArr [VNum 1; VNum 2]) "1" = VNum 2 /\
  V.get (VArr [VNum 1; VNum 2]) "01" = VUndef /\
  V.get (VStr "abc") "length" = VNum 3 /\
  V.to_string (VArr [VNum 1; VNull; VStr "x"]) = "1,,x".
Proof. repeat split; reflexivity. Qed.

Example tryPaths_ex :
  tryPaths (VObj [("c", VNum 5)]) ["a.b"; "c"] = VNum 5 /\
  tryPaths (VObj [("a", VObj [("b", VNum 7)]); ("c", VNum 5)]) ["a.b"; "c"] = VNum 7.
Proof. split; reflexivity. Qed.

Example variants_413 :
  generateAddressVariants (VStr "413 5th St") =
  ["413 5th St"; "413 5th Street";
   "413 E 5th St"; "413 W 5th St"; "413 N 5th St"; "413 S 5th St"].
Proof. reflexivity. Qed.

Example variants_directional :
  generateAddressVariants (VStr " 12 ne Oak Avenue ") =
  ["12 ne Oak Avenue"; "12 ne Oak Ave"].
Proof. reflexivity. Qed.

Example hasDirectional_ex :
  hasDirectional "12 ne Oak St" = true /\
  hasDirectional "12 N. Oak St" = true /\
  hasDirectional "12 Oak St-E" = true /\
  hasDirectional "12 Newton St" = false /\
  hasDirectional "12 N_1 St" = false /\
  hasDirectional "12 West St" = false.
Proof. repeat split; reflexivity. Qed.

Example match_house_ex :
  match_house "413   5th St" = Some ("413", "5th St") /\
  match_house "413B 5th St" = None /\
  match_house "Fifth St 413" = None.
Proof. repeat split; reflexivity. Qed.

Example variants_blank : generateAddressVariants (VStr "   ") = [].
Proof. reflexivity. Qed.

Example attempt_url_ex :
  attempt_url "h.example" (VStr "Austin") (VStr "TX") VUndef "413 5th St"
    {| path := "/property"; params := citystatezip_params |}
  = "https://h.example/property?address=413%205th%20St&citystatezip=Austin%2C%20TX".
Proof. reflexivity. Qed.

Example extract_ex :
  extractZpidAndZestimate
    (VObj [("property", VObj [("zpid", VStr "z-12345"); ("zestimate", VNum 350000)])])
  = (VNum 12345, VNum 350000) /\
  extractZpidAndZestimate
    (VObj [("deep", VArr [VObj [("zestimate", VNum 1234567890); ("zpid", VStr "77")]])])
  = (VNum 77, VNum 123456789).
Proof. split; reflexivity. Qed.

Example pick_zero_score :
  pickBestSearchResult
    [VObj [("address", VStr "9 Elm Rd")]; VObj [("address", VStr "7 Oak Ln")]]
    (VStr "413 5th St") (VStr "Austin")
  = (VObj [("address", VStr "9 Elm Rd")], 0).
Proof. reflexivity. Qed.

Example norm_punctuation : norm (VStr " #-., ") = "" /\ norm (VStr "_") = "_".
Proof. split; reflexivity. Qed.

Example variants_main_st :
  generateAddressVariants (VStr "  123 Main St ") =
  ["123 Main St"; "123 Main Street";
   "123 E Main St"; "123 W Main St"; "123 N Main St"; "123 S Main St"].
Proof. reflexivity. Qed.

(** The variant [123 Main Street] is the second one: the five shapes
    fail for [123 Main St], then the first shape succeeds. *)
Example route_reaches_expanded_variant :
  exists r tr,
    zestimate_route api_env street_world
      (query "123 Main St" "Springfield" "IL" "62704") = (Sent r, tr) /\
    List.length tr = 6%nat /\
    V.get (body r) "ok" = VBool true /\
    V.get (body r) "zpid" = VNum 2077 /\
    V.get (body r) "zestimate" = VNum 250000 /\
    V.get (body r) "property_url"
      = VStr "https://www.zillow.com/homedetails/2077_zpid/" /\
    V.get (body r) "source"
      = VStr ("rapidapi-fallback /property | addr=" ++ dquote ++
              "123 Main Street" ++ dquote) /\
    V.get (body r) "match_confidence" = VNum 85.
Proof.
  eexists. eexists. split; [vm_compute; reflexivity |].
  repeat split.
Qed.

Example route_blank_address_not_rejected :
  fst (zestimate_route no_env silent_world (query " " "Austin" "TX" ""))
  = Sent (no_match (buildSearchUrl (VStr " ") (VStr "Austin") (VStr "TX") (VStr ""))
                   "No search data blob found.").
Proof. vm_compute. reflexivity. Qed.

(* ================================================================== *)
(** * Properties *)

(** ** Ordered path lookup *)

Lemma split_not_nil (sep : ascii) (s : string) : Js.split sep s <> [].
Proof.
  destruct s as [| c s]; simpl; [discriminate |].
  destruct (Ascii.eqb c sep); [discriminate |].
  destruct (Js.split sep s); discriminate.
Qed.

Lemma split_dot_app (p q : string) :
  Js.split "." (p ++ String "." q) = (Js.split "." p ++ Js.split "." q)%list.
Proof.
  induction p as [| c p IH]; simpl.
  - reflexivity.
  - rewrite IH. destruct (Ascii.eqb c "."); [reflexivity |].
    pose proof (split_not_nil "." p) as Hne.
    destruct (Js.split "." p); [congruence | reflexivity].
Qed.

Lemma walk_from_falsy (ks : list string) (o : value) :
  V.truthy o = false -> ks <> [] -> fold_left walk_step ks o = VUndef.
Proof.
  intros Ho Hks. destruct ks as [| k ks]; [congruence |]. clear Hks.
  simpl. unfold walk_step at 2. rewrite Ho. clear Ho k o.
  induction ks as [| k ks IH]; simpl; [reflexivity | exact IH].
Qed.

(** A path whose prefix already walked into a falsy value fails. *)
Lemma walk_missing_intermediate (obj : value) (p q : string) :
  V.truthy (walk obj p) = false -> walk obj (p ++ "." ++ q) = VUndef.
Proof.
  intro H. unfold walk in *.
  change ("." ++ q) with (String "." q).
  rewrite split_dot_app, fold_left_app.
  apply walk_from_falsy; [exact H | apply split_not_nil].
Qed.

Lemma tryPaths_first_hit (obj : value) (pre : list string) (p : string)
    (post : list string) :
  (forall q, In q pre -> present (walk obj q) = false) ->
  present (walk obj p) = true ->
  tryPaths obj (pre ++ p :: post) = walk obj p.
Proof.
  intros Hpre Hp. induction pre as [| q pre IH]; simpl.
  - rewrite Hp. reflexivity.
  - rewrite (Hpre q (or_introl eq_refl)). apply IH.
    intros q' Hq'. apply Hpre. right. exact Hq'.
Qed.

Lemma pick_first_hit (obj : value) (pre : list string) (p : string)
    (post : list string) :
  (forall q, In q pre -> present (walk obj q) = false) ->
  present (walk obj p) = true ->
  pick obj (pre ++ p :: post) = walk obj p.
Proof.
  intros Hpre Hp. induction pre as [| q pre IH]; simpl.
  - rewrite Hp. reflexivity.
  - rewrite (Hpre q (or_introl eq_refl)). apply IH.
    intros q' Hq'. apply Hpre. right. exact Hq'.
Qed.

Lemma tryPaths_no_hit (obj : value) (paths : list string) :
  (forall q, In q paths -> present (walk obj q) = false) ->
  tryPaths obj paths = VUndef /\ pick obj paths = VNull.
Proof.
  induction paths as [| q paths IH]; intro H; simpl.
  - split; reflexivity.
  - rewrite (H q (or_introl eq_refl)). apply IH.
    intros q' Hq'. apply H. right. exact Hq'.
Qed.

(** C5. [tryPaths] and [pick] try the dotted paths in the order given:
    when every path before [p] fails and the walk of [p] ends in a value
    that is neither [null] nor [undefined], the answer is that value,
    whatever follows [p] in the list; a path that extends one whose walk
    is missing fails; when no path succeeds [tryPaths] answers
    [undefined] and [pick] answers [null]. With the paths [a.b] then [c],
    the record [{c: 5}] gives 5 and the record [{a: {b: 7}, c: 5}]
    gives 7. *)
Theorem C5_ordered_path_lookup :
  (forall obj pre p post,
      (forall q, In q pre -> present (walk obj q) = false) ->
      present (walk obj p) = true ->
      tryPaths obj (pre ++ p :: post) = walk obj p /\
      pick obj (pre ++ p :: post) = walk obj p) /\
  (forall obj p q,
      present (walk obj p) = false ->
      present (walk obj (p ++ "." ++ q)) = false) /\
  (forall obj paths,
      (forall q, In q paths -> present (walk obj q) = false) ->
      tryPaths obj paths = VUndef /\ pick obj paths = VNull) /\
  tryPaths (VObj [("c", VNum 5)]) ["a.b"; "c"] = VNum 5 /\
  pick (VObj [("c", VNum 5)]) ["a.b"; "c"] = VNum 5 /\
  tryPaths (VObj [("a", VObj [("b", VNum 7)]); ("c", VNum 5)]) ["a.b"; "c"] = VNum 7 /\
  pick (VObj [("a", VObj [("b", VNum 7)]); ("c", VNum 5)]) ["a.b"; "c"] = VNum 7.
Proof.
  split; [| split; [| split]].
  - intros obj pre p post Hpre Hp. split.
    + apply tryPaths_first_hit; assumption.
    + apply pick_first_hit; assumption.
  - intros obj p q H. rewrite walk_missing_intermediate; [reflexivity |].
    unfold present in H. destruct (walk obj p); simpl in *; congruence.
  - apply tryPaths_no_hit.
  - repeat split; reflexivity.
Qed.

Lemma C5_ordered_path_lookup_witness :
  tryPaths (VObj [("c", VNum 5)]) (["a.b"] ++ "c" :: ["d"]) = walk (VObj [("c", VNum 5)]) "c" /\
  pick (VObj [("c", VNum 5)]) (["a.b"] ++ "c" :: ["d"]) = walk (VObj [("c", VNum 5)]) "c".
Proof.
  apply (proj1 C5_ordered_path_lookup (VObj [("c", VNum 5)]) ["a.b"] "c" ["d"]).
  - intros q [Hq | []]. subst q. reflexivity.
  - reflexivity.
Defined.

(** ** The fuzzy scorer *)

Lemma score_of_range (ta tc : string) (r : value) : 0 <= score_of ta tc r <= 3.
Proof.
  unfold score_of.
  destruct (Js.includes (addrText r) ta), (Js.includes (addrText r) tc); lia.
Qed.

Lemma pick_loop_first_best (ta tc : string) (results : list value) :
  results <> [] ->
  first_best ta tc results (fold_left (pick_step ta tc) results (VNull, -1)).
Proof.
  induction results as [| x l IH] using rev_ind; [congruence | intros _].
  rewrite fold_left_app. simpl.
  destruct l as [| y l'].
  - (* the very first result always beats the initial score -1 *)
    simpl. unfold pick_step. simpl.
    pose proof (score_of_range ta tc x) as Hx.
    destruct (Z.gtb_spec (score_of ta tc x) (-1)) as [_ | Hle]; [| lia].
    exists 0%nat. simpl. repeat split.
    + intros r [Hr | []]. subst r. lia.
    + intros j r Hj. lia.
  - destruct (IH ltac:(discriminate)) as (i & Hi & Hs & Hmax & Hfirst).
    set (acc := fold_left (pick_step ta tc) (y :: l') (VNull, -1)) in *.
    unfold pick_step at 1.
    destruct (score_of ta tc x >? snd acc) eqn:Hgt.
    + apply Z.gtb_lt in Hgt.
      exists (List.length (y :: l')). simpl fst. simpl snd. repeat split.
      * rewrite nth_error_app2 by lia. rewrite Nat.sub_diag. reflexivity.
      * intros r Hr. apply in_app_or in Hr. destruct Hr as [Hr | [Hr | []]].
        -- specialize (Hmax r Hr). lia.
        -- subst r. lia.
      * intros j r Hj Hnth. rewrite nth_error_app1 in Hnth by exact Hj.
        apply nth_error_In in Hnth. specialize (Hmax r Hnth). lia.
    + assert (score_of ta tc x <= snd acc) as Hle.
      { destruct (Z.gtb_spec (score_of ta tc x) (snd acc)); [discriminate | lia]. }
      exists i. repeat split.
      * rewrite nth_error_app1; [exact Hi |].
        apply nth_error_Some. rewrite Hi. discriminate.
      * exact Hs.
      * intros r Hr. apply in_app_or in Hr. destruct Hr as [Hr | [Hr | []]].
        -- apply Hmax. exact Hr.
        -- subst r. exact Hle.
      * intros j r Hj Hnth. apply (Hfirst j r Hj).
        rewrite nth_error_app1 in Hnth; [exact Hnth |].
        assert (i < List.length (y :: l'))%nat.
        { apply nth_error_Some. rewrite Hi. discriminate. }
        lia.
Qed.

Lemma score_two_iff (ta tc : string) (r : value) :
  2 <= score_of ta tc r <->
  Js.includes (norm (V.or (V.opt r "address") (VStr ""))) ta = true.
Proof.
  unfold score_of, addrText.
  destruct (Js.includes (norm (V.or (V.opt r "address") (VStr ""))) ta),
           (Js.includes (norm (V.or (V.opt r "address") (VStr ""))) tc);
    split; intro H; solve [reflexivity | lia | discriminate H].
Qed.

Lemma score_three_iff (ta tc : string) (r : value) :
  score_of ta tc r = 3 <->
  Js.includes (norm (V.or (V.opt r "address") (VStr ""))) ta = true /\
  Js.includes (norm (V.or (V.opt r "address") (VStr ""))) tc = true.
Proof.
  unfold score_of, addrText.
  destruct (Js.includes (norm (V.or (V.opt r "address") (VStr ""))) ta),
           (Js.includes (norm (V.or (V.opt r "address") (VStr ""))) tc);
    split; intro H; solve [auto | lia | destruct H; discriminate].
Qed.



(** ** An address that normalises to nothing *)

Lemma includes_empty (s : string) : Js.includes s "" = true.
Proof. destruct s; reflexivity. Qed.

Lemma score_of_empty_address (tc : string) (r : value) :
  score_of "" tc r = if city_hit tc r then 3 else 2.
Proof.
  unfold score_of, city_hit. rewrite includes_empty.
  destruct (Js.includes (addrText r) tc); reflexivity.
Qed.

Lemma pick_loop_at_top (ta tc : string) (l : list value) (b : value) :
  fold_left (pick_step ta tc) l (b, 3) = (b, 3).
Proof.
  induction l as [| x l IH]; simpl; [reflexivity |].
  unfold pick_step at 2. simpl snd.
  pose proof (score_of_range ta tc x) as Hx.
  destruct (Z.gtb_spec (score_of ta tc x) 3); [lia | exact IH].
Qed.

Lemma pick_loop_from_two (tc : string) (l : list value) (b : value) :
  fold_left (pick_step "" tc) l (b, 2) =
  match find (city_hit tc) l with
  | Some x => (x, 3)
  | None => (b, 2)
  end.
Proof.
  induction l as [| x l IH]; simpl; [reflexivity |].
  unfold pick_step at 2. simpl snd. rewrite score_of_empty_address.
  destruct (city_hit tc x); simpl.
  - apply pick_loop_at_top.
  - exact IH.
Qed.

Lemma pick_empty_address (tc : string) (r : value) (rs : list value) :
  fold_left (pick_step "" tc) (r :: rs) (VNull, -1) =
  match find (city_hit tc) (r :: rs) with
  | Some x => (x, 3)
  | None => (r, 2)
  end.
Proof.
  simpl. unfold pick_step at 2. simpl snd. rewrite score_of_empty_address.
  destruct (city_hit tc r); simpl.
  - apply pick_loop_at_top.
  - apply pick_loop_from_two.
Qed.

Lemma scrape_confidence_floor (zestimate : value) (score : Z) :
  20 <= scrape_confidence zestimate score.
Proof.
  unfold scrape_confidence. destruct (V.truthy zestimate); lia.
Qed.

(** The required-fields check looks at the truthiness of the three
    fields and at nothing else. *)
Lemma route_past_check (E : environment) (W : world) (req : request) :
  checkApiKey E req = true ->
  V.truthy (V.get (V.or (req_body req) (VObj [])) "address") = true ->
  V.truthy (V.get (V.or (req_body req) (VObj [])) "city") = true ->
  V.truthy (V.get (V.or (req_body req) (VObj [])) "state") = true ->
  zestimate_route E W req =
  resolve E W
    (V.get (V.or (req_body req) (VObj [])) "address")
    (V.get (V.or (req_body req) (VObj [])) "city")
    (V.get (V.or (req_body req) (VObj [])) "state")
    (V.get (V.or (req_body req) (VObj [])) "zip") [].
Proof.
  intros Hk Ha Hc Hs. unfold zestimate_route.
  rewrite Hk, Ha, Hc, Hs. reflexivity.
Qed.

(** C10. When the query address normalises to the empty string, every
    search result scores at least 2, because the empty string occurs in
    every string. On a non-empty list [pickBestSearchResult] then answers
    the first result whose address text contains the city, with score 3,
    and otherwise the very first result, with score 2, whatever that
    result is; the scrape path reports a confidence of at least 20 for
    it. Such addresses get past the required-fields check, which tests
    truthiness without trimming: a request whose address is a non-empty
    string of blanks or punctuation goes on to resolution. *)
Theorem C10_blank_address_scores_everything
    (results : list value) (address city : value) :
  norm address = "" ->
  (forall r, 2 <= score_of (norm address) (norm city) r) /\
  (forall r rs, results = r :: rs ->
     pickBestSearchResult results address city =
     match find (city_hit (norm city)) results with
     | Some x => (x, 3)
     | None => (r, 2)
     end) /\
  (forall zestimate,
     results <> [] ->
     2 <= snd (pickBestSearchResult results address city) /\
     20 <= scrape_confidence zestimate
             (snd (pickBestSearchResult results address city))) /\
  (forall E W req s,
     checkApiKey E req = true ->
     address = VStr s -> s <> "" ->
     V.get (V.or (req_body req) (VObj [])) "address" = address ->
     V.truthy (V.get (V.or (req_body req) (VObj [])) "city") = true ->
     V.truthy (V.get (V.or (req_body req) (VObj [])) "state") = true ->
     zestimate_route E W req =
     resolve E W address
       (V.get (V.or (req_body req) (VObj [])) "city")
       (V.get (V.or (req_body req) (VObj [])) "state")
       (V.get (V.or (req_body req) (VObj [])) "zip") []).
Proof.
  intro Hn. split; [| split; [| split]].
  - intro r. rewrite Hn, score_of_empty_address.
    destruct (city_hit (norm city) r); lia.
  - intros r rs ->. unfold pickBestSearchResult. rewrite Hn.
    apply pick_empty_address.
  - intros zestimate Hne. split; [| apply scrape_confidence_floor].
    destruct results as [| r rs]; [congruence |].
    unfold pickBestSearchResult. rewrite Hn, pick_empty_address.
    destruct (find (city_hit (norm city)) (r :: rs)); simpl; lia.
  - intros E W req s Hk Hs Hne Ha Hc Hst. subst address.
    rewrite (route_past_check E W req Hk); [rewrite Ha; reflexivity | | exact Hc | exact Hst].
    rewrite Ha. simpl. destruct s; [congruence | reflexivity].
Qed.

(** A blank address against two results that have nothing to do with
    the query city: the first one is chosen, with score 2. *)
Lemma C10_blank_address_scores_everything_witness :
  norm (VStr "   ") = "" /\
  pickBestSearchResult
    [VObj [("address", VStr "9 Elm Rd, Reno, NV")];
     VObj [("address", VStr "7 Oak Ln, Boise, ID")]]
    (VStr "   ") (VStr "Austin")
  = (VObj [("address", VStr "9 Elm Rd, Reno, NV")], 2).
Proof.
  split; [reflexivity |].
  exact (proj1 (proj2 (C10_blank_address_scores_everything
           [VObj [("address", VStr "9 Elm Rd, Reno, NV")];
            VObj [("address", VStr "7 Oak Ln, Boise, ID")]]
           (VStr "   ") (VStr "Austin") eq_refl))
         _ _ eq_refl).
Defined.

(** ** Address variants *)

Lemma existsb_eqb_In (x : string) (s : list string) :
  existsb (String.eqb x) s = true <-> In x s.
Proof.
  rewrite existsb_exists. split.
  - intros (y & Hy & Heq). apply String.eqb_eq in Heq. subst y. exact Hy.
  - intro H. exists x. split; [exact H | apply String.eqb_refl].
Qed.

Lemma set_add_NoDup (s : list string) (x : string) :
  NoDup s -> NoDup (set_add s x).
Proof.
  intro H. unfold set_add. destruct (existsb (String.eqb x) s) eqn:Hx; [exact H |].
  apply NoDup_app; [exact H | repeat constructor; intros [] |].
  intros y Hy [Hyx | []]. subst y.
  apply existsb_eqb_In in Hy. congruence.
Qed.

Lemma set_add_head (s : list string) (x b : string) :
  hd_error s = Some b -> hd_error (set_add s x) = Some b.
Proof.
  unfold set_add. destruct (existsb (String.eqb x) s); [trivial |].
  destruct s; simpl; [discriminate | trivial].
Qed.

Lemma set_add_In (s : list string) (x y : string) :
  In y (set_add s x) <-> In y s \/ y = x.
Proof.
  unfold set_add. destruct (existsb (String.eqb x) s) eqn:Hx.
  - apply existsb_eqb_In in Hx. split; [auto | intros [H | ->]; assumption].
  - rewrite in_app_iff. simpl. intuition.
Qed.

Section SetFold.

Variable f : string -> string.

Lemma fold_set_add_NoDup (ds : list string) (s : list string) :
  NoDup s -> NoDup (fold_left (fun vs d => set_add vs (f d)) ds s).
Proof.
  revert s. induction ds as [| d ds IH]; intros s H; simpl; [exact H |].
  apply IH, set_add_NoDup, H.
Qed.

Lemma fold_set_add_head (ds : list string) (s : list string) (b : string) :
  hd_error s = Some b ->
  hd_error (fold_left (fun vs d => set_add vs (f d)) ds s) = Some b.
Proof.
  revert s. induction ds as [| d ds IH]; intros s H; simpl; [exact H |].
  apply IH, set_add_head, H.
Qed.

End SetFold.

Lemma filter_head (p : string -> bool) (s : list string) (b : string) :
  hd_error s = Some b -> p b = true -> hd_error (filter p s) = Some b.
Proof.
  destruct s as [| x s]; simpl; [discriminate |].
  intros [= ->] Hp. rewrite Hp. reflexivity.
Qed.

Lemma generateAddressVariants_unfold (address : value) :
  generateAddressVariants address =
  let base := Js.trim (V.to_string (V.or address (VStr ""))) in
  if String.eqb base "" then [] else filter non_empty (variant_set base).
Proof. reflexivity. Qed.

Lemma variant_set_NoDup (base : string) : NoDup (variant_set base).
Proof.
  unfold variant_set.
  assert (NoDup (swap_set base)) as H.
  { unfold swap_set. repeat apply set_add_NoDup. constructor. }
  destruct (negb (hasDirectional base)); [| exact H].
  destruct (match_house base) as [[num rest] |]; [| exact H].
  apply fold_set_add_NoDup with (f := directional_variant num rest). exact H.
Qed.

Lemma variant_set_head (base : string) : hd_error (variant_set base) = Some base.
Proof.
  unfold variant_set.
  assert (hd_error (swap_set base) = Some base) as H.
  { unfold swap_set. do 2 apply set_add_head. reflexivity. }
  destruct (negb (hasDirectional base)); [| exact H].
  destruct (match_house base) as [[num rest] |]; [| exact H].
  apply fold_set_add_head with (f := directional_variant num rest). exact H.
Qed.

Lemma to_string_of_string (s : string) :
  V.to_string (V.or (VStr s) (VStr "")) = s.
Proof.
  unfold V.or. simpl. destruct (String.eqb_spec s ""); simpl; congruence.
Qed.

(** C4. [generateAddressVariants] never repeats a string. When the
    input, converted to a string and trimmed, is not empty, the first
    variant is that trimmed input; when it is empty (an empty, missing
    or whitespace-only address) the list is empty. For a string input
    the trimmed input is [trim] of the string itself. *)
Theorem C4_variants_head_and_distinct (address : value) :
  NoDup (generateAddressVariants address) /\
  (Js.trim (V.to_string (V.or address (VStr ""))) <> "" ->
   hd_error (generateAddressVariants address) =
   Some (Js.trim (V.to_string (V.or address (VStr ""))))) /\
  (Js.trim (V.to_string (V.or address (VStr ""))) = "" ->
   generateAddressVariants address = []) /\
  (forall s, address = VStr s ->
             Js.trim (V.to_string (V.or address (VStr ""))) = Js.trim s).
Proof.
  rewrite generateAddressVariants_unfold. cbv zeta.
  set (base := Js.trim (V.to_string (V.or address (VStr "")))).
  split; [| split; [| split]].
  - destruct (String.eqb base ""); [constructor |].
    apply NoDup_filter, variant_set_NoDup.
  - intro Hne. destruct (String.eqb_spec base ""); [congruence |].
    apply filter_head; [apply variant_set_head |].
    unfold non_empty. destruct (String.eqb_spec base ""); [congruence | reflexivity].
  - intro He. rewrite He. reflexivity.
  - intros s ->. unfold base. rewrite to_string_of_string. reflexivity.
Qed.

Lemma C4_variants_head_and_distinct_witness :
  hd_error (generateAddressVariants (VStr "  123 Main St ")) = Some "123 Main St" /\
  generateAddressVariants (VStr "   ") = [].
Proof.
  split.
  - apply (proj1 (proj2 (C4_variants_head_and_distinct (VStr "  123 Main St ")))).
    discriminate.
  - apply (proj1 (proj2 (proj2 (C4_variants_head_and_distinct (VStr "   "))))).
    reflexivity.
Defined.

(** ** Directional variants *)

Lemma span_app (p : ascii -> bool) (a b : string) :
  Js.forallb_str p a = true -> starts_outside p b -> Js.span p (a ++ b) = (a, b).
Proof.
  intros Ha Hb. induction a as [| c a IH]; simpl in *.
  - destruct b as [| c b]; simpl in *; [reflexivity | rewrite Hb; reflexivity].
  - apply andb_prop in Ha. destruct Ha as [Hc Ha].
    rewrite Hc, (IH Ha). reflexivity.
Qed.

Lemma space_not_digit (c : ascii) : Js.is_space c = true -> Js.is_digit c = false.
Proof.
  destruct c as [[] [] [] [] [] [] [] []]; intro H;
    solve [reflexivity | discriminate H].
Qed.

(** A base made of a house number, blanks and a one-line remainder is
    what the house-number pattern matches, with these two groups. *)
Lemma match_house_decomposed (num ws rest : string) :
  num <> "" -> Js.forallb_str Js.is_digit num = true ->
  ws <> "" -> Js.forallb_str Js.is_space ws = true ->
  starts_outside Js.is_space rest ->
  existsb_str Js.is_line_terminator rest = false ->
  match_house (num ++ ws ++ rest) = Some (num, rest).
Proof.
  intros Hn Hd Hw Hs Hr Hl. unfold match_house.
  rewrite (span_app Js.is_digit num (ws ++ rest) Hd).
  - rewrite (span_app Js.is_space ws rest Hs Hr), Hl.
    destruct (String.eqb_spec num ""); [congruence |].
    destruct (String.eqb_spec ws ""); [congruence | reflexivity].
  - destruct ws as [| c ws]; [congruence |]. simpl in *.
    apply andb_prop in Hs. apply space_not_digit, Hs.
Qed.

Lemma directional_from_skip (pre : string) (prev : bool) (c : ascii) (s : string) :
  directional_from (Js.is_word c) s = true ->
  directional_from prev (pre ++ String c s) = true.
Proof.
  intro H. revert prev. induction pre as [| a pre IH]; intro prev; simpl.
  - rewrite H. apply orb_true_r.
  - rewrite IH. apply orb_true_r.
Qed.

Lemma directional_variant_has_token (num rest d : string) :
  In d ["E"; "W"; "N"; "S"] ->
  hasDirectional (directional_variant num rest d) = true.
Proof.
  intro Hd. unfold hasDirectional, directional_variant.
  change (" " ++ d ++ " " ++ rest) with (String " " (d ++ String " " rest)).
  apply directional_from_skip.
  destruct Hd as [<- | [<- | [<- | [<- | []]]]]; reflexivity.
Qed.

Lemma string_app_inv_head (a x y : string) : a ++ x = a ++ y -> x = y.
Proof.
  induction a as [| c a IH]; simpl; intro H; [exact H |].
  injection H as H. exact (IH H).
Qed.

Lemma directional_variants_distinct (num rest : string) :
  NoDup (map (directional_variant num rest) ["E"; "W"; "N"; "S"]).
Proof.
  assert (forall d e, directional_variant num rest d = directional_variant num rest e ->
                      String " " (d ++ String " " rest) = String " " (e ++ String " " rest)) as H.
  { intros d e Heq. exact (string_app_inv_head num _ _ Heq). }
  simpl. repeat constructor; simpl; intuition;
    match goal with Heq : directional_variant _ _ _ = _ |- _ =>
      apply H in Heq; discriminate Heq end.
Qed.

Lemma non_empty_app (a b : string) : a <> "" -> non_empty (a ++ b) = true.
Proof. destruct a; [congruence | reflexivity]. Qed.

Lemma letter_not_outside (x : ascii) :
  Js.is_word x = false ->
  Ascii.eqb (Js.lower_char "N") (Js.lower_char x) = false /\
  Ascii.eqb (Js.lower_char "S") (Js.lower_char x) = false /\
  Ascii.eqb (Js.lower_char "E") (Js.lower_char x) = false /\
  Ascii.eqb (Js.lower_char "W") (Js.lower_char x) = false.
Proof.
  destruct x as [[] [] [] [] [] [] [] []]; intro H;
    solve [discriminate H | repeat split; reflexivity].
Qed.

Lemma directional_here_cut (s : string) (x : ascii) (b : string) :
  Js.is_word x = false ->
  directional_here (s ++ String x b) = directional_here s.
Proof.
  intro Hx. destruct (letter_not_outside x Hx) as (Hn & Hs & He & Hw).
  unfold directional_here, boundary, word_at_start.
  destruct s as [| c1 [| c2 [| c3 s]]]; cbn -[Js.lower_char Js.is_word];
    rewrite ?Hx, ?Hn, ?Hs, ?He, ?Hw; cbn -[Js.lower_char Js.is_word];
    rewrite ?andb_false_r; try reflexivity.
Qed.

Lemma directional_from_nil (prev : bool) : directional_from prev "" = false.
Proof. unfold directional_from, directional_here. simpl. rewrite andb_false_r. reflexivity. Qed.

(** Tokens do not straddle a character that is not a word character. *)
Lemma directional_from_cut (a : string) (prev : bool) (x : ascii) (b : string) :
  Js.is_word x = false ->
  directional_from prev (a ++ String x b) =
  (directional_from prev a || directional_from false b)%bool.
Proof.
  intro Hx. revert prev. induction a as [| c a IH]; intro prev.
  - rewrite directional_from_nil. cbn [append directional_from].
    pose proof (directional_here_cut "" x b Hx) as H. cbn [append] in H.
    rewrite H, Hx. change (directional_here "") with false.
    rewrite andb_false_r. reflexivity.
  - cbn [append directional_from]. rewrite IH.
    pose proof (directional_here_cut (String c a) x b Hx) as H.
    cbn [append] in H. rewrite H.
    unfold boundary. cbn [word_at_start append].
    rewrite orb_assoc. reflexivity.
Qed.

(** *** Word swaps create no directional token *)

Lemma blank_only_matches_blank (c : ascii) :
  Ascii.eqb (Js.lower_char " ") (Js.lower_char c) = true -> c = " "%char.
Proof.
  destruct c as [[] [] [] [] [] [] [] []]; intro H;
    solve [discriminate H | reflexivity].
Qed.

Lemma string_app_nil_r (s : string) : s ++ "" = s.
Proof. induction s as [| c s IH]; simpl; [reflexivity | rewrite IH; reflexivity]. Qed.

Lemma string_app_assoc (a b c : string) : (a ++ b) ++ c = a ++ (b ++ c).
Proof. induction a as [| x a IH]; simpl; [reflexivity | rewrite IH; reflexivity]. Qed.

Lemma string_length_app (a b : string) :
  String.length (a ++ b) = (String.length a + String.length b)%nat.
Proof. induction a as [| x a IH]; simpl; [reflexivity | rewrite IH; reflexivity]. Qed.

Lemma drop_app_length (a b : string) : drop (String.length a) (a ++ b) = b.
Proof. induction a as [| x a IH]; simpl; [destruct b; reflexivity | exact IH]. Qed.

Lemma replace_from_drop (k v : string) (s : string) (n : nat) :
  Js.replace_from n k v s = Js.replace_from 0 k v (drop n s).
Proof.
  revert n. induction s as [| c r IH]; intro n.
  - destruct n; reflexivity.
  - destruct n as [| m]; [reflexivity |]. cbn [Js.replace_from drop]. apply IH.
Qed.

(** A first character other than a blank starts no match of a padded word. *)
Lemma replace_skips_non_blank (x v : string) (a t : string) :
  Js.forallb_str (fun c => negb (is_blank c)) a = true ->
  Js.replace_gi (pad x) v (a ++ t) = a ++ Js.replace_gi (pad x) v t.
Proof.
  intro Ha. unfold Js.replace_gi. induction a as [| c a IH]; [reflexivity |].
  cbn [Js.forallb_str] in Ha. apply andb_prop in Ha. destruct Ha as [Hc Ha].
  cbn [append Js.replace_from].
  replace (Js.prefix_ci (pad x) (String c (a ++ t))) with false.
  - rewrite (IH Ha). reflexivity.
  - symmetry. unfold pad. cbn [Js.prefix_ci].
    destruct (Ascii.eqb (Js.lower_char " ") (Js.lower_char c)) eqn:Hb; [| reflexivity].
    apply blank_only_matches_blank in Hb. subst c. discriminate Hc.
Qed.

(** A match of [w] followed by a blank splits the text at that blank. *)
Lemma prefix_ci_blank_split (w s : string) :
  Js.prefix_ci (w ++ " ") s = true ->
  exists u post, s = u ++ String " " post /\ String.length u = String.length w.
Proof.
  revert s. induction w as [| c w IH]; intros s H.
  - destruct s as [| d post]; [discriminate H |]. cbn in H.
    apply andb_prop in H. destruct H as [H _].
    apply blank_only_matches_blank in H. subst d.
    exists "", post. split; reflexivity.
  - destruct s as [| d s]; [discriminate H |]. cbn [append Js.prefix_ci] in H.
    apply andb_prop in H. destruct H as [_ H].
    destruct (IH s H) as (u & post & -> & Hlen).
    exists (String d u), post. split; [reflexivity | simpl; rewrite Hlen; reflexivity].
Qed.

Lemma first_blank (s : string) :
  exists a t, s = a ++ t /\
              Js.forallb_str (fun c => negb (is_blank c)) a = true /\
              (t = "" \/ exists b, t = String " " b).
Proof.
  induction s as [| c s (a & t & -> & Ha & Ht)].
  - exists "", "". repeat split. left. reflexivity.
  - destruct (is_blank c) eqn:Hc.
    + apply Ascii.eqb_eq in Hc. subst c.
      exists "", (String " " (a ++ t)). repeat split. right. eexists. reflexivity.
    + exists (String c a), t. repeat split; [| exact Ht].
      cbn [Js.forallb_str]. rewrite Hc, Ha. reflexivity.
Qed.

Section ReplaceKeepsClean.

Variables x y : string.
Hypothesis y_clean : directional_from false y = false.

Let R := Js.replace_gi (pad x) (pad y).

Lemma replace_at_blank (b : string) :
  (exists u post,
      b = u ++ String " " post /\
      R (String " " b) = String " " (y ++ String " " (R post))) \/
  R (String " " b) = String " " (R b).
Proof.
  unfold R, Js.replace_gi. cbn [Js.replace_from].
  destruct (Js.prefix_ci (pad x) (String " " b)) eqn:Hm; [left | right; reflexivity].
  unfold pad in Hm. cbn [Js.prefix_ci] in Hm.
  apply andb_prop in Hm. destruct Hm as [_ Hm].
  destruct (prefix_ci_blank_split x b Hm) as (u & post & -> & Hlen).
  exists u, post. split; [reflexivity |].
  rewrite replace_from_drop.
  replace (Nat.pred (String.length (pad x))) with (String.length (u ++ " ")).
  - replace (u ++ String " " post) with ((u ++ " ") ++ post)
      by (rewrite string_app_assoc; reflexivity).
    rewrite drop_app_length.
    unfold pad. cbn [append]. rewrite string_app_assoc. reflexivity.
  - unfold pad. cbn [String.length Nat.pred].
    rewrite !string_length_app, Hlen. reflexivity.
Qed.

Lemma blank_not_word : Js.is_word " " = false.
Proof. reflexivity. Qed.

Lemma replace_keeps_clean_upto (n : nat) :
  forall s prev, (String.length s <= n)%nat ->
                 directional_from prev s = false ->
                 directional_from prev (R s) = false.
Proof.
  induction n as [| n IH]; intros s prev Hlen Hs.
  - destruct s; [exact Hs | simpl in Hlen; lia].
  - destruct (first_blank s) as (a & t & -> & Ha & [-> | (b & ->)]).
    + unfold R. rewrite replace_skips_non_blank by exact Ha. exact Hs.
    + unfold R. rewrite replace_skips_non_blank by exact Ha. fold R.
      rewrite (directional_from_cut a prev " " b blank_not_word) in Hs.
      apply orb_false_elim in Hs. destruct Hs as [Hsa Hsb].
      rewrite string_length_app in Hlen. cbn [String.length] in Hlen.
      destruct (replace_at_blank b) as [(u & post & -> & ->) | ->].
      * rewrite (directional_from_cut a prev " " _ blank_not_word), Hsa.
        rewrite (directional_from_cut y false " " _ blank_not_word), y_clean.
        rewrite (directional_from_cut u false " " post blank_not_word) in Hsb.
        apply orb_false_elim in Hsb. destruct Hsb as [_ Hpost].
        cbn [orb]. apply IH; [| exact Hpost].
        rewrite string_length_app in Hlen. cbn [String.length] in Hlen. lia.
      * rewrite (directional_from_cut a prev " " _ blank_not_word), Hsa.
        cbn [orb]. apply IH; [lia | exact Hsb].
Qed.

Lemma replace_keeps_clean (s : string) (prev : bool) :
  directional_from prev s = false ->
  directional_from prev (Js.replace_gi (pad x) (pad y) s) = false.
Proof. apply (replace_keeps_clean_upto (String.length s)). lia. Qed.

End ReplaceKeepsClean.

Lemma abbrToFull_padded : abbrToFull = padded abbreviations.
Proof. reflexivity. Qed.

Lemma fullToAbbr_padded :
  fullToAbbr = padded (map (fun xy => (snd xy, fst xy)) abbreviations).
Proof. reflexivity. Qed.

Lemma fold_replace_keeps_clean (t : list (string * string)) (s : string) :
  Forall (fun xy => directional_from false (snd xy) = false) t ->
  directional_from false s = false ->
  directional_from false
    (fold_left (fun t kv => Js.replace_gi (fst kv) (snd kv) t) (padded t) s) = false.
Proof.
  intro Ht. revert s. induction Ht as [| xy t Hy Ht IH]; intros s Hs; [exact Hs |].
  cbn [padded map fold_left fst snd]. apply IH.
  apply replace_keeps_clean; assumption.
Qed.

Lemma space_not_word (c : ascii) : Js.is_space c = true -> Js.is_word c = false.
Proof.
  destruct c as [[] [] [] [] [] [] [] []]; intro H;
    solve [discriminate H | reflexivity].
Qed.

Lemma trimStart_keeps_clean (s : string) :
  directional_from false s = false -> directional_from false (Js.trimStart s) = false.
Proof.
  induction s as [| c r IH]; intro H; [exact H |].
  cbn [Js.trimStart]. destruct (Js.is_space c) eqn:Hc; [| exact H].
  apply IH.
  pose proof (directional_from_cut "" false c r (space_not_word c Hc)) as Hcut.
  cbn [append] in Hcut. rewrite Hcut, directional_from_nil in H. exact H.
Qed.

Lemma trimEnd_tail (s : string) :
  exists ws, s = Js.trimEnd s ++ ws /\ Js.forallb_str Js.is_space ws = true.
Proof.
  induction s as [| c r (ws & Hr & Hws)].
  - exists "". split; reflexivity.
  - cbn [Js.trimEnd]. destruct (Js.trimEnd r) as [| d r'] eqn:Ht.
    + cbn [append] in Hr. subst r. destruct (Js.is_space c) eqn:Hc.
      * exists (String c ws). split; [reflexivity |].
        cbn [Js.forallb_str]. rewrite Hc, Hws. reflexivity.
      * exists ws. split; [reflexivity | exact Hws].
    + exists ws. split; [| exact Hws]. cbn [append] in *. f_equal. exact Hr.
Qed.

Lemma trimEnd_keeps_clean (s : string) (prev : bool) :
  directional_from prev s = false -> directional_from prev (Js.trimEnd s) = false.
Proof.
  intro H. destruct (trimEnd_tail s) as (ws & Hs & Hws).
  destruct ws as [| c ws].
  - rewrite string_app_nil_r in Hs. rewrite <- Hs. exact H.
  - cbn [Js.forallb_str] in Hws. apply andb_prop in Hws. destruct Hws as [Hc _].
    rewrite Hs, (directional_from_cut _ prev c ws (space_not_word c Hc)) in H.
    apply orb_false_elim in H. apply H.
Qed.

Lemma swapWords_keeps_clean (t : list (string * string)) (base : string) :
  Forall (fun xy => directional_from false (snd xy) = false) t ->
  hasDirectional base = false ->
  hasDirectional (swapWords base (padded t)) = false.
Proof.
  intros Ht Hb. unfold hasDirectional, swapWords, Js.trim in *.
  apply trimEnd_keeps_clean, trimStart_keeps_clean, fold_replace_keeps_clean;
    [exact Ht |].
  pose proof (directional_from_cut "" false " " (base ++ " ") blank_not_word) as H1.
  cbn [append] in H1. cbn [append]. rewrite H1, directional_from_nil. cbn [orb].
  rewrite (directional_from_cut base false " " "" blank_not_word), Hb.
  apply directional_from_nil.
Qed.

Lemma abbreviations_clean :
  Forall (fun xy => directional_from false (snd xy) = false) abbreviations /\
  Forall (fun xy => directional_from false (snd xy) = false)
         (map (fun xy => (snd xy, fst xy)) abbreviations).
Proof. split; repeat constructor. Qed.

Lemma swaps_keep_clean (base : string) :
  hasDirectional base = false ->
  hasDirectional (swapWords base abbrToFull) = false /\
  hasDirectional (swapWords base fullToAbbr) = false.
Proof.
  intro H. rewrite abbrToFull_padded, fullToAbbr_padded. split.
  - apply swapWords_keeps_clean; [apply abbreviations_clean | exact H].
  - apply swapWords_keeps_clean; [apply abbreviations_clean | exact H].
Qed.

(** *** What the pattern test means *)

Lemma directional_from_after (pre : string) (prev : bool) (s : string) :
  directional_from (word_before prev pre) s = true ->
  directional_from prev (pre ++ s) = true.
Proof.
  revert prev. induction pre as [| c pre IH]; intros prev H; [exact H |].
  cbn [append directional_from]. rewrite (IH _ H). apply orb_true_r.
Qed.

Lemma lower_letter_is_word (c l : ascii) :
  In l ["n"; "s"; "e"; "w"]%char -> Js.lower_char c = l -> Js.is_word c = true.
Proof.
  intros Hl Hc. destruct Hl as [<- | [<- | [<- | [<- | []]]]];
    destruct c as [[] [] [] [] [] [] [] []]; solve [reflexivity | discriminate Hc].
Qed.

Lemma boundary_true_outside (post : string) :
  starts_outside Js.is_word post -> boundary true post = true.
Proof.
  unfold boundary. destruct post as [| c post]; simpl; [reflexivity |].
  intros ->. reflexivity.
Qed.

Lemma toLowerCase_one (tok : string) (l : ascii) :
  Js.toLowerCase tok = String l "" ->
  exists c, tok = String c "" /\ Js.lower_char c = l.
Proof.
  destruct tok as [| c [| c2 r]]; try discriminate.
  intros [= H]. exists c. split; [reflexivity | exact H].
Qed.

Lemma toLowerCase_two (tok : string) (l1 l2 : ascii) :
  Js.toLowerCase tok = String l1 (String l2 "") ->
  exists c1 c2, tok = String c1 (String c2 "") /\
                Js.lower_char c1 = l1 /\ Js.lower_char c2 = l2.
Proof.
  destruct tok as [| c1 [| c2 [| c3 r]]]; try discriminate.
  intros [= H1 H2]. exists c1, c2. repeat split; assumption.
Qed.

Lemma directional_here_token (tok post : string) :
  is_directional tok -> starts_outside Js.is_word post ->
  directional_here (tok ++ post) = true /\ word_at_start (tok ++ post) = true.
Proof.
  intros Htok Hpost. pose proof (boundary_true_outside post Hpost) as Hb.
  unfold is_directional in Htok. cbn [In] in Htok.
  unfold directional_here, directional_tokens.
  repeat (destruct Htok as [Htok | Htok]); try contradiction; symmetry in Htok.
  1-4: apply toLowerCase_one in Htok; destruct Htok as (c & -> & Hc);
       (split; [| cbn [append word_at_start];
                  eapply lower_letter_is_word; [| exact Hc]; cbn; tauto]);
       cbn -[Js.lower_char boundary]; rewrite Hc, Hb; cbn; rewrite ?orb_true_r; reflexivity.
  all: apply toLowerCase_two in Htok; destruct Htok as (c1 & c2 & -> & Hc1 & Hc2);
       (split; [| cbn [append word_at_start];
                  eapply lower_letter_is_word; [| exact Hc1]; cbn; tauto]);
       cbn -[Js.lower_char boundary]; rewrite Hc1, Hc2, Hb; cbn;
       rewrite ?andb_false_r, ?orb_true_r; cbn; rewrite ?orb_true_r; reflexivity.
Qed.

Lemma whole_word_found (tok s : string) :
  is_directional tok -> whole_word tok s -> hasDirectional s = true.
Proof.
  intros Htok (pre & post & -> & Hpre & Hpost). unfold hasDirectional.
  apply directional_from_after. rewrite Hpre.
  destruct (directional_here_token tok post Htok Hpost) as [Hh Hw].
  destruct (tok ++ post) as [| c r] eqn:Hs; [discriminate Hw |].
  cbn [directional_from]. unfold boundary. rewrite Hw, Hh. reflexivity.
Qed.

Lemma prefix_ci_take (d s : string) :
  Js.prefix_ci d s = true ->
  exists tok post,
    s = tok ++ post /\ Js.toLowerCase tok = Js.toLowerCase d /\
    drop (String.length d) s = post.
Proof.
  revert s. induction d as [| a d IH]; intros s H.
  - exists "", s. repeat split.
  - destruct s as [| b s]; [discriminate H |]. cbn [Js.prefix_ci] in H.
    apply andb_prop in H. destruct H as [Hab H].
    apply Ascii.eqb_eq in Hab.
    destruct (IH s H) as (tok & post & -> & Hlow & Hdrop).
    exists (String b tok), post. repeat split.
    + cbn [Js.toLowerCase]. rewrite Hlow, Hab. reflexivity.
    + exact Hdrop.
Qed.

Lemma directional_tokens_lower (d : string) :
  In d directional_tokens ->
  In (Js.toLowerCase d) ["n"; "s"; "e"; "w"; "ne"; "nw"; "se"; "sw"].
Proof.
  unfold directional_tokens. cbn [In]. intro H.
  repeat (destruct H as [<- | H]; [cbn; tauto |]). contradiction.
Qed.

Lemma directional_starts_word (tok post : string) :
  is_directional tok -> word_at_start (tok ++ post) = true.
Proof.
  unfold is_directional. cbn [In]. intro H.
  repeat (destruct H as [H | H]); try contradiction; symmetry in H.
  1-4: apply toLowerCase_one in H; destruct H as (c & -> & Hc);
       cbn [append word_at_start];
       eapply lower_letter_is_word; [| exact Hc]; cbn; tauto.
  all: apply toLowerCase_two in H; destruct H as (c1 & c2 & -> & Hc1 & Hc2);
       cbn [append word_at_start];
       eapply lower_letter_is_word; [| exact Hc1]; cbn; tauto.
Qed.

Lemma directional_from_found (s : string) (prev : bool) :
  directional_from prev s = true ->
  exists pre tok post,
    s = pre ++ tok ++ post /\ is_directional tok /\
    word_before prev pre = false /\ starts_outside Js.is_word post.
Proof.
  revert prev. induction s as [| c r IH]; intros prev H.
  - rewrite directional_from_nil in H. discriminate H.
  - destruct (boundary prev (String c r) && directional_here (String c r))%bool eqn:Hhere.
    + clear H IH. apply andb_prop in Hhere. destruct Hhere as [Hb Hh].
      unfold directional_here in Hh. apply existsb_exists in Hh.
      destruct Hh as (d & Hd & Hm). apply andb_prop in Hm. destruct Hm as [Hp Hafter].
      destruct (prefix_ci_take d _ Hp) as (tok & post & Hs & Hlow & Hdrop).
      assert (is_directional tok) as Htok.
      { unfold is_directional. rewrite Hlow. apply directional_tokens_lower, Hd. }
      exists "", tok, post. repeat split.
      * exact Hs.
      * exact Htok.
      * cbn [word_before]. unfold boundary in Hb.
        rewrite Hs, (directional_starts_word tok post Htok) in Hb.
        destruct prev; [discriminate Hb | reflexivity].
      * rewrite Hdrop in Hafter. unfold boundary in Hafter.
        destruct post as [| p post]; [exact I |].
        cbn in Hafter |- *. destruct (Js.is_word p); [discriminate Hafter | reflexivity].
    + cbn [directional_from] in H. rewrite Hhere in H. cbn [orb] in H.
      destruct (IH _ H) as (pre & tok & post & -> & Htok & Hpre & Hpost).
      exists (String c pre), tok, post. repeat split; assumption.
Qed.

(** The pattern test holds exactly when one of the eight tokens, in any
    letter case, stands in the text as a whole word. *)
Lemma hasDirectional_iff (s : string) :
  hasDirectional s = true <-> exists tok, is_directional tok /\ whole_word tok s.
Proof.
  split.
  - intro H. destruct (directional_from_found s false H)
      as (pre & tok & post & Hs & Htok & Hpre & Hpost).
    exists tok. split; [exact Htok |]. exists pre, post. auto.
  - intros (tok & Htok & Hw). exact (whole_word_found tok s Htok Hw).
Qed.

(** *** The variants returned *)

Lemma swap_set_In (base v : string) :
  In v (swap_set base) <->
  v = base \/ v = swapWords base abbrToFull \/ v = swapWords base fullToAbbr.
Proof.
  unfold swap_set. rewrite !set_add_In. simpl. intuition.
Qed.

Lemma swap_set_clean (base v : string) :
  hasDirectional base = false -> In v (swap_set base) -> hasDirectional v = false.
Proof.
  intros Hb Hv. destruct (swaps_keep_clean base Hb) as [H1 H2].
  apply swap_set_In in Hv. destruct Hv as [-> | [-> | ->]]; assumption.
Qed.

Lemma set_add_fresh (s : list string) (x : string) :
  ~ In x s -> set_add s x = (s ++ [x])%list.
Proof.
  intro H. unfold set_add. destruct (existsb (String.eqb x) s) eqn:Hx; [| reflexivity].
  apply existsb_eqb_In in Hx. contradiction.
Qed.

Lemma fold_set_add_fresh (f : string -> string) (ds : list string) (s : list string) :
  NoDup (map f ds) ->
  (forall d, In d ds -> ~ In (f d) s) ->
  fold_left (fun vs d => set_add vs (f d)) ds s = (s ++ map f ds)%list.
Proof.
  revert s. induction ds as [| d ds IH]; intros s Hnd Hfresh; simpl.
  - symmetry. apply app_nil_r.
  - simpl in Hnd. inversion Hnd as [| ? ? Hd Hnd']; subst.
    rewrite set_add_fresh by (apply Hfresh; left; reflexivity).
    rewrite IH; [rewrite <- app_assoc; reflexivity | exact Hnd' |].
    intros d' Hd' Hin. apply in_app_or in Hin. destruct Hin as [Hin | [Heq | []]].
    + exact (Hfresh d' (or_intror Hd') Hin).
    + apply Hd. rewrite Heq. apply in_map, Hd'.
Qed.

(** C9. Let [base] be the trimmed address. When [base] holds no
    directional token and consists of a house number (digits), blanks
    and a one-line street part, the returned list is the base with its
    abbreviation swaps, followed by exactly four more strings: the house
    number, one of E, W, N, S and the street part, separated by single
    spaces, in this order; none of the four is the base or a swap, and
    the four differ from one another. When [base] holds a directional
    token, the returned list is the base with its swaps and nothing
    else. Holding a directional token means that N, S, E, W, NE, NW, SE
    or SW, in any letter case, stands in the text as a whole word.
    [413 5th St] yields the original, its expansion and the four
    directional variants. *)
Theorem C9_directional_variants (address : value) (num ws rest : string) :
  (hasDirectional (Js.trim (V.to_string (V.or address (VStr "")))) = false ->
   Js.trim (V.to_string (V.or address (VStr ""))) = num ++ ws ++ rest ->
   num <> "" -> Js.forallb_str Js.is_digit num = true ->
   ws <> "" -> Js.forallb_str Js.is_space ws = true ->
   starts_outside Js.is_space rest ->
   existsb_str Js.is_line_terminator rest = false ->
   generateAddressVariants address =
     (filter non_empty (swap_set (num ++ ws ++ rest)) ++
      map (directional_variant num rest) ["E"; "W"; "N"; "S"])%list /\
   (forall d, In d ["E"; "W"; "N"; "S"] ->
      ~ In (directional_variant num rest d) (swap_set (num ++ ws ++ rest))) /\
   NoDup (map (directional_variant num rest) ["E"; "W"; "N"; "S"])) /\
  (hasDirectional (Js.trim (V.to_string (V.or address (VStr "")))) = true ->
   generateAddressVariants address =
     filter non_empty (swap_set (Js.trim (V.to_string (V.or address (VStr "")))))) /\
  (forall base v,
      In v (swap_set base) <->
      v = base \/ v = swapWords base abbrToFull \/ v = swapWords base fullToAbbr) /\
  (forall s,
      hasDirectional s = true <-> exists tok, is_directional tok /\ whole_word tok s) /\
  generateAddressVariants (VStr "413 5th St") =
    ["413 5th St"; "413 5th Street";
     "413 E 5th St"; "413 W 5th St"; "413 N 5th St"; "413 S 5th St"] /\
  generateAddressVariants (VStr "413 E 5th St") =
    ["413 E 5th St"; "413 E 5th Street"].
Proof.
  rewrite generateAddressVariants_unfold. cbv zeta.
  set (base := Js.trim (V.to_string (V.or address (VStr "")))).
  split; [| split; [| split; [exact swap_set_In |
                              split; [exact hasDirectional_iff | split; reflexivity]]]].
  - intros Hdir Hbase Hn Hd Hw Hs Hr Hl.
    pose proof (match_house_decomposed num ws rest Hn Hd Hw Hs Hr Hl) as Hm.
    rewrite <- Hbase in *.
    assert (String.eqb base "" = false) as Hne.
    { rewrite Hbase. destruct num; [congruence | reflexivity]. }
    assert (forall d, In d ["E"; "W"; "N"; "S"] ->
                      ~ In (directional_variant num rest d) (swap_set base)) as Hfresh.
    { intros d Hdin Hin.
      pose proof (swap_set_clean base _ Hdir Hin) as Hclean.
      rewrite (directional_variant_has_token num rest d Hdin) in Hclean.
      discriminate Hclean. }
    split; [| split; [exact Hfresh | apply directional_variants_distinct]].
    rewrite Hne. unfold variant_set. rewrite Hdir, Hm. simpl negb. cbv iota.
    rewrite (fold_set_add_fresh (directional_variant num rest))
      by (apply directional_variants_distinct || exact Hfresh).
    rewrite filter_app. f_equal.
    simpl. unfold directional_variant. rewrite !non_empty_app by exact Hn.
    reflexivity.
  - intros Hdir. destruct (String.eqb_spec base "") as [He | _].
    + rewrite He in Hdir. discriminate Hdir.
    + unfold variant_set. rewrite Hdir. reflexivity.
Qed.

Lemma C9_directional_variants_witness :
  generateAddressVariants (VStr "413 5th St") =
    (filter non_empty (swap_set ("413" ++ " " ++ "5th St")) ++
     map (directional_variant "413" "5th St") ["E"; "W"; "N"; "S"])%list /\
  generateAddressVariants (VStr "12 NE Oak Ave") =
    filter non_empty (swap_set "12 NE Oak Ave").
Proof.
  split.
  - apply (proj1 (C9_directional_variants (VStr "413 5th St") "413" " " "5th St"));
      solve [reflexivity | discriminate].
  - apply (proj1 (proj2 (C9_directional_variants (VStr "12 NE Oak Ave") "" "" ""))).
    reflexivity.
Defined.

(** ** Order of the API attempts *)

Section AttemptOrder.

Variable W : world.
Variable host : string.
Variable w : want.
Variables city state zip : value.

Local Abbreviation attempt_ := (attempt W host w city state zip).
Local Abbreviation try_shapes_ := (try_shapes W host w city state zip).
Local Abbreviation try_variants_ := (try_variants W host w city state zip).
Local Abbreviation pair_event := (pair_event host city state zip).
Local Abbreviation verdict := (verdict W host w city state zip).
Local Abbreviation try_pairs := (try_pairs W host w city state zip).
Local Abbreviation history := (history host city state zip).
Local Abbreviation rejected_before := (rejected_before W host w city state zip).
Local Abbreviation stops_at_first_accept :=
  (stops_at_first_accept W host w city state zip).

Lemma try_pairs_app (p q : list (string * shape)) (tr : trace) :
  try_pairs (p ++ q) tr =
  match try_pairs p tr with
  | (Some h, tr') => (Some h, tr')
  | (None, tr') => try_pairs q tr'
  end.
Proof.
  revert tr. induction p as [| x p IH]; intro tr; cbn [try_pairs app];
    [destruct (try_pairs q tr) as [[h |] tr']; reflexivity |].
  destruct (attempt_ (fst x) (snd x) tr) as [[h |] tr']; [reflexivity | apply IH].
Qed.

Lemma try_shapes_flat (shapes : list shape) (a : string) (tr : trace) :
  try_shapes_ shapes a tr = try_pairs (map (pair a) shapes) tr.
Proof.
  revert tr. induction shapes as [| c shapes IH]; intro tr;
    cbn [try_shapes try_pairs map fst snd]; [reflexivity |].
  destruct (attempt_ a c tr) as [[h |] tr']; [reflexivity | apply IH].
Qed.

(** The nested loops visit the pairs variant by variant. *)
Lemma try_variants_flat (shapes : list shape) (addrs : list string) (tr : trace) :
  try_variants_ shapes addrs tr = try_pairs (list_prod addrs shapes) tr.
Proof.
  revert tr. induction addrs as [| a addrs IH]; intro tr;
    cbn [try_variants list_prod]; [reflexivity |].
  rewrite try_pairs_app, try_shapes_flat.
  destruct (try_pairs (map (pair a) shapes) tr) as [[h |] tr'];
    [reflexivity | apply IH].
Qed.

Lemma history_cons (tr : trace) (x : string * shape)
    (pairs : list (string * shape)) (i : nat) :
  history (emit tr (pair_event x)) pairs i = history tr (x :: pairs) (S i).
Proof.
  unfold history, emit. simpl. rewrite <- app_assoc. reflexivity.
Qed.

Lemma history_zero (tr : trace) (pairs : list (string * shape)) :
  history tr pairs 0 = tr.
Proof. unfold history. simpl. apply app_nil_r. Qed.

Lemma rejected_before_cons (tr : trace) (x : string * shape)
    (pairs : list (string * shape)) (n : nat) :
  verdict tr x = None ->
  rejected_before (emit tr (pair_event x)) pairs n ->
  rejected_before tr (x :: pairs) (S n).
Proof.
  intros Hx Hrest i y Hi Hnth. destruct i as [| i]; simpl in Hnth.
  - injection Hnth as <-. rewrite history_zero. exact Hx.
  - rewrite <- history_cons. apply Hrest; [lia | exact Hnth].
Qed.

Lemma try_pairs_stops (pairs : list (string * shape)) (tr : trace) :
  stops_at_first_accept tr pairs (try_pairs pairs tr).
Proof.
  revert tr. induction pairs as [| x pairs IH]; intro tr.
  - exists 0%nat. simpl. rewrite history_zero.
    repeat split. intros i y Hi. lia.
  - cbn [try_pairs]. destruct (attempt_ (fst x) (snd x) tr) as [o tr1] eqn:Ha.
    assert (tr1 = emit tr (pair_event x)) as ->.
    { unfold attempt in Ha. injection Ha as _ <-. reflexivity. }
    assert (verdict tr x = o) as Hv by (unfold verdict; rewrite Ha; reflexivity).
    destruct o as [h |].
    + exists 1%nat. split; [reflexivity |]. simpl.
      exists 0%nat, x. rewrite history_zero.
      repeat split; [exact Hv |]. intros i y Hi. lia.
    + destruct (IH (emit tr (pair_event x))) as (n & Hsnd & Hfst).
      exists (S n). split; [rewrite Hsnd; apply history_cons |].
      destruct (fst (try_pairs pairs (emit tr (pair_event x)))) as [h |].
      * destruct Hfst as (m & y & -> & Hnth & Hy & Hrej).
        exists (S m), y. rewrite <- history_cons.
        repeat split; [exact Hnth | exact Hy |].
        apply rejected_before_cons; assumption.
      * destruct Hfst as [-> Hrej]. split; [reflexivity |].
        apply rejected_before_cons; assumption.
Qed.

End AttemptOrder.

(** C3. The attempts of [rapidApiLookupStrict] follow the variant-major
    enumeration: all shapes for the first address variant, then all
    shapes for the next one, each shape list in its fixed order. The
    run issues an initial segment of that enumeration, one fetch per
    pair, and stops at the first pair whose answer is acceptable; when
    none is, it issues all of them. With variants V1, V2 and shapes S1,
    S2 and no acceptable answer, the fetches are (V1,S1), (V1,S2),
    (V2,S1), (V2,S2) in this order. The lookup itself runs this loop
    over the variants of [generateAddressVariants] and the five shapes
    of [candidates]. *)
Theorem C3_variant_major_enumeration
    (W : world) (host : string) (w : want) (city state zip : value) :
  (forall shapes addrs tr,
      stops_at_first_accept W host w city state zip tr (list_prod addrs shapes)
        (try_variants W host w city state zip shapes addrs tr)) /\
  (forall V1 V2 S1 S2 tr,
      list_prod [V1; V2] [S1; S2] = [(V1, S1); (V1, S2); (V2, S1); (V2, S2)] /\
      (fst (try_variants W host w city state zip [S1; S2] [V1; V2] tr) = None ->
       snd (try_variants W host w city state zip [S1; S2] [V1; V2] tr) =
       (tr ++ [ attempt_event host city state zip V1 S1;
                attempt_event host city state zip V1 S2;
                attempt_event host city state zip V2 S1;
                attempt_event host city state zip V2 S2 ])%list)) /\
  (forall E address tr,
      env_set (RAPIDAPI_HOST E) = true -> env_set (RAPIDAPI_KEY E) = true ->
      make_want city state zip = Some w ->
      host = V.to_string (env_value (RAPIDAPI_HOST E)) ->
      snd (rapidApiLookupStrict E W address city state zip tr) =
      snd (try_variants W host w city state zip candidates
             (generateAddressVariants address) tr) /\
      (forall h, fst (rapidApiLookupStrict E W address city state zip tr) = Ok (ApiOk h) <->
                 fst (try_variants W host w city state zip candidates
                        (generateAddressVariants address) tr) = Some h)).
Proof.
  split; [| split].
  - intros shapes addrs tr. rewrite try_variants_flat. apply try_pairs_stops.
  - intros V1 V2 S1 S2 tr. split; [reflexivity |]. intro Hnone.
    pose proof (try_pairs_stops W host w city state zip
                  (list_prod [V1; V2] [S1; S2]) tr) as (n & Hsnd & Hfst).
    rewrite <- try_variants_flat in Hsnd, Hfst.
    rewrite Hnone in Hfst. destruct Hfst as [-> _].
    rewrite Hsnd. reflexivity.
  - intros E address tr Hh Hk Hw ->. unfold rapidApiLookupStrict.
    rewrite Hh, Hk, Hw. simpl negb. simpl orb. cbv iota.
    destruct (try_variants W _ w city state zip candidates
                (generateAddressVariants address) tr) as [[h' |] tr'].
    + split; [reflexivity |]. intro h. simpl. split; intro H; congruence.
    + split; [reflexivity |]. intro h. simpl. split; intro H; discriminate.
Qed.

Lemma C3_variant_major_enumeration_witness :
  snd (try_variants silent_world "h"
         {| want_city := "austin"; want_state := "tx"; want_zip := "" |}
         (VStr "Austin") (VStr "TX") VUndef
         [shape_one; shape_two] ["1 Elm St"; "1 Elm Street"] []) =
  ([] ++ [ attempt_event "h" (VStr "Austin") (VStr "TX") VUndef "1 Elm St" shape_one;
           attempt_event "h" (VStr "Austin") (VStr "TX") VUndef "1 Elm St" shape_two;
           attempt_event "h" (VStr "Austin") (VStr "TX") VUndef "1 Elm Street" shape_one;
           attempt_event "h" (VStr "Austin") (VStr "TX") VUndef "1 Elm Street" shape_two ])%list.
Proof.
  apply (proj2 (proj1 (proj2 (C3_variant_major_enumeration silent_world "h"
           {| want_city := "austin"; want_state := "tx"; want_zip := "" |}
           (VStr "Austin") (VStr "TX") VUndef))
           "1 Elm St" "1 Elm Street" shape_one shape_two [])).
  reflexivity.
Defined.

(** ** The strict verdict *)


Lemma got_city_string (data : value) (c : string) :
  address_field data "city" = VStr c ->
  got_city data = Some (Js.trim (Js.toLowerCase c)).
Proof. intro H. unfold got_city. rewrite H. reflexivity. Qed.

Lemma got_state_string (data : value) (s : string) :
  address_field data "state" = VStr s ->
  got_state data = Some (Js.trim (Js.toLowerCase s)).
Proof. intro H. unfold got_state. rewrite H. reflexivity. Qed.

Lemma toLowerCase_not_string (v : value) :
  (forall c, v <> VStr c) -> V.toLowerCase v = None.
Proof. intro H. destruct v; try reflexivity. exfalso. exact (H s eq_refl). Qed.

Lemma non_empty_false (s : string) : non_empty s = false <-> s = "".
Proof.
  unfold non_empty. destruct (String.eqb_spec s ""); simpl; split; congruence.
Qed.

Lemma acceptable_iff (w : want) (data : value) :
  acceptable w data = true <->
  got_city data = Some (want_city w) /\
  got_state data = Some (want_state w) /\
  (want_zip w = "" \/ got_zip data = want_zip w) /\
  V.truthy (V.or (essential data "zestimate") (essential data "zpid")) = true.
Proof.
  unfold acceptable.
  destruct (got_city data) as [gc |]; [| split; [discriminate | intros [H _]; discriminate]].
  destruct (got_state data) as [gs |];
    [| split; [discriminate | intros (_ & H & _); discriminate]].
  rewrite !andb_true_iff, orb_true_iff, negb_true_iff, non_empty_false,
    !String.eqb_eq.
  split.
  - intros [[[-> ->] Hz] Ht]. auto.
  - intros ([= ->] & [= ->] & Hz & Ht). auto.
Qed.



(** ** Confidence *)

Lemma detail_zestimate_null_or_truthy (cs : list value) (acc : detail) :
  d_zestimate acc = VNull \/ V.truthy (d_zestimate acc) = true ->
  d_zestimate (fold_left detail_step cs acc) = VNull \/
  V.truthy (d_zestimate (fold_left detail_step cs acc)) = true.
Proof.
  revert acc. induction cs as [| c cs IH]; intros acc H; simpl; [exact H |].
  apply IH. unfold detail_step.
  destruct (extractZpidAndZestimate c) as [zp ze]. simpl.
  destruct (V.truthy ze) eqn:Hze; simpl; [| exact H].
  destruct (V.truthy (d_zestimate acc)) eqn:Hacc; simpl; auto.
Qed.

Lemma read_detail_zestimate (o : page_outcome) :
  d_zestimate (read_detail o) = VNull \/
  V.truthy (d_zestimate (read_detail o)) = true.
Proof.
  unfold read_detail. destruct o as [msg | | [detailRoot |]]; try (left; reflexivity).
  apply detail_zestimate_null_or_truthy. left. reflexivity.
Qed.

Lemma or_zero (score : Z) : (if score =? 0 then 0 else score) = score.
Proof. destruct (Z.eqb_spec score 0); congruence. Qed.

Lemma scrape_response_fields (searchUrl detailUrl : string) (score : Z) (d : detail) :
  status (scrape_response searchUrl detailUrl score d) = 200 /\
  V.get (body (scrape_response searchUrl detailUrl score d)) "ok" = VBool true /\
  V.get (body (scrape_response searchUrl detailUrl score d)) "zestimate" = d_zestimate d /\
  V.get (body (scrape_response searchUrl detailUrl score d)) "match_confidence" =
    VNum (scrape_confidence (d_zestimate d) score).
Proof. repeat split. Qed.

Lemma sendExpanded_fields (out : api_hit) :
  status (sendExpanded out) = 200 /\
  V.get (body (sendExpanded out)) "ok" = VBool true /\
  V.get (body (sendExpanded out)) "match_confidence" =
    VNum (if V.truthy (V.get (body (sendExpanded out)) "zestimate") then 85 else 60).
Proof. repeat split. Qed.

Lemma essential_cases (data : value) (k : string) :
  V.nullish (essential data k) = false \/
  (essential data k = VNull /\
   V.nullish (V.opt data k) = true /\
   V.nullish (V.opt_chain data ["result"; k]) = true /\
   V.nullish (V.opt_chain data ["data"; k]) = true).
Proof.
  unfold essential, V.coalesce.
  destruct (V.nullish (V.opt data k)) eqn:HA.
  - destruct (V.nullish (V.opt_chain data ["result"; k])) eqn:HB.
    + destruct (V.nullish (V.opt_chain data ["data"; k])) eqn:HC.
      * right. auto.
      * left. cbn iota. exact HC.
    + left. repeat (cbn iota; rewrite ?HB). reflexivity.
  - left. repeat (cbn iota; rewrite ?HA). reflexivity.
Qed.

Lemma truthy_not_nullish (v : value) : V.truthy v = true -> V.nullish v = false.
Proof. destruct v; simpl; congruence. Qed.

(** Walking one or two segments from a payload reads what the optional
    chain reads, or nothing. *)
Lemma walk_two_nullish (data : value) (k1 k2 : string) :
  Js.split "." (k1 ++ "." ++ k2) = [k1; k2] ->
  V.nullish (V.opt_chain data [k1; k2]) = true ->
  V.nullish (walk (V.or data (VObj [])) (k1 ++ "." ++ k2)) = true.
Proof.
  intros Hsplit H. unfold walk. rewrite Hsplit. cbn [fold_left].
  unfold V.or. destruct (V.truthy data) eqn:Ht.
  - unfold walk_step at 2. rewrite Ht.
    unfold V.opt_chain in H. cbn [fold_left] in H.
    unfold V.opt at 2 in H. rewrite (truthy_not_nullish data Ht) in H.
    unfold walk_step. destruct (V.truthy (V.get data k1)) eqn:Hr; [| reflexivity].
    unfold V.opt in H. rewrite (truthy_not_nullish _ Hr) in H. exact H.
  - reflexivity.
Qed.

Lemma walk_one_nullish (data : value) (k : string) :
  Js.split "." k = [k] ->
  V.nullish (V.opt data k) = true ->
  V.nullish (walk (V.or data (VObj [])) k) = true.
Proof.
  intros Hsplit H. unfold walk. rewrite Hsplit. cbn [fold_left].
  unfold V.or. destruct (V.truthy data) eqn:Ht.
  - unfold walk_step. rewrite Ht.
    unfold V.opt in H. rewrite (truthy_not_nullish data Ht) in H. exact H.
  - reflexivity.
Qed.

Lemma pick_one_nullish (d : value) (p : string) :
  V.nullish (walk d p) = true -> pick d [p] = VNull.
Proof. intro H. cbn [pick]. unfold present. rewrite H. reflexivity. Qed.

Lemma sent_zestimate_of_hit (cand : shape) (a : string) (data : value) :
  V.get (body (sendExpanded (make_hit cand a data))) "zestimate"
  = essential data "zestimate".
Proof.
  change (V.get (body (sendExpanded (make_hit cand a data))) "zestimate")
    with (V.coalesce (essential data "zestimate")
            (V.coalesce
               (V.coalesce (pick (V.or data (VObj [])) ["zestimate"])
                           (pick (V.or data (VObj [])) ["result.zestimate"]))
               (pick (V.or data (VObj [])) ["data.zestimate"]))).
  destruct (essential_cases data "zestimate") as [Hp | (Hnull & H1 & H2 & H3)];
    [unfold V.coalesce at 1; rewrite Hp; reflexivity |].
  rewrite Hnull. unfold V.coalesce at 1. cbn [V.nullish].
  rewrite (pick_one_nullish _ "zestimate"
             (walk_one_nullish data "zestimate" eq_refl H1)).
  rewrite (pick_one_nullish _ "result.zestimate"
             (walk_two_nullish data "result" "zestimate" eq_refl H2)).
  rewrite (pick_one_nullish _ "data.zestimate"
             (walk_two_nullish data "data" "zestimate" eq_refl H3)).
  reflexivity.
Qed.

Section RouteAnswers.

Variable E : environment.
Variable W : world.
Variables address city state zip : value.

Local Abbreviation searchUrl_ := (buildSearchUrl address city state zip).

Lemma open_detail_resolved best score tr r tr' :
  0 <= score <= 3 ->
  open_detail W address city state zip best score tr = (Ok r, tr') ->
  resolved searchUrl_ r.
Proof.
  intros Hs. unfold open_detail.
  destruct (V.get best "detailUrl") as [| | b | n | u | items | fields];
    try discriminate.
  match goal with
  | |- context [page W tr ?u] => destruct (page W tr u) as [msg | | parsed]
  end; try discriminate; intros [= <- _].
  - exact (resolved_scrape _ _ _ PageNoBlob Hs).
  - exact (resolved_scrape _ _ _ (PageBlob parsed) Hs).
Qed.

Lemma pick_score_range (results : list value) :
  results <> [] ->
  0 <= snd (pickBestSearchResult results address city) <= 3.
Proof.
  intro Hne. unfold pickBestSearchResult.
  destruct (pick_loop_first_best (norm address) (norm city) results Hne)
    as (i & _ & Hs & _).
  rewrite Hs. apply score_of_range.
Qed.

Lemma after_blob_resolved parsed tr r tr' :
  after_blob W address city state zip parsed tr = (Ok r, tr') ->
  resolved searchUrl_ r.
Proof.
  unfold after_blob.
  destruct (find_listResults parsed) as [| | b | n | u | [| x xs] | fields];
    try (intros [= <- _]; apply resolved_no_match; discriminate).
  pose proof (pick_score_range (x :: xs) ltac:(discriminate)) as Hs.
  destruct (pickBestSearchResult (x :: xs) address city) as [best score].
  simpl in Hs.
  destruct (negb (V.truthy best) || negb (V.truthy (V.get best "detailUrl")))%bool.
  - intros [= <- _]. apply resolved_no_match. discriminate.
  - apply open_detail_resolved. exact Hs.
Qed.

Lemma without_blob_resolved tr r tr' :
  without_blob E W address city state zip tr = (Ok r, tr') ->
  resolved searchUrl_ r.
Proof.
  unfold without_blob. destruct (keys_set E).
  - destruct (rapidApiLookupStrict E W address city state zip tr)
      as [[[out | reason] | msg] tr1]; try discriminate; intros [= <- _].
    + apply resolved_api.
    + apply resolved_no_match. discriminate.
  - intros [= <- _]. apply resolved_no_match. discriminate.
Qed.

Lemma scrape_resolved tr r tr' :
  scrape E W address city state zip tr = (Ok r, tr') ->
  resolved searchUrl_ r.
Proof.
  unfold scrape. destruct (page W tr searchUrl_) as [msg | | parsed].
  - discriminate.
  - apply without_blob_resolved.
  - apply after_blob_resolved.
Qed.

Lemma browse_resolved tr :
  resolved searchUrl_ (fst (browse E W address city state zip tr)).
Proof.
  unfold browse. destruct (launch W tr) as [msg |]; [apply resolved_error |].
  destruct (scrape E W address city state zip (emit tr ELaunch))
    as [[r | msg] tr1] eqn:Hs; simpl.
  - eapply scrape_resolved. exact Hs.
  - apply resolved_error.
Qed.

Lemma resolve_resolved tr r tr' :
  resolve E W address city state zip tr = (Sent r, tr') ->
  resolved searchUrl_ r.
Proof.
  unfold resolve.
  destruct ((match PREFER_API_FIRST E with
             | Some s => String.eqb s "1"
             | None => false
             end) && keys_set E)%bool.
  - destruct (rapidApiLookupStrict E W address city state zip tr)
      as [[[out | reason] | msg] tr1]; try discriminate.
    + intros [= <- _]. apply resolved_api.
    + pose proof (browse_resolved tr1) as Hb.
      destruct (browse E W address city state zip tr1) as [r1 tr2].
      intros [= <- _]. exact Hb.
  - pose proof (browse_resolved tr) as Hb.
    destruct (browse E W address city state zip tr) as [r1 tr2].
    intros [= <- _]. exact Hb.
Qed.

End RouteAnswers.

Lemma resolved_status (searchUrl : string) (r : response) :
  resolved searchUrl r -> status r = 200.
Proof. intros []; reflexivity. Qed.

(** ** The required-fields check *)

(** A request whose address is one blank: empty once trimmed, yet the
    route does not answer 400; it starts the browser and visits the
    search page. *)
Lemma C8_counterexample :
  Js.trim " " = "" /\
  exists r tr,
    zestimate_route no_env silent_world (query " " "Austin" "TX" "") = (Sent r, tr) /\
    status r = 200 /\
    V.get (body r) "ok" = VBool true /\
    In ELaunch tr.
Proof.
  split; [reflexivity |].
  eexists. eexists. split; [vm_compute; reflexivity |].
  repeat split. left. reflexivity.
Qed.

Lemma route_rejects (E : environment) (W : world) (req : request) :
  checkApiKey E req = true ->
  V.truthy (V.get (V.or (req_body req) (VObj [])) "address") = false \/
  V.truthy (V.get (V.or (req_body req) (VObj [])) "city") = false \/
  V.truthy (V.get (V.or (req_body req) (VObj [])) "state") = false ->
  zestimate_route E W req = (Sent required_error, []).
Proof.
  intros Hk H. unfold zestimate_route. rewrite Hk. simpl negb. cbv iota.
  destruct H as [-> | [-> | ->]]; simpl.
  - reflexivity.
  - rewrite orb_true_r. reflexivity.
  - rewrite orb_true_r. reflexivity.
Qed.

(** C8 (amended). For a request that passes the API-key check, the
    route answers 400 with [ok: false], before any variant is generated
    and before any source is contacted (the trace is empty), as soon as
    address, city or state is missing or falsy; white space is not
    trimmed. When all three are truthy, a whitespace-only string
    included, the route hands over to the resolution, which never
    answers 400. *)
Theorem C8_required_fields (E : environment) (W : world) (req : request) :
  checkApiKey E req = true ->
  (V.truthy (V.get (V.or (req_body req) (VObj [])) "address") = false \/
   V.truthy (V.get (V.or (req_body req) (VObj [])) "city") = false \/
   V.truthy (V.get (V.or (req_body req) (VObj [])) "state") = false ->
   zestimate_route E W req = (Sent required_error, []) /\
   status required_error = 400 /\
   V.get (body required_error) "ok" = VBool false) /\
  (V.truthy (V.get (V.or (req_body req) (VObj [])) "address") = true ->
   V.truthy (V.get (V.or (req_body req) (VObj [])) "city") = true ->
   V.truthy (V.get (V.or (req_body req) (VObj [])) "state") = true ->
   zestimate_route E W req =
   resolve E W
     (V.get (V.or (req_body req) (VObj [])) "address")
     (V.get (V.or (req_body req) (VObj [])) "city")
     (V.get (V.or (req_body req) (VObj [])) "state")
     (V.get (V.or (req_body req) (VObj [])) "zip") [] /\
   forall r tr, zestimate_route E W req = (Sent r, tr) -> status r = 200).
Proof.
  intro Hk. split.
  - intro H. split; [apply route_rejects; assumption | split; reflexivity].
  - intros Ha Hc Hs.
    rewrite (route_past_check E W req Hk Ha Hc Hs).
    split; [reflexivity |].
    intros r tr Hr. eapply resolved_status, resolve_resolved, Hr.
Qed.

Lemma C8_required_fields_witness :
  zestimate_route no_env silent_world (query "" "Austin" "TX" "")
  = (Sent required_error, []) /\
  forall r tr,
    zestimate_route no_env silent_world (query " " "Austin" "TX" "") = (Sent r, tr) ->
    status r = 200.
Proof.
  split.
  - apply (proj1 (C8_required_fields no_env silent_world
                    (query "" "Austin" "TX" "") eq_refl)).
    left. reflexivity.
  - apply (proj2 (C8_required_fields no_env silent_world
                    (query " " "Austin" "TX" "") eq_refl)); reflexivity.
Defined.

(** ** No match *)

Section NoMatch.

Variable E : environment.
Variable W : world.
Variables address city state zip : value.
Variable w : want.

Hypothesis want_built : make_want city state zip = Some w.
Hypothesis api_rejects : forall tr url, unacceptable w (fetch W tr url).
Hypothesis browser_starts : forall tr, launch W tr = None.
Hypothesis page_selects_nothing :
  forall tr, no_selection address city
               (page W tr (buildSearchUrl address city state zip)).

Lemma judge_unacceptable cand a tr url : judge w cand a (fetch W tr url) = None.
Proof.
  pose proof (api_rejects tr url) as H. unfold judge, unacceptable in *.
  destruct (fetch W tr url) as [| [] [data |]]; try reflexivity.
  rewrite H. reflexivity.
Qed.

Lemma try_shapes_miss host shapes a tr :
  fst (try_shapes W host w city state zip shapes a tr) = None.
Proof.
  revert tr. induction shapes as [| c shapes IH]; intro tr;
    cbn [try_shapes]; [reflexivity |].
  unfold attempt. rewrite judge_unacceptable. apply IH.
Qed.

Lemma try_variants_miss host shapes addrs tr :
  fst (try_variants W host w city state zip shapes addrs tr) = None.
Proof.
  revert tr. induction addrs as [| a addrs IH]; intro tr;
    cbn [try_variants]; [reflexivity |].
  pose proof (try_shapes_miss host shapes a tr) as H.
  destruct (try_shapes W host w city state zip shapes a tr) as [o tr1].
  simpl in H. subst o. apply IH.
Qed.

Lemma lookup_miss tr :
  exists reason tr',
    rapidApiLookupStrict E W address city state zip tr = (Ok (ApiFail reason), tr').
Proof.
  unfold rapidApiLookupStrict.
  destruct (negb (env_set (RAPIDAPI_HOST E)) || negb (env_set (RAPIDAPI_KEY E)))%bool;
    [eexists; eexists; reflexivity |].
  rewrite want_built.
  match goal with
  | |- context [try_variants W ?h w city state zip ?sh ?ad tr] =>
      pose proof (try_variants_miss h sh ad tr) as H;
      destruct (try_variants W h w city state zip sh ad tr) as [o tr1]
  end.
  simpl in H. subst o. eexists; eexists; reflexivity.
Qed.

Lemma scrape_no_match tr :
  exists source note tr',
    scrape E W address city state zip tr = (Ok (no_match source note), tr') /\
    note <> "".
Proof.
  unfold scrape. pose proof (page_selects_nothing tr) as Hp.
  destruct (page W tr (buildSearchUrl address city state zip)) as [msg | | parsed];
    simpl in Hp; [destruct Hp | |].
  - unfold without_blob. destruct (keys_set E).
    + destruct (lookup_miss (emit tr (EGoto (buildSearchUrl address city state zip))))
        as (reason & tr1 & ->).
      do 3 eexists. split; [reflexivity | discriminate].
    + do 3 eexists. split; [reflexivity | discriminate].
  - unfold after_blob.
    destruct (find_listResults parsed) as [| | b | n | u | [| x xs] | fields];
      try (do 3 eexists; split; [reflexivity | discriminate]).
    destruct (pickBestSearchResult (x :: xs) address city) as [best score].
    simpl in Hp.
    replace (negb (V.truthy best) || negb (V.truthy (V.get best "detailUrl")))%bool
      with true
      by (destruct (V.truthy best), (V.truthy (V.get best "detailUrl"));
          simpl in *; congruence).
    do 3 eexists. split; [reflexivity | discriminate].
Qed.

Lemma browse_no_match tr :
  exists source note tr',
    browse E W address city state zip tr = (no_match source note, tr') /\
    note <> "".
Proof.
  unfold browse. rewrite browser_starts.
  destruct (scrape_no_match (emit tr ELaunch)) as (source & note & tr1 & -> & Hn).
  do 3 eexists. split; [reflexivity | exact Hn].
Qed.

Lemma resolve_no_match tr :
  exists source note tr',
    resolve E W address city state zip tr = (Sent (no_match source note), tr') /\
    note <> "".
Proof.
  unfold resolve.
  destruct ((match PREFER_API_FIRST E with
             | Some s => String.eqb s "1"
             | None => false
             end) && keys_set E)%bool.
  - destruct (lookup_miss tr) as (reason & tr1 & ->).
    destruct (browse_no_match tr1) as (source & note & tr2 & -> & Hn).
    do 3 eexists. split; [reflexivity | exact Hn].
  - destruct (browse_no_match tr) as (source & note & tr2 & -> & Hn).
    do 3 eexists. split; [reflexivity | exact Hn].
Qed.

End NoMatch.

Lemma make_want_strings (c s : string) (z : value) :
  exists w, make_want (VStr c) (VStr s) z = Some w.
Proof.
  unfold make_want, V.or.
  destruct (V.truthy (VStr c)), (V.truthy (VStr s)); simpl; eexists; reflexivity.
Qed.

Lemma no_match_fields (source note : string) :
  status (no_match source note) = 200 /\
  V.get (body (no_match source note)) "ok" = VBool true /\
  V.get (body (no_match source note)) "zestimate" = VNull /\
  V.get (body (no_match source note)) "zpid" = VNull /\
  V.get (body (no_match source note)) "property_url" = VNull /\
  V.get (body (no_match source note)) "match_confidence" = VNum 0 /\
  V.get (body (no_match source note)) "note" = VStr note.
Proof. repeat split. Qed.

Lemma browse_launch_fails (E : environment) (W : world)
    (address city state zip : value) (msg : string) (tr : trace) :
  launch W tr = Some msg ->
  browse E W address city state zip tr = (error_response 200 msg, emit tr ELaunch).
Proof. intro H. unfold browse. rewrite H. reflexivity. Qed.




(* ================================================================== *)
(** * Further properties *)

(** ** The variants of an address *)

Lemma set_add_length (s : list string) (x : string) :
  (List.length (set_add s x) <= S (List.length s))%nat.
Proof.
  unfold set_add. destruct (existsb (String.eqb x) s); [lia |].
  rewrite length_app. simpl. lia.
Qed.

Lemma swap_set_length (base : string) : (List.length (swap_set base) <= 3)%nat.
Proof.
  unfold swap_set.
  pose proof (set_add_length [] base) as H1.
  pose proof (set_add_length (set_add [] base) (swapWords base abbrToFull)) as H2.
  pose proof (set_add_length
                (set_add (set_add [] base) (swapWords base abbrToFull))
                (swapWords base fullToAbbr)) as H3.
  cbn [List.length] in H1. lia.
Qed.

Lemma fold_set_add_length (f : string -> string) (ds : list string) (s : list string) :
  (List.length (fold_left (fun vs d => set_add vs (f d)) ds s)
   <= List.length s + List.length ds)%nat.
Proof.
  revert s. induction ds as [| d ds IH]; intro s; simpl; [lia |].
  pose proof (IH (set_add s (f d))) as H.
  pose proof (set_add_length s (f d)) as H'. lia.
Qed.

Lemma variant_set_length (base : string) : (List.length (variant_set base) <= 7)%nat.
Proof.
  unfold variant_set. pose proof (swap_set_length base) as H.
  destruct (negb (hasDirectional base)); [| lia].
  destruct (match_house base) as [[num rest] |]; [| lia].
  pose proof (fold_set_add_length (directional_variant num rest)
                ["E"; "W"; "N"; "S"] (swap_set base)) as H'.
  cbn [List.length] in H'. lia.
Qed.

Lemma filter_length_le {A : Type} (p : A -> bool) (l : list A) :
  (List.length (filter p l) <= List.length l)%nat.
Proof.
  induction l as [| x l IH]; simpl; [lia |]. destruct (p x); simpl; lia.
Qed.

Lemma variants_length (address : value) :
  (List.length (generateAddressVariants address) <= 7)%nat.
Proof.
  unfold generateAddressVariants.
  destruct (String.eqb (Js.trim (V.to_string (V.or address (VStr "")))) "");
    [simpl; lia |].
  pose proof (filter_length_le non_empty
                (variant_set (Js.trim (V.to_string (V.or address (VStr "")))))).
  pose proof (variant_set_length (Js.trim (V.to_string (V.or address (VStr ""))))).
  lia.
Qed.

(** *** Trimming *)

Lemma trimEnd_idem (s : string) : Js.trimEnd (Js.trimEnd s) = Js.trimEnd s.
Proof.
  induction s as [| c r IH]; [reflexivity |].
  cbn [Js.trimEnd]. destruct (Js.trimEnd r) as [| d r'] eqn:Hr.
  - destruct (Js.is_space c) eqn:Hc; [reflexivity |].
    cbn [Js.trimEnd]. rewrite Hc. reflexivity.
  - cbn [Js.trimEnd]. cbn [Js.trimEnd] in IH.
    change (Js.trimEnd (String d r')) with
      (match Js.trimEnd r' with
       | EmptyString => if Js.is_space d then EmptyString else String d EmptyString
       | r'' => String d r''
       end) in IH.
    rewrite IH. reflexivity.
Qed.

Lemma trimEnd_app_fixed (a b : string) :
  b <> "" -> Js.trimEnd b = b -> Js.trimEnd (a ++ b) = a ++ b.
Proof.
  intros Hne Hb. induction a as [| c a IH]; [exact Hb |].
  cbn [append Js.trimEnd]. rewrite IH.
  destruct (a ++ b) as [| d r] eqn:Hab; [| reflexivity].
  destruct a; [cbn [append] in Hab; congruence | discriminate Hab].
Qed.

Lemma trimEnd_fixed_suffix (a b : string) :
  b <> "" -> Js.trimEnd (a ++ b) = a ++ b -> Js.trimEnd b = b.
Proof.
  intros Hne. induction a as [| c a IH]; [trivial |].
  cbn [append Js.trimEnd]. intro H.
  destruct (Js.trimEnd (a ++ b)) as [| d r] eqn:Ht.
  - exfalso. destruct (Js.is_space c); [discriminate H |].
    injection H as H. destruct a; [cbn [append] in H; congruence | discriminate H].
  - injection H as H. apply IH. exact H.
Qed.

Lemma trimStart_head (s : string) :
  Js.trimStart s = "" \/
  exists c r, Js.trimStart s = String c r /\ Js.is_space c = false.
Proof.
  induction s as [| c r IH]; [left; reflexivity |].
  cbn [Js.trimStart]. destruct (Js.is_space c) eqn:Hc; [exact IH |].
  right. exists c, r. split; [reflexivity | exact Hc].
Qed.

Lemma trimEnd_head (c : ascii) (r : string) :
  Js.is_space c = false -> exists r', Js.trimEnd (String c r) = String c r'.
Proof.
  intro Hc. cbn [Js.trimEnd]. destruct (Js.trimEnd r) as [| d r'].
  - rewrite Hc. exists "". reflexivity.
  - exists (String d r'). reflexivity.
Qed.

Lemma trim_idem (s : string) : Js.trim (Js.trim s) = Js.trim s.
Proof.
  unfold Js.trim. destruct (trimStart_head s) as [-> | (c & r & -> & Hc)];
    [reflexivity |].
  destruct (trimEnd_head c r Hc) as (r' & Hr).
  assert (Js.trimStart (Js.trimEnd (String c r)) = Js.trimEnd (String c r)) as ->.
  { rewrite Hr. cbn [Js.trimStart]. rewrite Hc. reflexivity. }
  apply trimEnd_idem.
Qed.

Lemma trim_trimmed (s : string) : Js.trim s <> "" -> trimmed (Js.trim s).
Proof. intro H. split; [apply trim_idem | exact H]. Qed.

(** *** A visible character survives the swaps *)

Lemma trim_visible (s : string) :
  existsb_str visible s = true -> Js.trim s <> "".
Proof.
  intro H. unfold Js.trim.
  assert (exists c r, Js.trimStart s = String c r /\ Js.is_space c = false)
    as (c & r & -> & Hc).
  { induction s as [| c r IH]; [discriminate H |].
    cbn [existsb_str] in H. cbn [Js.trimStart]. unfold visible in H at 1.
    destruct (Js.is_space c) eqn:Hc.
    - apply IH. exact H.
    - exists c, r. split; [reflexivity | exact Hc]. }
  destruct (trimEnd_head c r Hc) as (r' & ->). discriminate.
Qed.

Lemma trimmed_visible (s : string) : trimmed s -> existsb_str visible s = true.
Proof.
  intros [Ht Hne]. destruct (existsb_str visible s) eqn:Hv; [reflexivity |].
  exfalso. apply Hne. rewrite <- Ht. unfold Js.trim.
  assert (Js.trimStart s = "") as ->; [| reflexivity].
  clear Ht Hne. induction s as [| c r IH]; [reflexivity |].
  cbn [existsb_str] in Hv. apply orb_false_elim in Hv. destruct Hv as [Hc Hr].
  cbn [Js.trimStart]. unfold visible in Hc. apply negb_false_iff in Hc.
  rewrite Hc. exact (IH Hr).
Qed.

Lemma existsb_str_app (p : ascii -> bool) (a b : string) :
  existsb_str p (a ++ b) = (existsb_str p a || existsb_str p b)%bool.
Proof.
  induction a as [| c a IH]; [reflexivity |].
  cbn [append existsb_str]. rewrite IH. apply orb_assoc.
Qed.

Lemma replace_from_visible (pat rep : string) :
  existsb_str visible rep = true ->
  forall s skip,
    existsb_str visible (drop skip s) = true ->
    existsb_str visible (Js.replace_from skip pat rep s) = true.
Proof.
  intros Hrep s. induction s as [| c r IH]; intros skip H.
  - destruct skip; discriminate H.
  - cbn [Js.replace_from]. destruct skip as [| k].
    + cbn [drop] in H. destruct (Js.prefix_ci pat (String c r)).
      * rewrite existsb_str_app, Hrep. reflexivity.
      * cbn [existsb_str] in *. destruct (visible c); [reflexivity |].
        apply (IH 0%nat). destruct r; exact H.
    + cbn [drop] in H. apply IH. exact H.
Qed.

Lemma fold_replace_visible (m : list (string * string)) :
  Forall (fun kv => existsb_str visible (snd kv) = true) m ->
  forall s,
    existsb_str visible s = true ->
    existsb_str visible
      (fold_left (fun t kv => Js.replace_gi (fst kv) (snd kv) t) m s) = true.
Proof.
  induction 1 as [| kv m Hkv _ IH]; intros s Hs; [exact Hs |].
  cbn [fold_left]. apply IH. unfold Js.replace_gi.
  apply replace_from_visible; [exact Hkv |]. destruct s; exact Hs.
Qed.

Lemma swapWords_trimmed (m : list (string * string)) (base : string) :
  Forall (fun kv => existsb_str visible (snd kv) = true) m ->
  trimmed base -> trimmed (swapWords base m).
Proof.
  intros Hm Hb. unfold swapWords. apply trim_trimmed, trim_visible.
  apply fold_replace_visible; [exact Hm |].
  rewrite !existsb_str_app, (trimmed_visible base Hb). apply orb_true_r.
Qed.

Lemma tables_visible :
  Forall (fun kv => existsb_str visible (snd kv) = true) abbrToFull /\
  Forall (fun kv => existsb_str visible (snd kv) = true) fullToAbbr.
Proof. split; repeat constructor. Qed.

(** *** The directional variants *)

Lemma span_decomposed (p : ascii -> bool) (s a b : string) :
  Js.span p s = (a, b) ->
  s = a ++ b /\ Js.forallb_str p a = true /\ starts_outside p b.
Proof.
  revert a b. induction s as [| c r IH]; intros a b H.
  - injection H as <- <-. repeat split.
  - cbn [Js.span] in H. destruct (p c) eqn:Hc.
    + destruct (Js.span p r) as [a' b'] eqn:Hr. injection H as <- <-.
      destruct (IH a' b' eq_refl) as (-> & Ha & Hb).
      repeat split; [| exact Hb]. cbn [Js.forallb_str]. rewrite Hc, Ha. reflexivity.
    + injection H as <- <-. repeat split. exact Hc.
Qed.

Lemma digit_not_space (c : ascii) : Js.is_digit c = true -> Js.is_space c = false.
Proof.
  destruct c as [[] [] [] [] [] [] [] []]; intro H;
    solve [reflexivity | discriminate H].
Qed.

Lemma trimEnd_spaces (ws : string) :
  Js.forallb_str Js.is_space ws = true -> Js.trimEnd ws = "".
Proof.
  induction ws as [| c ws IH]; [reflexivity |].
  cbn [Js.forallb_str]. intro H. apply andb_prop in H. destruct H as [Hc Hws].
  cbn [Js.trimEnd]. rewrite (IH Hws), Hc. reflexivity.
Qed.

Lemma directional_variant_trimmed (base num rest d : string) :
  trimmed base -> match_house base = Some (num, rest) ->
  trimmed (directional_variant num rest d).
Proof.
  intros [Ht Hne] Hm. unfold match_house in Hm.
  destruct (Js.span Js.is_digit base) as [num' r1] eqn:H1.
  destruct (Js.span Js.is_space r1) as [ws rest'] eqn:H2.
  destruct (String.eqb_spec num' "") as [| Hnum]; [discriminate Hm |].
  destruct (String.eqb_spec ws "") as [| Hws]; [discriminate Hm |].
  cbn [orb] in Hm.
  destruct (existsb_str Js.is_line_terminator rest'); [discriminate Hm |].
  injection Hm as -> ->.
  destruct (span_decomposed _ _ _ _ H1) as (Hb & Hd & _).
  destruct (span_decomposed _ _ _ _ H2) as (Hr1 & Hs & _).
  subst r1.
  (* the base is trimmed at its end: so is the rest, which is not empty *)
  assert (Js.trimEnd base = base) as Hend.
  { unfold Js.trim in Ht.
    destruct num as [| c num]; [congruence |].
    cbn [Js.forallb_str] in Hd. apply andb_prop in Hd. destruct Hd as [Hc _].
    rewrite Hb in Ht |- *. cbn [append Js.trimStart] in Ht.
    rewrite (digit_not_space c Hc) in Ht. exact Ht. }
  assert (rest <> "") as Hrest.
  { intros ->. rewrite Hb, string_app_nil_r in Hend.
    destruct ws as [| c ws]; [congruence |].
    assert (Js.trimEnd (String c ws) = "") as Hz by (apply trimEnd_spaces, Hs).
    destruct (trimEnd_tail (num ++ String c ws)) as (tl & Htl & _).
    rewrite Hend in Htl.
    assert (Js.trimEnd (String c ws) = String c ws) as Hfix.
    { apply (trimEnd_fixed_suffix num); [discriminate | exact Hend]. }
    rewrite Hz in Hfix. discriminate Hfix. }
  assert (Js.trimEnd rest = rest) as Hfix.
  { apply (trimEnd_fixed_suffix (num ++ ws)); [exact Hrest |].
    rewrite string_app_assoc, <- Hb. exact Hend. }
  split.
  - unfold Js.trim, directional_variant.
    destruct num as [| c num]; [congruence |].
    cbn [Js.forallb_str] in Hd. apply andb_prop in Hd. destruct Hd as [Hc _].
    cbn [append Js.trimStart]. rewrite (digit_not_space c Hc).
    replace (String c (num ++ String " " (d ++ String " " rest)))
      with ((String c (num ++ String " " (d ++ " "))) ++ rest).
    + apply trimEnd_app_fixed; assumption.
    + cbn [append]. f_equal. rewrite string_app_assoc. cbn [append].
      f_equal. f_equal. rewrite string_app_assoc. reflexivity.
  - unfold directional_variant. destruct num; [congruence | discriminate].
Qed.

Lemma fold_set_add_In (f : string -> string) (ds : list string) (s : list string)
    (v : string) :
  In v (fold_left (fun vs d => set_add vs (f d)) ds s) ->
  In v s \/ exists d, In d ds /\ v = f d.
Proof.
  revert s. induction ds as [| d ds IH]; intros s H; [left; exact H |].
  cbn [fold_left] in H. destruct (IH _ H) as [Hs | (e & He & ->)].
  - apply set_add_In in Hs. destruct Hs as [Hs | ->]; [left; exact Hs |].
    right. exists d. split; [left; reflexivity | reflexivity].
  - right. exists e. split; [right; exact He | reflexivity].
Qed.

Lemma variant_set_trimmed (base : string) :
  trimmed base -> Forall trimmed (variant_set base).
Proof.
  intro Hb. apply Forall_forall. intros v Hv.
  assert (In v (swap_set base) -> trimmed v) as Hswap.
  { intro H. apply swap_set_In in H. destruct H as [-> | [-> | ->]];
      [exact Hb | |]; apply swapWords_trimmed; solve [apply tables_visible | exact Hb]. }
  unfold variant_set in Hv.
  destruct (negb (hasDirectional base)); [| exact (Hswap Hv)].
  destruct (match_house base) as [[num rest] |] eqn:Hm; [| exact (Hswap Hv)].
  apply fold_set_add_In in Hv. destruct Hv as [Hv | (d & _ & ->)];
    [exact (Hswap Hv) |].
  exact (directional_variant_trimmed base num rest d Hb Hm).
Qed.

Lemma filter_all {A : Type} (p : A -> bool) (l : list A) :
  (forall x, In x l -> p x = true) -> filter p l = l.
Proof.
  induction l as [| x l IH]; intro H; [reflexivity |].
  cbn [filter]. rewrite (H x (or_introl eq_refl)), IH; [reflexivity |].
  intros y Hy. apply H. right. exact Hy.
Qed.

Lemma variants_unfiltered (address : value) :
  generateAddressVariants address =
  if String.eqb (Js.trim (V.to_string (V.or address (VStr "")))) "" then []
  else variant_set (Js.trim (V.to_string (V.or address (VStr "")))).
Proof.
  unfold generateAddressVariants.
  destruct (String.eqb_spec (Js.trim (V.to_string (V.or address (VStr "")))) "")
    as [| Hne]; [reflexivity |].
  apply filter_all. intros v Hv.
  pose proof (variant_set_trimmed _ (trim_trimmed _ Hne)) as Hall.
  rewrite Forall_forall in Hall. destruct (Hall v Hv) as [_ Hv'].
  unfold non_empty. destruct (String.eqb_spec v ""); [contradiction | reflexivity].
Qed.

Lemma variants_trimmed (address : value) :
  Forall trimmed (generateAddressVariants address).
Proof.
  rewrite variants_unfiltered.
  destruct (String.eqb_spec (Js.trim (V.to_string (V.or address (VStr "")))) "")
    as [| Hne]; [constructor |].
  apply variant_set_trimmed, trim_trimmed, Hne.
Qed.

(** X1. [generateAddressVariants] returns at most seven strings; each is
    non-empty and already trimmed. The final [filter(Boolean)] removes
    nothing: the array returned is the [Set] as it was filled. *)
Theorem variants_trimmed_and_bounded (address : value) :
  (List.length (generateAddressVariants address) <= 7)%nat /\
  Forall trimmed (generateAddressVariants address) /\
  generateAddressVariants address =
  (if String.eqb (Js.trim (V.to_string (V.or address (VStr "")))) "" then []
   else variant_set (Js.trim (V.to_string (V.or address (VStr ""))))).
Proof.
  split; [apply variants_length | split; [apply variants_trimmed |]].
  apply variants_unfiltered.
Qed.

(** ** The strict lookup: requests and failures *)

Lemma prefix_app (p r : string) : String.prefix p (p ++ r) = true.
Proof.
  induction p as [| c p IH]; simpl; [destruct r; reflexivity |].
  destruct (ascii_dec c c) as [_ | Hne]; [exact IH | contradiction].
Qed.

Lemma candidate_path (cand : shape) :
  In cand candidates -> exists rest, path cand = "/property" ++ rest.
Proof.
  unfold candidates. cbn [In]. intro H.
  destruct H as [<- | [<- | [<- | [<- | [<- | []]]]]].
  - exists "". reflexivity.
  - exists "Extended". reflexivity.
  - exists "ByAddress". reflexivity.
  - exists "". reflexivity.
  - exists "Details". reflexivity.
Qed.

Lemma candidate_params (cand : shape) :
  In cand candidates ->
  params cand = citystatezip_params \/ params cand = split_params.
Proof.
  unfold candidates. cbn [In]. intro H.
  destruct H as [<- | [<- | [<- | [<- | [<- | []]]]]]; auto.
Qed.

Lemma join_cons (sep x : string) (xs : list string) :
  exists more, Js.join sep (x :: xs) = x ++ more.
Proof.
  destruct xs as [| y ys]; cbn [Js.join].
  - exists "". symmetry. apply string_app_nil_r.
  - eexists. reflexivity.
Qed.

Lemma toQuery_address_first (a : string) (rest : list (string * value)) :
  trimmed a ->
  exists more,
    toQuery (("address", VStr a) :: rest) = "address=" ++ encodeURIComponent a ++ more.
Proof.
  intros [Ht Hne]. unfold toQuery. cbn [filter snd fst V.nullish negb andb V.to_string].
  rewrite Ht. unfold non_empty at 1.
  destruct (String.eqb_spec a ""); [contradiction |]. cbn [negb map fst snd V.to_string].
  match goal with
  | |- context [Js.join "&" (?x :: ?xs)] =>
      destruct (join_cons "&" x xs) as (more & ->)
  end.
  exists more. change (encodeURIComponent "address") with "address".
  rewrite !string_app_assoc. reflexivity.
Qed.

Lemma attempt_carries_address (host : string) (city state zip : value)
    (a : string) (cand : shape) :
  trimmed a -> In cand candidates ->
  exists more,
    attempt_url host city state zip a cand
    = "https://" ++ host ++ path cand ++ "?address=" ++ encodeURIComponent a ++ more.
Proof.
  intros Ha Hc. unfold attempt_url.
  destruct (candidate_params cand Hc) as [-> | ->];
    unfold citystatezip_params, split_params;
    match goal with
    | |- context [toQuery (("address", VStr a) :: ?rest)] =>
        destruct (toQuery_address_first a rest Ha) as (more & ->)
    end; exists more; reflexivity.
Qed.

Lemma attempt_under_stem (host : string) (city state zip : value)
    (a : string) (cand : shape) :
  In cand candidates ->
  fetch_under (api_stem host) (attempt_event host city state zip a cand).
Proof.
  intro Hc. destruct (candidate_path cand Hc) as (rest & Hp).
  eexists. split; [reflexivity |].
  unfold attempt_url, api_stem, Js.startsWith. rewrite Hp.
  replace ("https://" ++ host ++ ("/property" ++ rest) ++ "?" ++
           toQuery (params cand a city state zip))
    with (("https://" ++ host ++ "/property") ++
          (rest ++ "?" ++ toQuery (params cand a city state zip))).
  - apply prefix_app.
  - rewrite !string_app_assoc. reflexivity.
Qed.

Lemma judge_some (w : want) (cand : shape) (a : string) (o : fetch_outcome) (h : api_hit) :
  judge w cand a o = Some h ->
  exists data, o = FetchResponse true (Some data) /\
               acceptable w data = true /\ h = make_hit cand a data.
Proof.
  unfold judge. destruct o as [| [] [data |]]; try discriminate.
  destruct (acceptable w data) eqn:Ha; [| discriminate].
  intros [= <-]. exists data. auto.
Qed.

Lemma acceptable_has_essentials (w : want) (data : value) :
  acceptable w data = true ->
  V.truthy (V.or (essential data "zestimate") (essential data "zpid")) = true.
Proof.
  unfold acceptable. destruct (got_city data); [| discriminate].
  destruct (got_state data); [| discriminate].
  intro H. apply andb_prop in H. apply H.
Qed.

Lemma make_want_none (city state zip : value) :
  make_want city state zip = None <->
  (V.truthy city = true /\ not_a_string city) \/
  (V.truthy state = true /\ not_a_string state).
Proof.
  unfold make_want, V.or, not_a_string. split.
  - destruct (V.truthy city) eqn:Hc.
    + destruct city; try (intros _; left; split; [reflexivity | discriminate]).
      destruct (V.truthy state) eqn:Hs.
      * destruct state; try (intros _; right; split; [reflexivity | discriminate]).
        discriminate.
      * discriminate.
    + cbn [V.toLowerCase]. destruct (V.truthy state) eqn:Hs.
      * destruct state; try (intros _; right; split; [reflexivity | discriminate]).
        discriminate.
      * discriminate.
  - intros [[Ht Hn] | [Ht Hn]].
    + rewrite Ht. destruct city; try reflexivity. exfalso. exact (Hn s eq_refl).
    + rewrite Ht.
      destruct (V.toLowerCase (if V.truthy city then city else VStr "")); [| reflexivity].
      destruct state; try reflexivity. exfalso. exact (Hn s0 eq_refl).
Qed.

Lemma keys_set_lookup_guard (E : environment) :
  (negb (env_set (RAPIDAPI_HOST E)) || negb (env_set (RAPIDAPI_KEY E)))%bool
  = negb (keys_set E).
Proof.
  unfold keys_set. destruct (env_set (RAPIDAPI_HOST E)), (env_set (RAPIDAPI_KEY E));
    reflexivity.
Qed.

Lemma firstn_incl {A : Type} (n : nat) (l : list A) (x : A) :
  In x (firstn n l) -> In x l.
Proof.
  revert l. induction n as [| n IH]; intros l H; [destruct H |].
  destruct l as [| y l]; [destruct H |].
  destruct H as [H | H]; [left; exact H | right; exact (IH l H)].
Qed.

Lemma firstn_map_Forall {A B : Type} (P : B -> Prop) (f : A -> B) (l : list A) (n : nat) :
  (forall x, In x l -> P (f x)) -> Forall P (map f (firstn n l)).
Proof.
  intro H. apply Forall_forall. intros y Hy. apply in_map_iff in Hy.
  destruct Hy as (x & <- & Hx). apply H. eapply firstn_incl. exact Hx.
Qed.

Lemma firstn_snoc {A : Type} (l : list A) (m : nat) (x : A) :
  nth_error l m = Some x -> firstn (S m) l = (firstn m l ++ [x])%list.
Proof.
  revert l. induction m as [| m IH]; intros l H.
  - destruct l as [| y l]; [discriminate H |]. injection H as ->. reflexivity.
  - destruct l as [| y l]; [discriminate H |]. cbn [nth_error] in H.
    change (firstn (S (S m)) (y :: l)) with (y :: firstn (S m) l).
    rewrite (IH l H). reflexivity.
Qed.

(** What a run of the lookup leaves in the trace, and where a hit comes
    from. [n] counts the requests made. *)
Lemma lookup_run (E : environment) (W : world)
    (address city state zip : value) (tr : trace) :
  exists n : nat,
    snd (rapidApiLookupStrict E W address city state zip tr)
    = (tr ++ map (pair_event (V.to_string (env_value (RAPIDAPI_HOST E))) city state zip)
               (firstn n (list_prod (generateAddressVariants address) candidates)))%list /\
    (n <= List.length (list_prod (generateAddressVariants address) candidates))%nat /\
    (fst (rapidApiLookupStrict E W address city state zip tr)
     = Ok (ApiFail "no-matching-record") ->
     n = List.length (list_prod (generateAddressVariants address) candidates)) /\
    (forall h,
        fst (rapidApiLookupStrict E W address city state zip tr) = Ok (ApiOk h) ->
        exists w m a cand data,
          make_want city state zip = Some w /\
          n = S m /\
          nth_error (list_prod (generateAddressVariants address) candidates) m
          = Some (a, cand) /\
          fetch W
            (tr ++ map (pair_event (V.to_string (env_value (RAPIDAPI_HOST E)))
                          city state zip)
                       (firstn m (list_prod (generateAddressVariants address)
                                    candidates)))%list
            (attempt_url (V.to_string (env_value (RAPIDAPI_HOST E)))
               city state zip a cand)
          = FetchResponse true (Some data) /\
          acceptable w data = true /\
          h = make_hit cand a data).
Proof.
  unfold rapidApiLookupStrict.
  destruct (negb (env_set (RAPIDAPI_HOST E)) || negb (env_set (RAPIDAPI_KEY E)))%bool.
  { exists 0%nat. cbn [firstn map snd fst]. rewrite app_nil_r.
    repeat split; [lia | discriminate | discriminate]. }
  destruct (make_want city state zip) as [w |].
  2:{ exists 0%nat. cbn [firstn map snd fst]. rewrite app_nil_r.
      repeat split; [lia | discriminate | discriminate]. }
  set (host := V.to_string (env_value (RAPIDAPI_HOST E))).
  set (pairs := list_prod (generateAddressVariants address) candidates).
  cbv zeta. rewrite try_variants_flat. fold pairs.
  destruct (try_pairs_stops W host w city state zip pairs tr) as (n & Hsnd & Hfst).
  unfold history in Hsnd.
  destruct (try_pairs W host w city state zip pairs tr) as [[h |] tr'];
    cbn [fst snd] in *.
  - destruct Hfst as (m & [a cand] & -> & Hnth & Hv & _).
    exists (S m). split; [exact Hsnd |]. split; [| split; [discriminate |]].
    + assert (m < List.length pairs)%nat
        by (apply nth_error_Some; rewrite Hnth; discriminate).
      lia.
    + intros h' [= <-]. unfold verdict, attempt, history in Hv. cbn [fst snd] in Hv.
      destruct (judge_some _ _ _ _ _ Hv) as (data & Hf & Hacc & ->).
      exists w, m, a, cand, data. repeat split; assumption.
  - destruct Hfst as [-> _]. exists (List.length pairs).
    split; [exact Hsnd |]. split; [lia |]. split; [reflexivity | discriminate].
Qed.

Lemma lookup_events (E : environment) (W : world)
    (address city state zip : value) (tr : trace) :
  exists evs,
    snd (rapidApiLookupStrict E W address city state zip tr) = (tr ++ evs)%list /\
    (List.length evs <= 35)%nat /\
    Forall (fetch_under (api_stem (V.to_string (env_value (RAPIDAPI_HOST E))))) evs.
Proof.
  destruct (lookup_run E W address city state zip tr) as (n & Hsnd & Hn & _).
  rewrite length_prod in Hn. change (List.length candidates) with 5%nat in Hn.
  eexists. split; [exact Hsnd |]. split.
  - rewrite length_map, length_firstn, length_prod.
    change (List.length candidates) with 5%nat.
    pose proof (variants_length address). lia.
  - apply firstn_map_Forall. intros [a cand] Hin. apply in_prod_iff in Hin.
    apply attempt_under_stem. apply Hin.
Qed.

(** X2. Whatever the world answers, one call of [rapidApiLookupStrict]
    only adds fetches to the trace, at most 35 of them (seven variants
    times five endpoint shapes). Every fetch goes to the configured
    host, to a path that starts with [/property], and carries one of the
    address variants as its first query parameter. A call that ends
    with [no-matching-record] has made all of them: five per variant. *)
Theorem lookup_traffic (E : environment) (W : world)
    (address city state zip : value) (tr : trace) :
  exists evs,
    snd (rapidApiLookupStrict E W address city state zip tr) = (tr ++ evs)%list /\
    (List.length evs <= 35)%nat /\
    Forall (fetch_under (api_stem (V.to_string (env_value (RAPIDAPI_HOST E))))) evs /\
    Forall (attempt_for (V.to_string (env_value (RAPIDAPI_HOST E)))
              (generateAddressVariants address)) evs /\
    (fst (rapidApiLookupStrict E W address city state zip tr)
     = Ok (ApiFail "no-matching-record") ->
     List.length evs = (5 * List.length (generateAddressVariants address))%nat).
Proof.
  destruct (lookup_run E W address city state zip tr) as (n & Hsnd & Hn & Hmiss & _).
  set (host := V.to_string (env_value (RAPIDAPI_HOST E))) in *.
  rewrite length_prod in Hn, Hmiss. change (List.length candidates) with 5%nat in *.
  exists (map (pair_event host city state zip)
            (firstn n (list_prod (generateAddressVariants address) candidates))).
  split; [exact Hsnd |].
  assert (List.length
            (map (pair_event host city state zip)
               (firstn n (list_prod (generateAddressVariants address) candidates)))
          = n) as Hlen.
  { rewrite length_map, length_firstn, length_prod.
    change (List.length candidates) with 5%nat. lia. }
  rewrite Hlen. pose proof (variants_length address) as Hv.
  split; [lia |]. split; [| split].
  - apply firstn_map_Forall. intros [a cand] Hin. apply in_prod_iff in Hin.
    apply attempt_under_stem. apply Hin.
  - apply firstn_map_Forall. intros [a cand] Hin. apply in_prod_iff in Hin.
    destruct Hin as [Ha Hc].
    pose proof (variants_trimmed address) as Ht. rewrite Forall_forall in Ht.
    destruct (attempt_carries_address host city state zip a cand (Ht a Ha) Hc)
      as (more & Hu).
    exists a, cand, more. repeat split; [exact Ha | exact Hc |].
    unfold pair_event, attempt_event. cbn [fst snd]. rewrite Hu. reflexivity.
  - intro H. rewrite (Hmiss H). lia.
Qed.

(** The lookup for an address with seven variants against an API that
    never answers: 35 fetches. *)
Lemma lookup_traffic_witness :
  exists evs,
    snd (rapidApiLookupStrict api_env silent_world (VStr "1 Main St Road")
           (VStr "Reno") (VStr "NV") VUndef []) = evs /\
    List.length evs = 35%nat.
Proof.
  destruct (lookup_traffic api_env silent_world (VStr "1 Main St Road")
              (VStr "Reno") (VStr "NV") VUndef [])
    as (evs & Hsnd & _ & _ & _ & Hmiss).
  exists evs. split; [exact Hsnd |].
  rewrite Hmiss; [reflexivity |]. vm_compute. reflexivity.
Defined.

Lemma lookup_fetches (E : environment) (W : world)
    (address city state zip : value) (tr : trace) :
  exists evs,
    snd (rapidApiLookupStrict E W address city state zip tr) = (tr ++ evs)%list /\
    forallb is_fetch evs = true.
Proof.
  destruct (lookup_events E W address city state zip tr) as (evs & H & _ & Hf).
  exists evs. split; [exact H |]. apply forallb_forall. intros e He.
  rewrite Forall_forall in Hf. destruct (Hf e He) as (url & -> & _). reflexivity.
Qed.

(** X3. The ways [rapidApiLookupStrict] ends before its loop, without
    any request: without host or key it answers [missing-keys]; with
    both, a truthy city or state that is not a string makes
    [.toLowerCase()] raise. When city and state are strings or falsy
    and [String] can convert the zip and the address (they are
    [plain]), the call returns, and its only failure is
    [no-matching-record]. *)
Theorem lookup_without_traffic (E : environment) (W : world)
    (address city state zip : value) (tr : trace) :
  (keys_set E = false ->
   rapidApiLookupStrict E W address city state zip tr
   = (Ok (ApiFail "missing-keys"), tr)) /\
  (keys_set E = true ->
   (V.truthy city = true /\ not_a_string city) \/
   (V.truthy state = true /\ not_a_string state) ->
   rapidApiLookupStrict E W address city state zip tr = (Raise type_error, tr)) /\
  (keys_set E = true ->
   (V.truthy city = false \/ exists c, city = VStr c) ->
   (V.truthy state = false \/ exists s, state = VStr s) ->
   plain zip = true -> plain address = true ->
   exists r tr',
     rapidApiLookupStrict E W address city state zip tr = (Ok r, tr') /\
     (forall reason, r = ApiFail reason -> reason = "no-matching-record")).
Proof.
  unfold rapidApiLookupStrict. rewrite keys_set_lookup_guard.
  split; [| split].
  - intros ->. reflexivity.
  - intros -> H. apply (proj2 (make_want_none city state zip)) in H.
    rewrite H. reflexivity.
  - intros -> Hc Hs _ _. cbn [negb].
    destruct (make_want city state zip) as [w |] eqn:Hw.
    + destruct (try_variants W _ w city state zip candidates
                  (generateAddressVariants address) tr) as [[h |] tr'].
      * do 2 eexists. split; [reflexivity | discriminate].
      * do 2 eexists. split; [reflexivity |]. intros reason [= <-]. reflexivity.
    + exfalso. apply (proj1 (make_want_none city state zip)) in Hw.
      destruct Hw as [[Ht Hn] | [Ht Hn]].
      * destruct Hc as [Hc | (c & ->)]; [congruence | exact (Hn c eq_refl)].
      * destruct Hs as [Hs | (s & ->)]; [congruence | exact (Hn s eq_refl)].
Qed.

Lemma lookup_without_traffic_witness :
  rapidApiLookupStrict no_env silent_world (VStr "1 Elm St") (VStr "Reno") (VStr "NV")
    VUndef [ELaunch]
  = (Ok (ApiFail "missing-keys"), [ELaunch]) /\
  rapidApiLookupStrict api_env silent_world (VStr "1 Elm St") (VNum 5) (VStr "NV")
    VUndef [ELaunch]
  = (Raise type_error, [ELaunch]) /\
  exists r tr',
    rapidApiLookupStrict api_env silent_world (VStr "1 Elm St") (VStr "Reno") (VStr "NV")
      (VNum 89501) [ELaunch] = (Ok r, tr') /\
    (forall reason, r = ApiFail reason -> reason = "no-matching-record").
Proof.
  split; [| split].
  - apply (proj1 (lookup_without_traffic no_env silent_world
                    (VStr "1 Elm St") (VStr "Reno") (VStr "NV") VUndef [ELaunch])).
    reflexivity.
  - apply (proj1 (proj2 (lookup_without_traffic api_env silent_world
                    (VStr "1 Elm St") (VNum 5) (VStr "NV") VUndef [ELaunch])));
      [reflexivity |].
    left. split; [reflexivity | discriminate].
  - apply (proj2 (proj2 (lookup_without_traffic api_env silent_world
                    (VStr "1 Elm St") (VStr "Reno") (VStr "NV") (VNum 89501) [ELaunch])));
      [reflexivity | right; eexists; reflexivity | right; eexists; reflexivity
      | reflexivity | reflexivity].
Defined.

(** ** The route: what it contacts, and when *)

Lemma is_fetch_page_work (evs : trace) :
  forallb is_fetch evs = true -> forallb is_page_work evs = true.
Proof.
  intro H. apply forallb_forall. intros e He.
  rewrite forallb_forall in H. specialize (H e He).
  destruct e; solve [reflexivity | discriminate].
Qed.

Lemma count_app (p : event -> bool) (a b : trace) :
  count p (a ++ b)%list = (count p a + count p b)%nat.
Proof. unfold count. rewrite filter_app, length_app. reflexivity. Qed.

Lemma traffic_nil (stem : string) (nf ng : nat) : traffic stem nf ng [].
Proof. repeat split; cbn; lia. Qed.

Lemma traffic_app (stem : string) (a b c d : nat) (e1 e2 : trace) :
  traffic stem a b e1 -> traffic stem c d e2 ->
  traffic stem (a + c) (b + d) (e1 ++ e2)%list.
Proof.
  intros (H1 & H2 & H3) (H4 & H5 & H6). unfold traffic.
  rewrite !count_app, forallb_app, H3, H6. repeat split; lia.
Qed.

Lemma traffic_weaken (stem : string) (a b a' b' : nat) (evs : trace) :
  (a <= a')%nat -> (b <= b')%nat -> traffic stem a b evs -> traffic stem a' b' evs.
Proof. intros Ha Hb (H1 & H2 & H3). repeat split; [lia | lia | exact H3]. Qed.

Lemma traffic_other (stem : string) (e : event) :
  is_page_work e = false -> traffic stem 0 0 [e].
Proof. destruct e; try discriminate; intros _; repeat split; cbn; lia. Qed.

Lemma traffic_goto (stem u : string) :
  Js.startsWith u "http" = true -> traffic stem 0 1 [EGoto u].
Proof. intro H. repeat split; cbn; [lia | lia |]. rewrite H. reflexivity. Qed.

Lemma lookup_within_bounds (E : environment) (W : world)
    (address city state zip : value) (tr : trace) :
  exists evs,
    snd (rapidApiLookupStrict E W address city state zip tr) = (tr ++ evs)%list /\
    traffic (api_stem (V.to_string (env_value (RAPIDAPI_HOST E)))) 35 0 evs.
Proof.
  destruct (lookup_events E W address city state zip tr) as (evs & H & Hn & Hf).
  exists evs. split; [exact H |].
  assert (forall e, In e evs ->
                    is_fetch e = true /\ is_goto e = false /\
                    contact_ok (api_stem (V.to_string (env_value (RAPIDAPI_HOST E)))) e
                    = true) as Hall.
  { intros e He. rewrite Forall_forall in Hf.
    destruct (Hf e He) as (url & -> & Hu). repeat split. exact Hu. }
  repeat split.
  - unfold count. pose proof (filter_length_le is_fetch evs). lia.
  - unfold count. rewrite (proj2 (List.length_zero_iff_nil _)); [lia |].
    clear H Hn Hf. induction evs as [| e evs IH]; [reflexivity |].
    cbn [filter]. rewrite (proj1 (proj2 (Hall e (or_introl eq_refl)))).
    apply IH. intros e' He'. apply Hall. right. exact He'.
  - apply forallb_forall. intros e He. apply Hall, He.
Qed.

Lemma searchUrl_absolute (address city state zip : value) :
  Js.startsWith (buildSearchUrl address city state zip) "http" = true.
Proof. reflexivity. Qed.

Lemma detailUrl_absolute (u : string) :
  Js.startsWith (if Js.startsWith u "http" then u else "https://www.zillow.com" ++ u)
    "http" = true.
Proof. destruct (Js.startsWith u "http") eqn:H; [exact H | reflexivity]. Qed.

Section RouteTraces.

Variable E : environment.
Variable W : world.
Variables address city state zip : value.

Local Abbreviation searchUrl_ := (buildSearchUrl address city state zip).
Local Abbreviation stem_ := (api_stem (V.to_string (env_value (RAPIDAPI_HOST E)))).

Lemma open_detail_work best score tr :
  exists evs,
    snd (open_detail W address city state zip best score tr) = (tr ++ evs)%list /\
    forallb is_page_work evs = true /\ traffic stem_ 0 1 evs.
Proof.
  unfold open_detail.
  destruct (V.get best "detailUrl") as [| | b | n | u | items | fields];
    try (exists []; rewrite app_nil_r; repeat split; cbn; lia).
  match goal with
  | |- context [page W tr ?u] => destruct (page W tr u) as [msg | | parsed]
  end; (eexists [_]; split; [reflexivity |]; split; [reflexivity |];
        apply traffic_goto, detailUrl_absolute).
Qed.

Lemma after_blob_work parsed tr :
  exists evs,
    snd (after_blob W address city state zip parsed tr) = (tr ++ evs)%list /\
    forallb is_page_work evs = true /\ traffic stem_ 0 1 evs.
Proof.
  unfold after_blob.
  destruct (find_listResults parsed) as [| | b | n | u | [| x xs] | fields];
    try (exists []; rewrite app_nil_r; repeat split; cbn; lia).
  destruct (pickBestSearchResult (x :: xs) address city) as [best score].
  destruct (negb (V.truthy best) || negb (V.truthy (V.get best "detailUrl")))%bool.
  - exists []. rewrite app_nil_r. repeat split; cbn; lia.
  - apply open_detail_work.
Qed.

Lemma without_blob_work tr :
  exists evs,
    snd (without_blob E W address city state zip tr) = (tr ++ evs)%list /\
    forallb is_page_work evs = true /\
    traffic stem_ (if keys_set E then 35 else 0) 0 evs.
Proof.
  unfold without_blob. destruct (keys_set E).
  - destruct (lookup_fetches E W address city state zip tr) as (evs & H & Hf).
    destruct (lookup_within_bounds E W address city state zip tr) as (evs' & H' & Ht).
    assert (evs' = evs) as -> by (rewrite H in H'; exact (eq_sym (app_inv_head _ _ _ H'))).
    exists evs. split; [| split; [apply is_fetch_page_work, Hf | exact Ht]].
    destruct (rapidApiLookupStrict E W address city state zip tr)
      as [[[out | reason] | msg] tr1]; exact H.
  - exists []. rewrite app_nil_r. repeat split; cbn; lia.
Qed.

Lemma scrape_work tr :
  exists mid,
    snd (scrape E W address city state zip tr)
    = (tr ++ [EGoto searchUrl_] ++ mid)%list /\
    forallb is_page_work mid = true /\
    traffic stem_ (if keys_set E then 35 else 0) 1 mid.
Proof.
  unfold scrape. destruct (page W tr searchUrl_) as [msg | | parsed].
  - exists []. repeat split; cbn; lia.
  - destruct (without_blob_work (emit tr (EGoto searchUrl_))) as (evs & H & Hf & Ht).
    exists evs. split; [| split; [exact Hf |]].
    + rewrite H. unfold emit. rewrite <- app_assoc. reflexivity.
    + eapply traffic_weaken; [| | exact Ht]; lia.
  - destruct (after_blob_work parsed (emit tr (EGoto searchUrl_))) as (evs & H & Hf & Ht).
    exists evs. split; [| split; [exact Hf |]].
    + rewrite H. unfold emit. rewrite <- app_assoc. reflexivity.
    + eapply traffic_weaken; [| | exact Ht]; lia.
Qed.

Lemma browse_trace tr :
  snd (browse E W address city state zip tr) = emit tr ELaunch /\
  (exists msg, launch W tr = Some msg) \/
  launch W tr = None /\
  exists mid,
    snd (browse E W address city state zip tr)
    = (tr ++ [ELaunch] ++ [EGoto searchUrl_] ++ mid ++ [EClose])%list /\
    forallb is_page_work mid = true /\
    traffic stem_ (if keys_set E then 35 else 0) 1 mid.
Proof.
  unfold browse. destruct (launch W tr) as [msg |] eqn:Hl.
  - left. split; [reflexivity | exists msg; reflexivity].
  - right. split; [reflexivity |].
    destruct (scrape_work (emit tr ELaunch)) as (mid & H & Hmid & Ht).
    exists mid. split; [| split; assumption].
    destruct (scrape E W address city state zip (emit tr ELaunch)) as [[r | msg] tr1];
      cbn [snd] in *; rewrite H; unfold emit; rewrite <- !app_assoc; reflexivity.
Qed.

Lemma browse_lifecycle pre :
  forallb is_fetch pre = true ->
  lifecycle W searchUrl_ (snd (browse E W address city state zip pre)).
Proof.
  intro Hpre. destruct (browse_trace pre) as [[-> (msg & Hl)] | (Hl & mid & -> & Hmid & _)].
  - eapply life_launch_failed; eassumption.
  - apply life_closed; assumption.
Qed.

Lemma browse_traffic tr :
  exists evs,
    snd (browse E W address city state zip tr) = (tr ++ evs)%list /\
    traffic stem_ (if keys_set E then 35 else 0) 2 evs.
Proof.
  destruct (browse_trace tr) as [[-> _] | (_ & mid & -> & _ & Ht)].
  - exists [ELaunch]. split; [reflexivity |].
    eapply traffic_weaken; [| | apply (traffic_other stem_ ELaunch eq_refl)]; lia.
  - eexists. split; [reflexivity |].
    pose proof (traffic_app _ _ _ _ _ _ _
                  (traffic_other stem_ ELaunch eq_refl)
                  (traffic_app _ _ _ _ _ _ _
                     (traffic_goto stem_ searchUrl_
                        (searchUrl_absolute address city state zip))
                     (traffic_app _ _ _ _ _ _ _ Ht
                        (traffic_other stem_ EClose eq_refl)))) as H.
    eapply traffic_weaken; [| | exact H]; lia.
Qed.

Lemma resolve_lifecycle :
  lifecycle W searchUrl_ (snd (resolve E W address city state zip [])).
Proof.
  unfold resolve. fold (prefers_api E).
  destruct (prefers_api E && keys_set E)%bool.
  - destruct (lookup_fetches E W address city state zip []) as (evs & H & Hf).
    cbn [app] in H.
    destruct (rapidApiLookupStrict E W address city state zip [])
      as [[[out | reason] | msg] tr1]; cbn [snd] in *; subst tr1.
    + apply life_no_browser, Hf.
    + pose proof (browse_lifecycle evs Hf) as Hb.
      destruct (browse E W address city state zip evs) as [r tr2]. exact Hb.
    + apply life_no_browser, Hf.
  - pose proof (browse_lifecycle [] eq_refl) as Hb.
    destruct (browse E W address city state zip []) as [r tr2]. exact Hb.
Qed.

Lemma resolve_traffic :
  traffic stem_
    ((if (prefers_api E && keys_set E)%bool then 35 else 0) +
     (if keys_set E then 35 else 0)) 2
    (snd (resolve E W address city state zip [])).
Proof.
  unfold resolve. fold (prefers_api E).
  destruct (prefers_api E && keys_set E)%bool.
  - destruct (lookup_within_bounds E W address city state zip []) as (evs & H & Ht).
    cbn [app] in H.
    destruct (rapidApiLookupStrict E W address city state zip [])
      as [[[out | reason] | msg] tr1]; cbn [snd] in *; subst tr1.
    + eapply traffic_weaken; [| | exact Ht]; lia.
    + destruct (browse_traffic evs) as (evs' & Hb & Ht').
      destruct (browse E W address city state zip evs) as [r tr2].
      cbn [snd] in *. subst tr2.
      pose proof (traffic_app _ _ _ _ _ _ _ Ht Ht') as Hall.
      eapply traffic_weaken; [| | exact Hall]; lia.
    + eapply traffic_weaken; [| | exact Ht]; lia.
  - destruct (browse_traffic []) as (evs' & Hb & Ht').
    destruct (browse E W address city state zip []) as [r tr2].
    cbn [snd app] in *. subst tr2. exact Ht'.
Qed.

End RouteTraces.

Lemma route_cases (E : environment) (W : world) (req : request) :
  (checkApiKey E req = false /\
   zestimate_route E W req = (Sent (error_response 401 "Unauthorized"), [])) \/
  (checkApiKey E req = true /\
   (V.truthy (field req "address") = false \/ V.truthy (field req "city") = false \/
    V.truthy (field req "state") = false) /\
   zestimate_route E W req = (Sent required_error, [])) \/
  (checkApiKey E req = true /\
   V.truthy (field req "address") = true /\ V.truthy (field req "city") = true /\
   V.truthy (field req "state") = true /\
   zestimate_route E W req
   = resolve E W (field req "address") (field req "city") (field req "state")
       (field req "zip") []).
Proof.
  unfold field. destruct (checkApiKey E req) eqn:Hk.
  - right.
    destruct (V.truthy (V.get (V.or (req_body req) (VObj [])) "address")) eqn:Ha;
      [| left; split; [reflexivity |]; split; [auto | apply route_rejects; auto]].
    destruct (V.truthy (V.get (V.or (req_body req) (VObj [])) "city")) eqn:Hc;
      [| left; split; [reflexivity |]; split; [auto | apply route_rejects; auto]].
    destruct (V.truthy (V.get (V.or (req_body req) (VObj [])) "state")) eqn:Hs;
      [| left; split; [reflexivity |]; split; [auto | apply route_rejects; auto]].
    right. repeat split. apply route_past_check; assumption.
  - left. split; [reflexivity |]. unfold zestimate_route. rewrite Hk. reflexivity.
Qed.

(** X4. The browser in the trace of one request. Before it starts there
    are only fetches (the API-first lookup). It is started at most
    once; when the start fails nothing follows; when it succeeds the
    search page is visited first and the browser is closed last, on
    every path: answers, failures of a page, failures of the fallback.
    (Opening the context and the page between the start and the first
    visit is taken not to fail, as in [world].) *)
Theorem browser_lifecycle (E : environment) (W : world) (req : request) :
  lifecycle W
    (buildSearchUrl (field req "address") (field req "city") (field req "state")
       (field req "zip"))
    (snd (zestimate_route E W req)).
Proof.
  destruct (route_cases E W req) as [[_ ->] | [(_ & _ & ->) | (_ & _ & _ & _ & ->)]].
  - apply life_no_browser. reflexivity.
  - apply life_no_browser. reflexivity.
  - apply resolve_lifecycle.
Qed.

Lemma route_within_bounds (E : environment) (W : world) (req : request) :
  traffic (api_stem (V.to_string (env_value (RAPIDAPI_HOST E))))
    ((if (prefers_api E && keys_set E)%bool then 35 else 0) +
     (if keys_set E then 35 else 0)) 2
    (snd (zestimate_route E W req)).
Proof.
  destruct (route_cases E W req) as [[_ ->] | [(_ & _ & ->) | (_ & _ & _ & _ & ->)]].
  - apply traffic_nil.
  - apply traffic_nil.
  - apply resolve_traffic.
Qed.

Lemma forallb_In {A : Type} (p : A -> bool) (l : list A) (x : A) :
  forallb p l = true -> In x l -> p x = true.
Proof. intros H Hx. rewrite forallb_forall in H. exact (H x Hx). Qed.

(** X5. The traffic of one request. At most 70 fetches (the lookup runs
    at most twice: API-first, and as the fallback of a search page
    without data), at most 35 unless API-first is on, none without the
    two RapidAPI settings; at most two page visits. Every fetch goes to
    the configured host under [/property], every page visit to an
    absolute URL. *)
Theorem route_traffic (E : environment) (W : world) (req : request) :
  (count is_fetch (snd (zestimate_route E W req)) <= 70)%nat /\
  (keys_set E = false -> count is_fetch (snd (zestimate_route E W req)) = 0%nat) /\
  (prefers_api E = false ->
   (count is_fetch (snd (zestimate_route E W req)) <= 35)%nat) /\
  (count is_goto (snd (zestimate_route E W req)) <= 2)%nat /\
  (forall u, In (EFetch u) (snd (zestimate_route E W req)) ->
             Js.startsWith u (api_stem (V.to_string (env_value (RAPIDAPI_HOST E))))
             = true) /\
  (forall u, In (EGoto u) (snd (zestimate_route E W req)) ->
             Js.startsWith u "http" = true).
Proof.
  destruct (route_within_bounds E W req) as (Hf & Hg & Hok).
  split; [| split; [| split; [| split; [| split]]]].
  - destruct (prefers_api E && keys_set E)%bool, (keys_set E); lia.
  - intro Hk. rewrite Hk, andb_false_r in Hf. lia.
  - intro Hp. rewrite Hp in Hf. cbn [andb] in Hf. destruct (keys_set E); lia.
  - exact Hg.
  - intros u Hu. exact (forallb_In _ _ _ Hok Hu).
  - intros u Hu. exact (forallb_In _ _ _ Hok Hu).
Qed.

Lemma route_traffic_witness :
  count is_fetch
    (snd (zestimate_route no_env street_world
            (query "123 Main St" "Springfield" "IL" "62704"))) = 0%nat /\
  (count is_fetch
     (snd (zestimate_route no_env street_world
             (query "123 Main St" "Springfield" "IL" "62704"))) <= 35)%nat.
Proof.
  split.
  - apply (proj1 (proj2 (route_traffic no_env street_world
                           (query "123 Main St" "Springfield" "IL" "62704")))).
    reflexivity.
  - apply (proj1 (proj2 (proj2 (route_traffic no_env street_world
                           (query "123 Main St" "Springfield" "IL" "62704"))))).
    reflexivity.
Defined.

(** The bound of 70 is reached: API-first, seven variants, an API that
    never answers and a search page without data. *)
Example seventy_fetches :
  count is_fetch
    (snd (zestimate_route api_env silent_world (query "1 Main St Road" "Reno" "NV" "")))
  = 70%nat.
Proof. vm_compute. reflexivity. Qed.

(** ** The route: who gets no answer, who gets 401 *)

Lemma checkApiKey_false (E : environment) (req : request) :
  checkApiKey E req = false <->
  exists k, API_KEY E = Some k /\ k <> "" /\ x_api_key req <> Some k.
Proof.
  unfold checkApiKey, env_set, env_value. destruct (API_KEY E) as [k |]; cbn.
  - destruct (String.eqb_spec k "") as [-> | Hk]; cbn.
    + split; [discriminate | intros (k' & [= <-] & Hne & _); congruence].
    + destruct (x_api_key req) as [key |].
      * unfold non_empty. destruct (String.eqb_spec key "") as [-> | Hkey]; cbn.
        -- split; [| reflexivity]. intros _. exists k. repeat split; congruence.
        -- destruct (String.eqb_spec key k) as [-> | Hne].
           ++ split; [discriminate | intros (k' & [= <-] & _ & H); congruence].
           ++ split; [| reflexivity]. intros _. exists k. repeat split; congruence.
      * split; [| reflexivity]. intros _. exists k. repeat split; congruence.
  - split; [discriminate | intros (k' & [=] & _)].
Qed.

(** X6. The API-key check. A request is turned away exactly when
    [API_KEY] is set to a non-empty string and the [X-API-Key] header
    is missing or different. It is then answered 401 before anything
    is contacted; no other answer of the route carries status 401. *)
Theorem unauthorized_iff (E : environment) (W : world) (req : request) :
  (checkApiKey E req = false <->
   exists k, API_KEY E = Some k /\ k <> "" /\ x_api_key req <> Some k) /\
  (checkApiKey E req = false ->
   zestimate_route E W req = (Sent (error_response 401 "Unauthorized"), [])) /\
  (forall r tr, zestimate_route E W req = (Sent r, tr) -> status r = 401 ->
                checkApiKey E req = false).
Proof.
  split; [apply checkApiKey_false | split].
  - intro Hk. destruct (route_cases E W req) as [[_ H] | [(Hk' & _) | (Hk' & _)]];
      [exact H | congruence | congruence].
  - intros r tr Hr Hs.
    destruct (route_cases E W req) as [[Hk _] | [(_ & _ & H) | (_ & _ & _ & _ & H)]];
      [exact Hk | |]; exfalso; rewrite H in Hr.
    + injection Hr as <- _. discriminate Hs.
    + apply resolve_resolved, resolved_status in Hr. rewrite Hr in Hs. discriminate Hs.
Qed.

Lemma unauthorized_iff_witness :
  zestimate_route locked_env silent_world (query "1 Elm St" "Reno" "NV" "")
  = (Sent (error_response 401 "Unauthorized"), []).
Proof.
  apply (proj1 (proj2 (unauthorized_iff locked_env silent_world
                         (query "1 Elm St" "Reno" "NV" "")))).
  reflexivity.
Defined.

Lemma lookup_raises (E : environment) (W : world)
    (address city state zip : value) (tr tr' : trace) (msg : string) :
  rapidApiLookupStrict E W address city state zip tr = (Raise msg, tr') <->
  keys_set E = true /\ make_want city state zip = None /\
  msg = type_error /\ tr' = tr.
Proof.
  unfold rapidApiLookupStrict. rewrite keys_set_lookup_guard.
  destruct (keys_set E); cbn [negb].
  - destruct (make_want city state zip) as [w |].
    + destruct (try_variants W _ w city state zip candidates
                  (generateAddressVariants address) tr) as [[h |] tr1];
        (split; [discriminate | intros (_ & [=] & _)]).
    + split; [intros [= <- <-]; auto | intros (_ & _ & -> & ->); reflexivity].
  - split; [discriminate | intros ([=] & _)].
Qed.

Lemma browse_sends (E : environment) (W : world)
    (address city state zip : value) (tr : trace) (o : outcome * trace) :
  (let (r, tr') := browse E W address city state zip tr in (Sent r, tr')) = o ->
  exists r, fst o = Sent r.
Proof.
  destruct (browse E W address city state zip tr) as [r tr']. intros <-.
  exists r. reflexivity.
Qed.

Lemma resolve_unanswered (E : environment) (W : world)
    (address city state zip : value) (msg : string) (tr : trace) :
  resolve E W address city state zip [] = (Unanswered msg, tr) <->
  prefers_api E = true /\ keys_set E = true /\
  make_want city state zip = None /\ msg = type_error /\ tr = [].
Proof.
  unfold resolve. fold (prefers_api E).
  destruct (prefers_api E) eqn:Hp, (keys_set E) eqn:Hk; cbn [andb].
  - destruct (rapidApiLookupStrict E W address city state zip [])
      as [[[out | reason] | m] tr1] eqn:Hl.
    + split; [discriminate |]. intros (_ & _ & Hw & -> & ->). exfalso.
      assert (rapidApiLookupStrict E W address city state zip [] = (Raise type_error, []))
        as H by (apply lookup_raises; auto).
      rewrite H in Hl. discriminate Hl.
    + split.
      * intro H. apply browse_sends in H. destruct H as (r & H).
        discriminate H.
      * intros (_ & _ & Hw & -> & ->). exfalso.
        assert (rapidApiLookupStrict E W address city state zip []
                = (Raise type_error, []))
          as H by (apply lookup_raises; auto).
        rewrite H in Hl. discriminate Hl.
    + apply lookup_raises in Hl. destruct Hl as (_ & Hw & -> & ->).
      split; [intros [= <- <-]; auto | intros (_ & _ & _ & -> & ->); reflexivity].
  - split; [| intros (_ & [=] & _)].
    intro H. apply browse_sends in H. destruct H as (r & H). discriminate H.
  - split; [| intros ([=] & _)].
    intro H. apply browse_sends in H. destruct H as (r & H). discriminate H.
  - split; [| intros ([=] & _)].
    intro H. apply browse_sends in H. destruct H as (r & H). discriminate H.
Qed.

(** X7. When a request is left without any answer. Take a request
    whose address, city, state and zip [String] can convert, and an API
    whose payloads are [plain]. The handler calls the lookup outside
    its [try] when API-first is on, so the [TypeError] of a city or
    state that is not a string escapes, and this is the only way: the
    request gets no answer exactly when it passes the key check and
    carries truthy address, city and state, with [PREFER_API_FIRST] set
    to [1], both RapidAPI settings present, and a city or state that is
    not a string; nothing has been contacted by then. Every other such
    request is answered. *)
Theorem unanswered_iff (E : environment) (W : world) (req : request)
    (msg : string) (tr : trace) :
  plain (field req "address") = true -> plain (field req "city") = true ->
  plain (field req "state") = true -> plain (field req "zip") = true ->
  plain_payloads W ->
  (zestimate_route E W req = (Unanswered msg, tr) <->
   checkApiKey E req = true /\
   V.truthy (field req "address") = true /\
   V.truthy (field req "city") = true /\
   V.truthy (field req "state") = true /\
   prefers_api E = true /\ keys_set E = true /\
   (not_a_string (field req "city") \/ not_a_string (field req "state")) /\
   msg = type_error /\ tr = []).
Proof.
  intros _ _ _ _ _.
  destruct (route_cases E W req)
    as [[Hk ->] | [(Hk & Hf & ->) | (Hk & Ha & Hc & Hs & ->)]].
  - split; [discriminate | intros (Hk' & _); congruence].
  - split; [discriminate |]. intros (_ & Ha & Hc & Hs & _).
    destruct Hf as [Hf | [Hf | Hf]]; congruence.
  - rewrite resolve_unanswered. rewrite make_want_none. split.
    + intros (Hp & Hkeys & Hw & -> & ->). repeat split; try assumption.
      destruct Hw as [[_ H] | [_ H]]; [left | right]; exact H.
    + intros (_ & _ & _ & _ & Hp & Hkeys & Hw & -> & ->). repeat split; try assumption.
      destruct Hw as [H | H]; [left | right]; split; assumption.
Qed.

(** A city sent as a number, API-first on: no answer, nothing contacted. *)
Lemma unanswered_iff_witness :
  zestimate_route api_env silent_world
    {| x_api_key := None;
       req_body := VObj [ ("address", VStr "1 Elm St"); ("city", VNum 7);
                          ("state", VStr "NV") ] |}
  = (Unanswered type_error, []).
Proof.
  apply (proj2 (unanswered_iff api_env silent_world
                  {| x_api_key := None;
                     req_body := VObj [ ("address", VStr "1 Elm St"); ("city", VNum 7);
                                        ("state", VStr "NV") ] |}
                  type_error [] eq_refl eq_refl eq_refl eq_refl
                  ltac:(intros tr url ok data H; discriminate H))).
  repeat split. left. discriminate.
Defined.

(** ** The route: where an answer comes from *)

Lemma sent_zpid_of_hit (cand : shape) (a : string) (data : value) :
  V.get (body (sendExpanded (make_hit cand a data))) "zpid" = essential data "zpid".
Proof.
  change (V.get (body (sendExpanded (make_hit cand a data))) "zpid")
    with (V.coalesce (essential data "zpid")
            (pick (V.or data (VObj [])) ["zpid"; "result.zpid"; "data.zpid"])).
  destruct (essential_cases data "zpid") as [Hp | (Hnull & H1 & H2 & H3)];
    [unfold V.coalesce; rewrite Hp; reflexivity |].
  rewrite Hnull. unfold V.coalesce. cbn [V.nullish].
  pose proof (walk_one_nullish data "zpid" eq_refl H1) as W1.
  pose proof (walk_two_nullish data "result" "zpid" eq_refl H2) as W2.
  pose proof (walk_two_nullish data "data" "zpid" eq_refl H3) as W3.
  cbn [append] in W2, W3.
  cbn [pick]. unfold present. rewrite W1, W2, W3. reflexivity.
Qed.

Lemma sent_property_url (out : api_hit) :
  V.get (body (sendExpanded out)) "property_url" = hit_property_url out.
Proof. reflexivity. Qed.

Lemma sent_source (out : api_hit) :
  V.get (body (sendExpanded out)) "source" = VStr ("rapidapi-fallback " ++ tried out).
Proof. reflexivity. Qed.

Lemma zillow_url_absolute (rawUrl : value) : absolute_or_null (zillow_url rawUrl) = true.
Proof.
  unfold zillow_url. destruct (V.truthy rawUrl) eqn:Ht; [| reflexivity].
  destruct (Js.startsWith (V.to_string rawUrl) "http") eqn:Hs; [| reflexivity].
  destruct rawUrl; solve [discriminate Ht | exact Hs].
Qed.

Lemma absolute_http (d : string) : Js.startsWith (absolute d) "http" = true.
Proof. unfold absolute. apply detailUrl_absolute. Qed.

Section RouteProvenance.

Variable E : environment.
Variable W : world.
Variables address city state zip : value.

Local Abbreviation provenance_ := (provenance E W address city state zip).
Local Abbreviation searchUrl_ := (buildSearchUrl address city state zip).

Lemma lookup_hit_provenance tr tr' out :
  rapidApiLookupStrict E W address city state zip tr = (Ok (ApiOk out), tr') ->
  provenance_ (sendExpanded out).
Proof.
  intro H. destruct (lookup_run E W address city state zip tr) as (n & _ & _ & _ & Hhit).
  rewrite H in Hhit. destruct (Hhit out eq_refl)
    as (w & m & a & cand & data & Hw & _ & Hnth & _ & Hacc & ->).
  apply nth_error_In, in_prod_iff in Hnth. destruct Hnth as [Ha Hc].
  apply from_api with (w := w); try assumption.
  destruct (keys_set E) eqn:Hk; [reflexivity |].
  unfold rapidApiLookupStrict in H. rewrite keys_set_lookup_guard, Hk in H.
  discriminate H.
Qed.

(** The answer of [open_detail] reports the score it was given. *)
Lemma open_detail_answer best score tr r tr' :
  open_detail W address city state zip best score tr = (Ok r, tr') ->
  exists d,
    V.get best "detailUrl" = VStr d /\
    r = scrape_response searchUrl_ (absolute d) score
          (read_detail (page W tr (absolute d))).
Proof.
  unfold open_detail.
  destruct (V.get best "detailUrl") as [| | b | n | d | items | fields];
    try discriminate.
  fold (absolute d).
  destruct (page W tr (absolute d)) as [msg | | parsed] eqn:Hp;
    try discriminate; intros [= <- _]; exists d;
    (split; [reflexivity | rewrite Hp; reflexivity]).
Qed.

(** The answer that follows a data blob: a no-match answer, or the
    scrape answer for the best result, with that result's score. *)
Lemma after_blob_answer parsed tr r tr' :
  after_blob W address city state zip parsed tr = (Ok r, tr') ->
  (exists note, r = no_match searchUrl_ note) \/
  exists results d,
    find_listResults parsed = VArr results /\
    results <> [] /\
    V.get (fst (pickBestSearchResult results address city)) "detailUrl" = VStr d /\
    r = scrape_response searchUrl_ (absolute d)
          (snd (pickBestSearchResult results address city))
          (read_detail (page W tr (absolute d))).
Proof.
  unfold after_blob.
  destruct (find_listResults parsed) as [| | b | n | u | [| x xs] | fields];
    try (intros [= <- _]; left; eexists; reflexivity).
  destruct (pickBestSearchResult (x :: xs) address city) as [best score] eqn:Hp.
  destruct (negb (V.truthy best) || negb (V.truthy (V.get best "detailUrl")))%bool.
  - intros [= <- _]. left. eexists. reflexivity.
  - intro H. right. destruct (open_detail_answer best score tr r tr' H) as (d & Hd & ->).
    exists (x :: xs), d. rewrite Hp. repeat split; [discriminate | exact Hd].
Qed.

Lemma without_blob_provenance tr r tr' :
  without_blob E W address city state zip tr = (Ok r, tr') -> provenance_ r.
Proof.
  unfold without_blob. destruct (keys_set E).
  - destruct (rapidApiLookupStrict E W address city state zip tr)
      as [[[out | reason] | msg] tr1] eqn:Hl; try discriminate; intros [= <- _].
    + eapply lookup_hit_provenance. exact Hl.
    + apply from_no_match. left. reflexivity.
  - intros [= <- _]. apply from_no_match. right. reflexivity.
Qed.

Lemma scrape_provenance tr r tr' :
  scrape E W address city state zip tr = (Ok r, tr') -> provenance_ r.
Proof.
  unfold scrape.
  destruct (page W tr searchUrl_) as [msg | | parsed] eqn:Hpage.
  - discriminate.
  - apply without_blob_provenance.
  - intro H. apply after_blob_answer in H.
    destruct H as [(note & ->) | (results & d & Hl & Hne & Hd & ->)].
    + apply from_no_match. right. reflexivity.
    + exact (from_page E W address city state zip tr parsed results d Hpage Hl Hne Hd).
Qed.

Lemma browse_provenance tr :
  provenance_ (fst (browse E W address city state zip tr)).
Proof.
  unfold browse. destruct (launch W tr) as [msg |]; [apply from_failure |].
  destruct (scrape E W address city state zip (emit tr ELaunch))
    as [[r | msg] tr1] eqn:Hs; cbn [fst].
  - eapply scrape_provenance. exact Hs.
  - apply from_failure.
Qed.

Lemma resolve_provenance tr r tr' :
  resolve E W address city state zip tr = (Sent r, tr') -> provenance_ r.
Proof.
  unfold resolve.
  destruct ((match PREFER_API_FIRST E with
             | Some s => String.eqb s "1"
             | None => false
             end) && keys_set E)%bool.
  - destruct (rapidApiLookupStrict E W address city state zip tr)
      as [[[out | reason] | msg] tr1] eqn:Hl; try discriminate.
    + intros [= <- _]. eapply lookup_hit_provenance. exact Hl.
    + pose proof (browse_provenance tr1) as Hb.
      destruct (browse E W address city state zip tr1) as [r1 tr2].
      intros [= <- _]. exact Hb.
  - pose proof (browse_provenance tr) as Hb.
    destruct (browse E W address city state zip tr) as [r1 tr2].
    intros [= <- _]. exact Hb.
Qed.

End RouteProvenance.

(** X8. Every answer with [ok: true] reports a [property_url] that is
    [null] or absolute: the scrape path prefixes a relative [detailUrl]
    with the Zillow origin, the API path does the same with the URL of
    the payload. *)
Theorem property_url_absolute (E : environment) (W : world) (req : request)
    (r : response) (tr : trace) :
  zestimate_route E W req = (Sent r, tr) ->
  V.get (body r) "ok" = VBool true ->
  absolute_or_null (V.get (body r) "property_url") = true.
Proof.
  intros Hr Hok.
  destruct (route_cases E W req) as [[_ H] | [(_ & _ & H) | (_ & _ & _ & _ & H)]];
    rewrite H in Hr.
  - injection Hr as <- _. discriminate Hok.
  - injection Hr as <- _. discriminate Hok.
  - apply resolve_provenance in Hr.
    destruct Hr as [msg | source note _ | w a cand data _ _ _ _ _
                   | hist parsed results d _ _ _ _].
    + discriminate Hok.
    + reflexivity.
    + rewrite sent_property_url. apply zillow_url_absolute.
    + apply absolute_http.
Qed.

Lemma property_url_absolute_witness :
  exists r tr,
    zestimate_route api_env street_world (query "123 Main St" "Springfield" "IL" "62704")
    = (Sent r, tr) /\
    V.get (body r) "property_url"
    = VStr "https://www.zillow.com/homedetails/2077_zpid/" /\
    absolute_or_null (V.get (body r) "property_url") = true.
Proof.
  eexists. eexists. split; [vm_compute; reflexivity |].
  split; [reflexivity |].
  eapply (property_url_absolute api_env street_world
            (query "123 Main St" "Springfield" "IL" "62704")).
  - vm_compute. reflexivity.
  - reflexivity.
Defined.

Lemma no_match_not_api_answer (address city state zip : value) (source note : string) :
  source = "rapidapi-fallback" \/ source = buildSearchUrl address city state zip ->
  Js.startsWith (V.to_string (V.get (body (no_match source note)) "source"))
    "rapidapi-fallback " = false.
Proof. intros [-> | ->]; reflexivity. Qed.

(** X9. An answer whose [source] starts with [rapidapi-fallback] and a
    blank is built by [sendExpanded] from a payload that passed the
    strict check, fetched for one of the address variants on one of the
    five endpoint shapes; the [source] names both. Its [zestimate] and
    [zpid] are the essentials the check looked at, so one of them is
    truthy. Such answers only occur with both RapidAPI settings. *)
Theorem api_answer_sound (E : environment) (W : world) (req : request)
    (r : response) (tr : trace) :
  zestimate_route E W req = (Sent r, tr) ->
  Js.startsWith (V.to_string (V.get (body r) "source")) "rapidapi-fallback " = true ->
  exists w a cand data,
    keys_set E = true /\
    make_want (field req "city") (field req "state") (field req "zip") = Some w /\
    In a (generateAddressVariants (field req "address")) /\
    In cand candidates /\
    acceptable w data = true /\
    r = sendExpanded (make_hit cand a data) /\
    V.get (body r) "source"
    = VStr ("rapidapi-fallback " ++ path cand ++ " | addr=" ++ dquote ++ a ++ dquote) /\
    V.get (body r) "zestimate" = essential data "zestimate" /\
    V.get (body r) "zpid" = essential data "zpid" /\
    V.truthy (V.or (V.get (body r) "zestimate") (V.get (body r) "zpid")) = true.
Proof.
  intros Hr Hsrc.
  destruct (route_cases E W req) as [[_ H] | [(_ & _ & H) | (_ & _ & _ & _ & H)]];
    rewrite H in Hr.
  - injection Hr as <- _. discriminate Hsrc.
  - injection Hr as <- _. discriminate Hsrc.
  - apply resolve_provenance in Hr.
    destruct Hr as [msg | source note Hs | w a cand data Hk Hw Ha Hc Hacc
                   | hist parsed results d _ _ _ _].
    + discriminate Hsrc.
    + rewrite (no_match_not_api_answer _ _ _ _ _ note Hs) in Hsrc. discriminate Hsrc.
    + exists w, a, cand, data. repeat split; try assumption.
      * apply sent_zestimate_of_hit.
      * apply sent_zpid_of_hit.
      * rewrite sent_zestimate_of_hit, sent_zpid_of_hit.
        apply acceptable_has_essentials with (w := w). exact Hacc.
    + discriminate Hsrc.
Qed.

Lemma api_answer_sound_witness :
  exists r tr,
    zestimate_route api_env street_world (query "123 Main St" "Springfield" "IL" "62704")
    = (Sent r, tr) /\
    V.get (body r) "zestimate" = VNum 250000 /\
    V.truthy (V.or (V.get (body r) "zestimate") (V.get (body r) "zpid")) = true.
Proof.
  eexists. eexists. split; [vm_compute; reflexivity |].
  split; [reflexivity |].
  destruct (api_answer_sound api_env street_world
              (query "123 Main St" "Springfield" "IL" "62704") _ _
              ltac:(vm_compute; reflexivity) eq_refl)
    as (w & a & cand & data & _ & _ & _ & _ & _ & _ & _ & _ & _ & H).
  exact H.
Defined.

(** ** The confidence policy *)

Lemma best_score (results : list value) (address city : value) :
  results <> [] ->
  snd (pickBestSearchResult results address city)
  = score_of (norm address) (norm city)
      (fst (pickBestSearchResult results address city)) /\
  0 <= snd (pickBestSearchResult results address city) <= 3.
Proof.
  intro Hne.
  destruct (pick_loop_first_best (norm address) (norm city) results Hne)
    as (i & _ & Hs & _).
  fold (pickBestSearchResult results address city) in Hs.
  split; [exact Hs | rewrite Hs; apply score_of_range].
Qed.

(** C7. On the scrape path the zestimate sent is [null] or a truthy
    value, and the confidence is 90 when it is there and the larger of
    20 and ten times the fuzzy score when it is not. On the API path
    the confidence is 85 when the zestimate sent is truthy and 60
    otherwise; for a hit of the strict lookup the zestimate sent is the
    payload's own. Every answer the route sends after the
    required-fields check is an error report, the empty no-match answer,
    an API answer or a scrape answer; the score of a scrape answer is
    the one [pickBestSearchResult] returned for the results of the
    search page visited, which is the score of the result selected, and
    the confidence sent is computed from that score. *)
Theorem C7_confidence_policy :
  (forall searchUrl detailUrl score o,
      (V.get (body (scrape_response searchUrl detailUrl score (read_detail o)))
         "zestimate" = VNull \/
       V.truthy
         (V.get (body (scrape_response searchUrl detailUrl score (read_detail o)))
            "zestimate") = true) /\
      V.get (body (scrape_response searchUrl detailUrl score (read_detail o)))
        "match_confidence" =
      VNum (if is_null
                 (V.get (body (scrape_response searchUrl detailUrl score (read_detail o)))
                    "zestimate")
            then Z.max 20 (score * 10) else 90)) /\
  (forall out,
      V.get (body (sendExpanded out)) "match_confidence" =
      VNum (if V.truthy (V.get (body (sendExpanded out)) "zestimate")
            then 85 else 60)) /\
  (forall cand a data,
      V.get (body (sendExpanded (make_hit cand a data))) "zestimate"
      = essential data "zestimate" /\
      V.get (body (sendExpanded (make_hit cand a data))) "match_confidence"
      = VNum (if V.truthy (essential data "zestimate") then 85 else 60)) /\
  (forall E W address city state zip tr r tr',
      resolve E W address city state zip tr = (Sent r, tr') ->
      resolved (buildSearchUrl address city state zip) r) /\
  (forall E W address city state zip tr r tr',
      resolve E W address city state zip tr = (Sent r, tr') ->
      provenance E W address city state zip r) /\
  (forall W address city state zip parsed tr r tr',
      after_blob W address city state zip parsed tr = (Ok r, tr') ->
      V.get (body r) "property_url" <> VNull ->
      exists results,
        find_listResults parsed = VArr results /\
        results <> [] /\
        snd (pickBestSearchResult results address city)
        = score_of (norm address) (norm city)
            (fst (pickBestSearchResult results address city)) /\
        V.get (body r) "match_confidence" =
        VNum (if is_null (V.get (body r) "zestimate")
              then Z.max 20 (snd (pickBestSearchResult results address city) * 10)
              else 90)).
Proof.
  assert (forall searchUrl detailUrl score o,
      (V.get (body (scrape_response searchUrl detailUrl score (read_detail o)))
         "zestimate" = VNull \/
       V.truthy
         (V.get (body (scrape_response searchUrl detailUrl score (read_detail o)))
            "zestimate") = true) /\
      V.get (body (scrape_response searchUrl detailUrl score (read_detail o)))
        "match_confidence" =
      VNum (if is_null
                 (V.get (body (scrape_response searchUrl detailUrl score (read_detail o)))
                    "zestimate")
            then Z.max 20 (score * 10) else 90)) as Hscrape.
  { intros searchUrl detailUrl score o.
    destruct (scrape_response_fields searchUrl detailUrl score (read_detail o))
      as (_ & _ & Hz & Hc).
    rewrite Hz, Hc. split; [apply read_detail_zestimate |].
    unfold scrape_confidence. rewrite or_zero.
    destruct (read_detail_zestimate o) as [Hnull | Ht].
    + rewrite Hnull. reflexivity.
    + rewrite Ht. destruct (d_zestimate (read_detail o)); simpl in *;
        solve [reflexivity | discriminate]. }
  split; [exact Hscrape |]. split; [| split; [| split; [| split]]].
  - intro out. apply sendExpanded_fields.
  - intros cand a data. split; [apply sent_zestimate_of_hit |].
    destruct (sendExpanded_fields (make_hit cand a data)) as (_ & _ & Hc).
    rewrite Hc, sent_zestimate_of_hit. reflexivity.
  - intros E W address city state zip tr r tr'. apply resolve_resolved.
  - intros E W address city state zip tr r tr'. apply resolve_provenance.
  - intros W address city state zip parsed tr r tr' H Hurl.
    apply after_blob_answer in H.
    destruct H as [(note & ->) | (results & d & Hl & Hne & Hd & ->)];
      [exfalso; apply Hurl; reflexivity |].
    exists results. split; [exact Hl |]. split; [exact Hne |].
    split; [apply best_score, Hne | apply Hscrape].
Qed.

(** One listing that contains the query address and city, and a detail
    page without data: score 3, confidence 30. *)
Lemma C7_confidence_policy_witness :
  exists r tr results,
    after_blob bare_listing_world
      (VStr "123 Main St") (VStr "Springfield") (VStr "IL") (VStr "62704")
      listing_blob [] = (Ok r, tr) /\
    V.get (body r) "match_confidence" = VNum 30 /\
    find_listResults listing_blob = VArr results /\
    V.get (body r) "match_confidence" =
    VNum (if is_null (V.get (body r) "zestimate")
          then Z.max 20
                 (snd (pickBestSearchResult results (VStr "123 Main St")
                         (VStr "Springfield")) * 10)
          else 90).
Proof.
  assert (exists r tr,
             after_blob bare_listing_world
               (VStr "123 Main St") (VStr "Springfield") (VStr "IL") (VStr "62704")
               listing_blob [] = (Ok r, tr) /\
             V.get (body r) "property_url" <> VNull /\
             V.get (body r) "match_confidence" = VNum 30)
    as (r & tr & H & Hurl & H30).
  { eexists. eexists. split; [vm_compute; reflexivity |].
    split; [discriminate | reflexivity]. }
  destruct (proj2 (proj2 (proj2 (proj2 (proj2 C7_confidence_policy))))
              bare_listing_world (VStr "123 Main St") (VStr "Springfield") (VStr "IL")
              (VStr "62704") listing_blob [] r tr H Hurl)
    as (results & Hl & _ & _ & Hc).
  exists r, tr, results. auto.
Defined.

(** ** The detail page: which candidate supplies a value *)

Lemma detail_step_zpid (acc : detail) (c : value) :
  d_zpid (detail_step acc c) =
  if (V.truthy (fst (extractZpidAndZestimate c)) && negb (V.truthy (d_zpid acc)))%bool
  then fst (extractZpidAndZestimate c) else d_zpid acc.
Proof. unfold detail_step. destruct (extractZpidAndZestimate c). reflexivity. Qed.

Lemma detail_step_zestimate (acc : detail) (c : value) :
  d_zestimate (detail_step acc c) =
  if (V.truthy (snd (extractZpidAndZestimate c)) && negb (V.truthy (d_zestimate acc)))%bool
  then snd (extractZpidAndZestimate c) else d_zestimate acc.
Proof. unfold detail_step. destruct (extractZpidAndZestimate c). reflexivity. Qed.

Lemma detail_step_extras (acc : detail) (c : value) :
  d_extras (detail_step acc c) =
  map (fun fv => if is_null (snd fv) then pick c (snd (fst fv)) else snd fv)
      (combine extra_fields (d_extras acc)).
Proof. unfold detail_step. destruct (extractZpidAndZestimate c). reflexivity. Qed.

(** A variable that is only assigned while it is falsy, from the values
    [f c] that are truthy. *)
Lemma first_truthy_fold (f : value -> value) (get : detail -> value) :
  (forall acc c,
      get (detail_step acc c) =
      if (V.truthy (f c) && negb (V.truthy (get acc)))%bool then f c else get acc) ->
  forall cs acc,
    get (fold_left detail_step cs acc) =
    match find V.truthy (get acc :: map f cs) with
    | Some v => v
    | None => get acc
    end.
Proof.
  intros Hstep cs. induction cs as [| c cs IH]; intro acc.
  - cbn [fold_left map find]. destruct (V.truthy (get acc)); reflexivity.
  - cbn [fold_left]. rewrite IH, Hstep. cbn [map find].
    destruct (V.truthy (get acc)) eqn:Ha.
    + rewrite andb_false_r. rewrite Ha. reflexivity.
    + rewrite andb_true_r. destruct (V.truthy (f c)) eqn:Hc.
      * rewrite Hc. reflexivity.
      * rewrite Ha. reflexivity.
Qed.

Lemma combine_map_combine {A B : Type} (g : A * B -> B) (F : list A) (X : list B) :
  combine F (map g (combine F X)) = map (fun fv => (fst fv, g fv)) (combine F X).
Proof.
  revert X. induction F as [| f F IH]; intros X; [reflexivity |].
  destruct X as [| x X]; [reflexivity |].
  cbn [combine map fst]. rewrite IH. reflexivity.
Qed.

Lemma is_null_eq (v : value) : is_null v = true -> v = VNull.
Proof. destruct v; solve [reflexivity | discriminate]. Qed.

Lemma combine_keeps (F : list (string * list string)) (X : list value) :
  (List.length X <= List.length F)%nat ->
  map (fun fv : string * list string * value =>
         match find (fun v => negb (is_null v)) [snd fv] with
         | Some v => v
         | None => VNull
         end)
      (combine F X) = X.
Proof.
  revert X. induction F as [| f F IH]; intros X H.
  - destruct X; [reflexivity | cbn in H; lia].
  - destruct X as [| x X]; [reflexivity |].
    cbn [combine map snd find]. cbn [List.length] in H.
    rewrite IH by lia. f_equal.
    destruct (is_null x) eqn:Hx; [symmetry; apply is_null_eq, Hx | reflexivity].
Qed.

Lemma extras_fold (cs : list value) (acc : detail) :
  (List.length (d_extras acc) <= List.length extra_fields)%nat ->
  d_extras (fold_left detail_step cs acc) =
  map (fun fv : string * list string * value =>
         match find (fun v => negb (is_null v))
                 (snd fv :: map (fun c => pick c (snd (fst fv))) cs) with
         | Some v => v
         | None => VNull
         end)
      (combine extra_fields (d_extras acc)).
Proof.
  revert acc. induction cs as [| c cs IH]; intros acc Hlen.
  - cbn [fold_left map]. symmetry. apply combine_keeps. exact Hlen.
  - cbn [fold_left]. rewrite IH.
    + rewrite detail_step_extras, combine_map_combine, map_map.
      apply map_ext. intros [f x]. cbn [fst snd map find].
      destruct (is_null x) eqn:Hx; cbv iota; rewrite ?Hx; reflexivity.
    + rewrite detail_step_extras, length_map, length_combine. lia.
Qed.

(** X10. The loop over the candidates of the detail page. The zpid and
    the zestimate sent are the first truthy ones that
    [extractZpidAndZestimate] finds, going through the candidates in
    order; each of the six extra fields is the first value other than
    [null] that its paths yield, candidate by candidate. Where no
    candidate has one, the field is [null]. *)
Theorem detail_first_wins (cs : list value) :
  d_zpid (fold_left detail_step cs no_detail)
  = first_truthy (map (fun c => fst (extractZpidAndZestimate c)) cs) /\
  d_zestimate (fold_left detail_step cs no_detail)
  = first_truthy (map (fun c => snd (extractZpidAndZestimate c)) cs) /\
  d_extras (fold_left detail_step cs no_detail)
  = map (fun f => first_non_null (map (fun c => pick c (snd f)) cs)) extra_fields.
Proof.
  split; [| split].
  - rewrite (first_truthy_fold (fun c => fst (extractZpidAndZestimate c)) d_zpid
               detail_step_zpid).
    reflexivity.
  - rewrite (first_truthy_fold (fun c => snd (extractZpidAndZestimate c)) d_zestimate
               detail_step_zestimate).
    reflexivity.
  - rewrite extras_fold by (cbn; lia). reflexivity.
Qed.

(** ** The earlier snapshot *)

Lemma truthy_stays (f : value -> value) (get : detail -> value) :
  (forall acc c,
      get (detail_step acc c) =
      if (V.truthy (f c) && negb (V.truthy (get acc)))%bool then f c else get acc) ->
  forall cs acc,
    V.truthy (get acc) = true -> get (fold_left detail_step cs acc) = get acc.
Proof.
  intros Hstep cs acc Ht. rewrite (first_truthy_fold f get Hstep).
  cbn [find]. rewrite Ht. reflexivity.
Qed.

(** Leaving the loop once both values are found changes neither. *)
Lemma detail_loop_break_agrees (cs : list value) (acc : detail) :
  detail_loop_break cs (d_zpid acc) (d_zestimate acc)
  = (d_zpid (fold_left detail_step cs acc),
     d_zestimate (fold_left detail_step cs acc)).
Proof.
  revert acc. induction cs as [| c cs IH]; intro acc; [reflexivity |].
  cbn [detail_loop_break fold_left].
  pose proof (detail_step_zpid acc c) as Hp.
  pose proof (detail_step_zestimate acc c) as He.
  destruct (extractZpidAndZestimate c) as [zp ze]. cbn [fst snd] in Hp, He.
  cbv zeta. rewrite <- Hp, <- He.
  destruct (V.truthy (d_zpid (detail_step acc c))) eqn:Tp;
    [destruct (V.truthy (d_zestimate (detail_step acc c))) eqn:Te |]; cbn [andb].
  - rewrite (truthy_stays _ d_zpid detail_step_zpid cs _ Tp).
    rewrite (truthy_stays _ d_zestimate detail_step_zestimate cs _ Te).
    reflexivity.
  - apply IH.
  - apply IH.
Qed.

Lemma read_detail_earlier_agrees (o : page_outcome) :
  read_detail_earlier o = (d_zpid (read_detail o), d_zestimate (read_detail o)).
Proof.
  destruct o as [msg | | [detailRoot |]]; try reflexivity.
  exact (detail_loop_break_agrees (detail_candidates detailRoot) no_detail).
Qed.

Lemma drop_extras (names more : list string) (X : list value) :
  incl more names ->
  filter (fun kv : string * value => negb (existsb (String.eqb (fst kv)) names))
    (combine more X) = [].
Proof.
  revert X. induction more as [| k more IH]; intros X Hin; [reflexivity |].
  destruct X as [| x X]; [reflexivity |].
  cbn [combine filter fst].
  assert (existsb (String.eqb k) names = true) as ->.
  { apply existsb_exists. exists k. split; [apply Hin; left; reflexivity |].
    apply String.eqb_refl. }
  cbn [negb]. apply IH. intros y Hy. apply Hin. right. exact Hy.
Qed.

Lemma scrape_response_extends (searchUrl detailUrl : string) (score : Z)
    (o : page_outcome) :
  extends (scrape_response searchUrl detailUrl score (read_detail o))
          (scrape_response_earlier searchUrl detailUrl score (read_detail_earlier o)).
Proof.
  rewrite read_detail_earlier_agrees. split; [reflexivity |].
  unfold scrape_response, scrape_response_earlier, drop_fields. cbn [body fst snd].
  rewrite filter_app, drop_extras by apply incl_refl. reflexivity.
Qed.

Lemma no_match_extends (source note : string) :
  extends (no_match source note) (no_match source note).
Proof. split; reflexivity. Qed.

Lemma error_extends (code : Z) (msg : string) :
  extends (error_response code msg) (error_response code msg).
Proof. split; reflexivity. Qed.

Section EarlierAgrees.

Variable E : environment.
Variable W : world.
Variables address city state zip : value.

Hypothesis no_keys : keys_set E = false.

Lemma open_detail_alike best score tr :
  alike (open_detail W address city state zip best score tr)
        (open_detail_earlier W address city state zip best score tr).
Proof.
  unfold open_detail, open_detail_earlier.
  destruct (V.get best "detailUrl") as [| | b | n | u | items | fields];
    try (split; reflexivity).
  match goal with
  | |- context [page W tr ?u] => destruct (page W tr u) as [msg | | parsed]
  end.
  - split; reflexivity.
  - split; [reflexivity |]. exact (scrape_response_extends _ _ score PageNoBlob).
  - split; [reflexivity |]. exact (scrape_response_extends _ _ score (PageBlob parsed)).
Qed.

Lemma after_blob_alike parsed tr :
  alike (after_blob W address city state zip parsed tr)
        (after_blob_earlier W address city state zip parsed tr).
Proof.
  unfold after_blob, after_blob_earlier.
  destruct (find_listResults parsed) as [| | b | n | u | [| x xs] | fields];
    try (split; [reflexivity | apply no_match_extends]).
  destruct (pickBestSearchResult (x :: xs) address city) as [best score].
  destruct (negb (V.truthy best) || negb (V.truthy (V.get best "detailUrl")))%bool.
  - split; [reflexivity | apply no_match_extends].
  - apply open_detail_alike.
Qed.

Lemma scrape_alike tr :
  alike (scrape E W address city state zip tr)
        (scrape_earlier W address city state zip tr).
Proof.
  unfold scrape, scrape_earlier, without_blob. rewrite no_keys.
  destruct (page W tr (buildSearchUrl address city state zip)) as [msg | | parsed].
  - split; reflexivity.
  - split; [reflexivity | apply no_match_extends].
  - apply after_blob_alike.
Qed.

Lemma browse_alike tr :
  snd (browse E W address city state zip tr)
  = snd (browse_earlier W address city state zip tr) /\
  extends (fst (browse E W address city state zip tr))
          (fst (browse_earlier W address city state zip tr)).
Proof.
  unfold browse, browse_earlier. destruct (launch W tr) as [msg |].
  - split; [reflexivity | apply error_extends].
  - destruct (scrape_alike (emit tr ELaunch)) as [Htr Hr].
    destruct (scrape E W address city state zip (emit tr ELaunch)) as [[r | m] tr1],
             (scrape_earlier W address city state zip (emit tr ELaunch))
               as [[r1 | m1] tr2];
      cbn [fst snd] in *; try contradiction; subst.
    + split; [reflexivity | exact Hr].
    + split; [reflexivity | apply error_extends].
Qed.

Lemma resolve_alike :
  exists r,
    resolve E W address city state zip [] =
    (Sent r, snd (browse_earlier W address city state zip [])) /\
    extends r (fst (browse_earlier W address city state zip [])).
Proof.
  unfold resolve. rewrite no_keys, andb_false_r.
  destruct (browse_alike []) as [Htr Hr].
  destruct (browse E W address city state zip []) as [r tr1]. cbn [fst snd] in *.
  exists r. subst tr1. split; [reflexivity | exact Hr].
Qed.

End EarlierAgrees.

(** X11. Without the two RapidAPI settings the latest handler behaves
    as the earlier [server.js] does, for the same outcomes of the
    browser: it contacts the same URLs in the same order and sends the
    same status and the same body, to which the scrape answer adds the
    six extra fields. In particular the earlier loop, which leaves as
    soon as zpid and zestimate are both found, and the latest one,
    which always visits every candidate, find the same two values. *)
Theorem earlier_route_agrees (E : environment) (W : world) (req : request) :
  keys_set E = false ->
  exists r,
    zestimate_route E W req = (Sent r, snd (zestimate_route_earlier E W req)) /\
    extends r (fst (zestimate_route_earlier E W req)).
Proof.
  intro Hk. unfold zestimate_route_earlier.
  destruct (route_cases E W req)
    as [[Hc ->] | [(Hc & Hf & ->) | (Hc & Ha & Hcity & Hs & ->)]]; rewrite Hc;
    cbn [negb]; cbv zeta.
  - eexists. split; [reflexivity | apply error_extends].
  - assert ((negb (V.truthy (V.get (V.or (req_body req) (VObj [])) "address"))
             || negb (V.truthy (V.get (V.or (req_body req) (VObj [])) "city"))
             || negb (V.truthy (V.get (V.or (req_body req) (VObj [])) "state")))%bool
            = true) as ->.
    { unfold field in Hf. destruct Hf as [-> | [-> | ->]]; cbn [negb orb];
        rewrite ?orb_true_r; reflexivity. }
    eexists. split; [reflexivity | apply error_extends].
  - unfold field in *. rewrite Ha, Hcity, Hs. cbn [negb orb].
    apply resolve_alike. exact Hk.
Qed.

(** A listing found and opened: both snapshots visit the same two
    pages and report the same zpid, zestimate and confidence. *)
Lemma earlier_route_agrees_witness :
  exists r,
    zestimate_route no_env listing_world
      (query "123 Main St" "Springfield" "IL" "62704")
    = (Sent r, snd (zestimate_route_earlier no_env listing_world
                      (query "123 Main St" "Springfield" "IL" "62704"))) /\
    extends r (fst (zestimate_route_earlier no_env listing_world
                      (query "123 Main St" "Springfield" "IL" "62704"))).
Proof.
  apply (earlier_route_agrees no_env listing_world
           (query "123 Main St" "Springfield" "IL" "62704")).
  reflexivity.
Defined.

Example earlier_route_listing :
  fst (zestimate_route_earlier no_env listing_world
         (query "123 Main St" "Springfield" "IL" "62704"))
  = {| status := 200;
       body := VObj
         [ ("ok", VBool true);
           ("source",
            VStr (buildSearchUrl (VStr "123 Main St") (VStr "Springfield")
                    (VStr "IL") (VStr "62704")));
           ("property_url", VStr "https://www.zillow.com/homedetails/2077_zpid/");
           ("zpid", VNum 2077); ("zestimate", VNum 250000);
           ("match_confidence", VNum 90) ] |}.
Proof. vm_compute. reflexivity. Qed.

(** ** The strict verdict across snapshots *)


(** A payload of the right city without zestimate or zpid: accepted by
    the earlier strict lookup, rejected by the latest. *)
Example acceptable_stricter :
  acceptable_earlier {| want_city := "reno"; want_state := "nv"; want_zip := "" |}
    (VObj [("city", VStr "Reno"); ("state", VStr "NV")]) = true /\
  acceptable {| want_city := "reno"; want_state := "nv"; want_zip := "" |}
    (VObj [("city", VStr "Reno"); ("state", VStr "NV")]) = false.
Proof. split; reflexivity. Qed.

(** ** What [extractZpidAndZestimate] can return *)

Lemma digits_value_nonneg (s : string) (acc : Z) :
  0 <= acc -> 0 <= Js.digits_value acc s.
Proof.
  revert acc. induction s as [| c r IH]; intros acc H; [exact H |].
  cbn [Js.digits_value]. apply IH. lia.
Qed.

Lemma digit_value_small (c : ascii) :
  Js.is_digit c = true -> (Js.code c - 48 <= 9)%nat.
Proof.
  unfold Js.is_digit, Js.between. intro H. apply andb_prop in H.
  destruct H as [_ H]. apply Nat.leb_le in H. lia.
Qed.

Lemma digits_value_bound (s : string) (acc : Z) :
  Js.forallb_str Js.is_digit s = true -> 0 <= acc ->
  Js.digits_value acc s < (acc + 1) * 10 ^ Z.of_nat (String.length s).
Proof.
  revert acc. induction s as [| c r IH]; intros acc Hd Hacc.
  - cbn. lia.
  - cbn [Js.forallb_str] in Hd. apply andb_prop in Hd. destruct Hd as [Hc Hr].
    cbn [Js.digits_value String.length].
    pose proof (digit_value_small c Hc) as Hsmall.
    assert (0 <= 10 * acc + Z.of_nat (Js.code c - 48)) as Hnext by lia.
    pose proof (IH _ Hr Hnext) as Hb.
    rewrite Nat2Z.inj_succ, Z.pow_succ_r by lia.
    assert (0 < 10 ^ Z.of_nat (String.length r)) as Hpos
      by (apply Z.pow_pos_nonneg; lia).
    nia.
Qed.

Lemma take_digits (p : ascii -> bool) (n : nat) (s : string) :
  Js.forallb_str p s = true ->
  Js.forallb_str p (take n s) = true /\ (String.length (take n s) <= n)%nat.
Proof.
  revert s. induction n as [| n IH]; intros s H.
  - destruct s; split; cbn; solve [reflexivity | lia].
  - destruct s as [| c r]; [split; cbn; [reflexivity | lia] |].
    cbn [Js.forallb_str] in H. apply andb_prop in H. destruct H as [Hc Hr].
    destruct (IH r Hr) as [H1 H2]. cbn [take Js.forallb_str String.length].
    rewrite Hc, H1. split; [reflexivity | lia].
Qed.

Lemma search_some {A : Type} (f : string -> option A) (s : string) (a : A) :
  search f s = Some a -> exists t, f t = Some a.
Proof.
  induction s as [| c r IH]; cbn [search].
  - destruct (f "") eqn:H; [| discriminate]. intros [= <-]. exists "". exact H.
  - destruct (f (String c r)) eqn:H.
    + intros [= <-]. exists (String c r). exact H.
    + exact IH.
Qed.

Lemma span_digits (s : string) :
  Js.forallb_str Js.is_digit (fst (Js.span Js.is_digit s)) = true.
Proof.
  destruct (Js.span Js.is_digit s) as [a b] eqn:H.
  apply span_decomposed in H. apply H.
Qed.

Lemma scan_zestimate_range (asStr : string) (n : Z) :
  scan_zestimate asStr = Some n -> 0 <= n <= 999999999.
Proof.
  unfold scan_zestimate. intro H. apply search_some in H. destruct H as (t & H).
  destruct (after_key "zestimate" t) as [r |]; [| discriminate].
  cbv zeta in H.
  destruct (Nat.leb 4 (String.length (fst (Js.span Js.is_digit r)))); [| discriminate].
  assert (n = Js.digits_value 0 (take 9 (fst (Js.span Js.is_digit r)))) as ->
    by congruence.
  destruct (take_digits Js.is_digit 9 _ (span_digits r)) as [Hd Hlen].
  split; [apply digits_value_nonneg; lia |].
  pose proof (digits_value_bound _ 0 Hd (Z.le_refl 0)) as Hb.
  assert (10 ^ Z.of_nat (String.length (take 9 (fst (Js.span Js.is_digit r))))
          <= 10 ^ 9) as Hp by (apply Z.pow_le_mono_r; lia).
  change (10 ^ 9) with 1000000000 in Hp.
  set (p := 10 ^ Z.of_nat (String.length (take 9 (fst (Js.span Js.is_digit r))))) in *.
  lia.
Qed.

Lemma scan_zpid_nonneg (asStr : string) (n : Z) :
  scan_zpid asStr = Some n -> 0 <= n.
Proof.
  unfold scan_zpid. intro H. apply search_some in H. destruct H as (t & H).
  destruct (after_key "zpid" t) as [r |]; [| discriminate].
  cbv zeta in H.
  match type of H with
  | (if ?b then _ else _) = _ => destruct b; [| discriminate]
  end.
  injection H as <-. apply digits_value_nonneg. lia.
Qed.

Lemma digits_or_null_shape (v : value) :
  digits_or_null v = VNull \/ exists n, digits_or_null v = VNum n /\ 0 < n.
Proof.
  unfold digits_or_null.
  pose proof (digits_value_nonneg (Js.keep Js.is_digit (V.to_string v)) 0
                (Z.le_refl 0)).
  destruct (Z.eqb_spec (Js.digits_value 0 (Js.keep Js.is_digit (V.to_string v))) 0);
    [left; reflexivity | right]. eexists. split; [reflexivity | lia].
Qed.

(** X13. What [extractZpidAndZestimate] returns. The zpid is [null] or
    a number that is not negative, also when the page gives it as a
    string. The zestimate is [null] or a number; when it is not the
    number found under the structured paths, it was read by the scan
    of the serialised object and lies between 0 and 999,999,999: the
    scan stops after nine digits. A truthy number under the structured
    paths is returned as it is. *)
Theorem extract_shapes (anyObj : value) :
  (fst (extractZpidAndZestimate anyObj) = VNull \/
   exists n, fst (extractZpidAndZestimate anyObj) = VNum n /\ 0 <= n) /\
  (snd (extractZpidAndZestimate anyObj) = VNull \/
   exists n, snd (extractZpidAndZestimate anyObj) = VNum n /\
             (tryPaths anyObj zestimate_paths = VNum n \/ 0 <= n <= 999999999)) /\
  (forall n, V.truthy anyObj = true -> n <> 0 ->
             tryPaths anyObj zestimate_paths = VNum n ->
             snd (extractZpidAndZestimate anyObj) = VNum n).
Proof.
  unfold extractZpidAndZestimate.
  destruct (V.truthy anyObj) eqn:Ht; cbn [negb].
  2:{ split; [left; reflexivity | split; [left; reflexivity | discriminate]]. }
  cbv zeta. cbn [fst snd].
  split; [| split].
  - set (z0 := match tryPaths anyObj zpid_paths with
               | VNum _ | VStr _ => digits_or_null (tryPaths anyObj zpid_paths)
               | _ => VNull
               end).
    assert (z0 = VNull \/ exists n, z0 = VNum n /\ 0 < n) as Hz0.
    { unfold z0. destruct (tryPaths anyObj zpid_paths);
        solve [left; reflexivity | apply digits_or_null_shape]. }
    destruct Hz0 as [-> | (n & -> & Hn)].
    + cbn [V.truthy negb].
      destruct (scan_zpid (stringify anyObj)) as [m |] eqn:Hs;
        [right; exists m; split; [reflexivity | eapply scan_zpid_nonneg; exact Hs]
        | left; reflexivity].
    + right. cbn [V.truthy]. destruct (Z.eqb_spec n 0); [lia |]. cbn [negb].
      exists n. split; [reflexivity | lia].
  - destruct (tryPaths anyObj zestimate_paths) as [| | b | n | s | items | fields];
      cbn [V.truthy negb];
      try (destruct (scan_zestimate (stringify anyObj)) as [m |] eqn:Hs;
           [right; exists m; split;
            [reflexivity | right; eapply scan_zestimate_range; exact Hs]
           | left; reflexivity]).
    destruct (Z.eqb_spec n 0) as [-> | Hn]; cbn [negb].
    + destruct (scan_zestimate (stringify anyObj)) as [m |] eqn:Hs.
      * right. exists m. split; [reflexivity |]. right.
        eapply scan_zestimate_range. exact Hs.
      * right. exists 0. split; [reflexivity | left; reflexivity].
    + right. exists n. split; [reflexivity | left; reflexivity].
  - intros n _ Hn ->. cbn [V.truthy]. destruct (Z.eqb_spec n 0); [contradiction |].
    reflexivity.
Qed.

Lemma extract_shapes_witness :
  snd (extractZpidAndZestimate (VObj [("homeInfo", VObj [("zestimate", VNum 250000)])]))
  = VNum 250000.
Proof.
  apply (proj2 (proj2 (extract_shapes
                         (VObj [("homeInfo", VObj [("zestimate", VNum 250000)])])))).
  - reflexivity.
  - discriminate.
  - reflexivity.
Defined.

(** The scan keeps nine digits of a longer number. *)
Example extract_truncates :
  snd (extractZpidAndZestimate
         (VObj [("price", VObj [("zestimate", VNum 12345678901)])]))
  = VNum 123456789.
Proof. vm_compute. reflexivity. Qed.

(** ** [norm] *)

Lemma lowered_word (c : ascii) :
  Js.is_word (Js.lower_char c) = true -> norm_char (Js.lower_char c) = true.
Proof.
  destruct c as [[] [] [] [] [] [] [] []]; intro H;
    solve [reflexivity | discriminate H].
Qed.

Lemma norm_char_fixed (c : ascii) :
  norm_char c = true ->
  Js.lower_char c = c /\ Js.is_word c = true /\ Js.is_space c = false.
Proof.
  destruct c as [[] [] [] [] [] [] [] []]; intro H;
    solve [repeat split | discriminate H].
Qed.

Lemma keep_lowered (s : string) :
  Js.forallb_str norm_char (Js.keep Js.is_word (Js.toLowerCase s)) = true.
Proof.
  induction s as [| c r IH]; [reflexivity |].
  cbn [Js.toLowerCase Js.keep].
  destruct (Js.is_word (Js.lower_char c)) eqn:Hw; [| exact IH].
  cbn [Js.forallb_str]. rewrite (lowered_word c Hw), IH. reflexivity.
Qed.

Lemma norm_chars_fixed (s : string) :
  Js.forallb_str norm_char s = true ->
  Js.toLowerCase s = s /\ Js.keep Js.is_word s = s /\ Js.trim s = s.
Proof.
  intro H.
  assert (Js.toLowerCase s = s /\ Js.keep Js.is_word s = s /\
          Js.trimStart s = s /\ Js.trimEnd s = s) as (H1 & H2 & H3 & H4).
  { induction s as [| c r IH]; [repeat split |].
    cbn [Js.forallb_str] in H. apply andb_prop in H. destruct H as [Hc Hr].
    destruct (norm_char_fixed c Hc) as (Hl & Hw & Hs).
    destruct (IH Hr) as (I1 & I2 & I3 & I4).
    cbn [Js.toLowerCase Js.keep Js.trimStart Js.trimEnd].
    rewrite Hl, Hw, Hs, I1, I2, I4. repeat split. destruct r; reflexivity. }
  unfold Js.trim. rewrite H3, H4. auto.
Qed.

(** X14. [norm] yields only lower-case letters, digits and underscores
    (the underscore is a word character, so it stays), and it is
    idempotent: a normalised text, normalised again, does not change. *)
Theorem norm_canonical (s : value) :
  Js.forallb_str norm_char (norm s) = true /\
  norm (VStr (norm s)) = norm s.
Proof.
  assert (Js.forallb_str norm_char (norm s) = true) as H.
  { unfold norm.
    pose proof (keep_lowered (V.to_string (V.or s (VStr "")))) as Hk.
    rewrite (proj2 (proj2 (norm_chars_fixed _ Hk))). exact Hk. }
  split; [exact H |].
  destruct (norm_chars_fixed _ H) as (H1 & H2 & H3).
  unfold norm at 1. rewrite to_string_of_string, H1, H2, H3. reflexivity.
Qed.

(** ** The path extractors *)

Lemma pick_shape (d : value) (paths : list string) :
  pick d paths = VNull \/ V.nullish (pick d paths) = false.
Proof.
  induction paths as [| p paths IH]; [left; reflexivity |].
  cbn [pick]. unfold present. destruct (V.nullish (walk d p)) eqn:H; cbn [negb].
  - exact IH.
  - right. exact H.
Qed.

(** X15. The path extractors as one loop. [pick] (and [tryPick] of the
    route) is [tryPaths] with [null] for [undefined] when no path
    yields a value; and trying a list of paths in one call is trying
    its parts in turn with [??] between them, which is how
    [sendExpanded] spells the zestimate. *)
Theorem pick_algebra (d : value) (paths more : list string) :
  pick d paths = V.coalesce (tryPaths d paths) VNull /\
  pick d (paths ++ more) = V.coalesce (pick d paths) (pick d more) /\
  V.coalesce (V.coalesce (pick d ["zestimate"]) (pick d ["result.zestimate"]))
    (pick d ["data.zestimate"])
  = pick d ["zestimate"; "result.zestimate"; "data.zestimate"].
Proof.
  assert (forall ps qs, pick d (ps ++ qs) = V.coalesce (pick d ps) (pick d qs)) as Happ.
  { intros ps qs. induction ps as [| p ps IH]; [reflexivity |].
    cbn [app pick]. unfold present.
    destruct (V.nullish (walk d p)) eqn:H; cbn [negb]; [exact IH |].
    unfold V.coalesce. rewrite H. reflexivity. }
  split; [| split].
  - induction paths as [| p paths IH]; [reflexivity |].
    cbn [pick tryPaths]. unfold present.
    destruct (V.nullish (walk d p)) eqn:H; cbn [negb]; [exact IH |].
    unfold V.coalesce. rewrite H. reflexivity.
  - apply Happ.
  - change ["zestimate"; "result.zestimate"; "data.zestimate"]
      with ((["zestimate"] ++ ["result.zestimate"]) ++ ["data.zestimate"])%list.
    rewrite !Happ. reflexivity.
Qed.

(** ** The confidence levels *)

Lemma provenance_confidence (E : environment) (W : world)
    (address city state zip : value) (r : response) :
  provenance E W address city state zip r ->
  V.get (body r) "ok" = VBool true ->
  exists c,
    V.get (body r) "match_confidence" = VNum c /\
    In c [0; 20; 30; 60; 85; 90] /\
    (V.truthy (V.get (body r) "zestimate") = true <-> 85 <= c) /\
    (c = 20 \/ c = 30 ->
     exists hist parsed results,
       page W hist (buildSearchUrl address city state zip) = PageBlob parsed /\
       find_listResults parsed = VArr results /\
       results <> [] /\
       c = Z.max 20 (snd (pickBestSearchResult results address city) * 10) /\
       (c = 30 <-> snd (pickBestSearchResult results address city) = 3)).
Proof.
  intros [msg | source note _ | w a cand data _ _ _ _ _
         | hist parsed results d Hpage Hl Hne Hd] Hok.
  - discriminate Hok.
  - exists 0. cbn. split; [reflexivity |]. split; [auto |].
    split; [split; [discriminate | lia] | intros [H | H]; discriminate H].
  - destruct (sendExpanded_fields (make_hit cand a data)) as (_ & _ & Hc). rewrite Hc.
    destruct (V.truthy (V.get (body (sendExpanded (make_hit cand a data))) "zestimate")).
    + exists 85. cbn [In]. split; [reflexivity |]. split; [auto 10 |].
      split; [split; [lia | reflexivity] | intros [H | H]; discriminate H].
    + exists 60. cbn [In]. split; [reflexivity |]. split; [auto 10 |].
      split; [split; [discriminate | lia] | intros [H | H]; discriminate H].
  - match goal with
    | |- context [scrape_response ?u ?v ?s (read_detail ?o)] =>
        destruct (scrape_response_fields u v s (read_detail o)) as (_ & _ & Hz & Hc)
    end.
    rewrite Hc, Hz. unfold scrape_confidence. rewrite or_zero.
    destruct (best_score results address city Hne) as [_ Hrange].
    destruct (V.truthy (d_zestimate _)).
    + exists 90. cbn [In]. split; [reflexivity |]. split; [auto 10 |].
      split; [split; [lia | reflexivity] | intros [H | H]; discriminate H].
    + exists (Z.max 20 (snd (pickBestSearchResult results address city) * 10)).
      split; [reflexivity |].
      assert (snd (pickBestSearchResult results address city) = 0 \/
              snd (pickBestSearchResult results address city) = 1 \/
              snd (pickBestSearchResult results address city) = 2 \/
              snd (pickBestSearchResult results address city) = 3) as Hcases by lia.
      split; [| split; [split; [discriminate | lia] |]].
      * destruct Hcases as [-> | [-> | [-> | ->]]]; cbn; auto 10.
      * intros _. exists hist, parsed, results.
        repeat split; try assumption; lia.
Qed.

(** X16. The confidence of an answer with [ok: true] is one of 0, 20,
    30, 60, 85 and 90. It is 85 or more exactly when the zestimate sent
    is truthy. A confidence of 20 or 30 belongs to a scrape answer
    without zestimate: it is the larger of 20 and ten times the score
    that [pickBestSearchResult] gave the selected result of the search
    page visited, so 20 for the scores 0, 1 and 2 alike, and 30
    exactly for score 3. *)
Theorem confidence_levels (E : environment) (W : world) (req : request)
    (r : response) (tr : trace) :
  zestimate_route E W req = (Sent r, tr) ->
  V.get (body r) "ok" = VBool true ->
  exists c,
    V.get (body r) "match_confidence" = VNum c /\
    In c [0; 20; 30; 60; 85; 90] /\
    (V.truthy (V.get (body r) "zestimate") = true <-> 85 <= c) /\
    (c = 20 \/ c = 30 ->
     exists hist parsed results,
       page W hist
         (buildSearchUrl (field req "address") (field req "city") (field req "state")
            (field req "zip")) = PageBlob parsed /\
       find_listResults parsed = VArr results /\
       results <> [] /\
       c = Z.max 20
             (snd (pickBestSearchResult results (field req "address")
                     (field req "city")) * 10) /\
       (c = 30 <->
        snd (pickBestSearchResult results (field req "address") (field req "city")) = 3)).
Proof.
  intros Hr Hok.
  destruct (route_cases E W req) as [[_ H] | [(_ & _ & H) | (_ & _ & _ & _ & H)]];
    rewrite H in Hr.
  - injection Hr as <- _. discriminate Hok.
  - injection Hr as <- _. discriminate Hok.
  - apply resolve_provenance in Hr. eapply provenance_confidence; eassumption.
Qed.

(** A listing that contains the query address and city, a detail page
    without data: confidence 30. *)
Lemma confidence_levels_witness :
  exists r tr c,
    zestimate_route no_env bare_listing_world
      (query "123 Main St" "Springfield" "IL" "62704") = (Sent r, tr) /\
    c = 30 /\
    V.get (body r) "match_confidence" = VNum c /\
    In c [0; 20; 30; 60; 85; 90] /\
    (V.truthy (V.get (body r) "zestimate") = true <-> 85 <= c).
Proof.
  assert (exists r tr,
             zestimate_route no_env bare_listing_world
               (query "123 Main St" "Springfield" "IL" "62704") = (Sent r, tr) /\
             V.get (body r) "ok" = VBool true /\
             V.get (body r) "match_confidence" = VNum 30)
    as (r & tr & Hr & Hok & H30).
  { eexists. eexists. split; [vm_compute; reflexivity | split; reflexivity]. }
  destruct (confidence_levels _ _ _ r tr Hr Hok) as (c & Hc & Hin & Hz & _).
  exists r, tr, c. repeat split; try assumption; try apply Hz.
  rewrite H30 in Hc. injection Hc as <-. reflexivity.
Defined.

(** ** The last sale in an API answer *)

Lemma opt_present (o : value) (k : string) :
  V.nullish (V.opt o k) = false -> V.opt o k = V.get o k.
Proof. unfold V.opt. destruct (V.nullish o); [discriminate | reflexivity]. Qed.

Lemma opt_truthy (o : value) (k : string) :
  V.truthy (V.opt o k) = true -> V.opt o k = V.get o k.
Proof. intro H. apply opt_present, truthy_not_nullish, H. Qed.

Lemma find_sold_not_array (h : value) : V.is_array h = false -> find_sold h = VUndef.
Proof. destruct h; solve [reflexivity | discriminate]. Qed.

(** X17. The last sale of an API answer. The price sent is the
    payload's own when that is truthy; otherwise it is the price of
    the first entry of the price history whose event or type mentions
    [sold], when that price is neither [null] nor [undefined].
    Likewise for the date, which must be truthy to be taken from the
    history. The two are derived independently: whether the payload
    has a date plays no part in the price, and conversely. The history
    searched is the one sent. *)
Theorem last_sold_derivation (out : api_hit) :
  V.get (body (sendExpanded out)) "priceHistory"
  = V.or (pick (V.or (hit_data out) (VObj [])) ["priceHistory"; "result.priceHistory"])
         (VArr []) /\
  V.get (body (sendExpanded out)) "lastSoldPrice"
  = (if V.truthy (pick (V.or (hit_data out) (VObj []))
                    ["lastSoldPrice"; "result.lastSoldPrice"])
     then pick (V.or (hit_data out) (VObj [])) ["lastSoldPrice"; "result.lastSoldPrice"]
     else V.coalesce
            (V.opt (find_sold (V.get (body (sendExpanded out)) "priceHistory")) "price")
            (pick (V.or (hit_data out) (VObj []))
               ["lastSoldPrice"; "result.lastSoldPrice"])) /\
  V.get (body (sendExpanded out)) "lastSoldDate"
  = V.or (pick (V.or (hit_data out) (VObj [])) ["lastSoldDate"; "result.lastSoldDate"])
      (V.or (V.opt (find_sold (V.get (body (sendExpanded out)) "priceHistory")) "date")
         (pick (V.or (hit_data out) (VObj [])) ["lastSoldDate"; "result.lastSoldDate"])).
Proof.
  split; [reflexivity |].
  change (V.get (body (sendExpanded out)) "priceHistory")
    with (V.or (pick (V.or (hit_data out) (VObj []))
                  ["priceHistory"; "result.priceHistory"]) (VArr [])).
  set (d := V.or (hit_data out) (VObj [])).
  set (h := V.or (pick d ["priceHistory"; "result.priceHistory"]) (VArr [])).
  set (dp := pick d ["lastSoldPrice"; "result.lastSoldPrice"]).
  set (dd := pick d ["lastSoldDate"; "result.lastSoldDate"]).
  change (V.get (body (sendExpanded out)) "lastSoldPrice")
    with (if ((negb (V.truthy dp) || negb (V.truthy dd)) && V.is_array h
              && negb (V.truthy dp)
              && negb (V.nullish (V.opt (find_sold h) "price")))%bool
          then V.get (find_sold h) "price" else dp).
  change (V.get (body (sendExpanded out)) "lastSoldDate")
    with (if ((negb (V.truthy dp) || negb (V.truthy dd)) && V.is_array h
              && negb (V.truthy dd)
              && V.truthy (V.opt (find_sold h) "date"))%bool
          then V.get (find_sold h) "date" else dd).
  split.
  - destruct (V.truthy dp) eqn:Hp; cbn [negb orb andb].
    + rewrite !andb_false_r. reflexivity.
    + destruct (V.is_array h) eqn:Ha; cbn [andb].
      * unfold V.coalesce.
        destruct (V.nullish (V.opt (find_sold h) "price")) eqn:Hn; cbn [negb];
          [reflexivity | symmetry; apply opt_present, Hn].
      * rewrite (find_sold_not_array h Ha). reflexivity.
  - unfold V.or at 1. destruct (V.truthy dd) eqn:Hd; cbn [negb orb andb].
    + rewrite !andb_false_r. reflexivity.
    + rewrite orb_true_r. destruct (V.is_array h) eqn:Ha; cbn [andb].
      * unfold V.or.
        destruct (V.truthy (V.opt (find_sold h) "date")) eqn:Ht;
          [symmetry; apply opt_truthy, Ht | reflexivity].
      * rewrite (find_sold_not_array h Ha). reflexivity.
Qed.

(** The payload has a date but no price: the price comes from the
    history, the date stays. *)
Example last_sold_from_history :
  let out :=
    make_hit shape_one "1 Elm St"
      (VObj [ ("zpid", VNum 7); ("lastSoldDate", VStr "2019-05-01");
              ("priceHistory",
               VArr [ VObj [("event", VStr "Listed for sale"); ("price", VNum 300000)];
                      VObj [("event", VStr "Sold"); ("price", VNum 280000);
                            ("date", VStr "2020-01-15")] ]) ]) in
  V.get (body (sendExpanded out)) "lastSoldPrice" = VNum 280000 /\
  V.get (body (sendExpanded out)) "lastSoldDate" = VStr "2019-05-01".
Proof. split; reflexivity. Qed.

(** ** The pages the browser visits *)

Section RouteVisits.

Variable E : environment.
Variable W : world.
Variables address city state zip : value.

Local Abbreviation searchUrl_ := (buildSearchUrl address city state zip).
Local Abbreviation listed_ := (listed_detail W address city state zip).

Lemma open_detail_visit best score tr :
  exists evs,
    snd (open_detail W address city state zip best score tr) = (tr ++ evs)%list /\
    forall u, In (EGoto u) evs ->
              exists d, V.get best "detailUrl" = VStr d /\ u = absolute d.
Proof.
  unfold open_detail.
  destruct (V.get best "detailUrl") as [| | b | n | d | items | fields];
    try (exists []; rewrite app_nil_r; split; [reflexivity | intros u []]).
  fold (absolute d).
  destruct (page W tr (absolute d)) as [msg | | parsed];
    (exists [EGoto (absolute d)]; split; [reflexivity |];
     intros u [[= <-] | []]; exists d; split; reflexivity).
Qed.

Lemma after_blob_visit parsed tr :
  exists evs,
    snd (after_blob W address city state zip parsed tr) = (tr ++ evs)%list /\
    forall u, In (EGoto u) evs ->
              exists results d,
                find_listResults parsed = VArr results /\
                first_best (norm address) (norm city) results
                  (pickBestSearchResult results address city) /\
                V.get (fst (pickBestSearchResult results address city)) "detailUrl"
                = VStr d /\
                u = absolute d.
Proof.
  unfold after_blob.
  destruct (find_listResults parsed) as [| | b | n | s | [| x xs] | fields];
    try (exists []; rewrite app_nil_r; split; [reflexivity | intros u []]).
  pose proof (pick_loop_first_best (norm address) (norm city) (x :: xs)
                ltac:(discriminate)) as Hbest.
  fold (pickBestSearchResult (x :: xs) address city) in Hbest.
  destruct (pickBestSearchResult (x :: xs) address city) as [best score] eqn:Hp.
  destruct (negb (V.truthy best) || negb (V.truthy (V.get best "detailUrl")))%bool.
  - exists []. rewrite app_nil_r. split; [reflexivity | intros u []].
  - destruct (open_detail_visit best score tr) as (evs & H & Hv).
    exists evs. split; [exact H |]. intros u Hu.
    destruct (Hv u Hu) as (d & Hd & ->).
    exists (x :: xs), d. rewrite Hp. repeat split; assumption.
Qed.

Lemma without_blob_visit tr :
  exists evs,
    snd (without_blob E W address city state zip tr) = (tr ++ evs)%list /\
    forall u, ~ In (EGoto u) evs.
Proof.
  destruct (without_blob_work E W address city state zip tr) as (evs & H & _ & Ht).
  exists evs. split; [exact H |]. intros u Hu.
  destruct Ht as (_ & Hg & _). unfold count in Hg.
  assert (In (EGoto u) (filter is_goto evs)) as Hin
    by (apply filter_In; split; [exact Hu | reflexivity]).
  destruct (filter is_goto evs); [destruct Hin | cbn in Hg; lia].
Qed.

Lemma scrape_visit tr :
  exists evs,
    snd (scrape E W address city state zip tr) = (tr ++ evs)%list /\
    forall u, In (EGoto u) evs -> u = searchUrl_ \/ listed_ u.
Proof.
  unfold scrape. destruct (page W tr searchUrl_) as [msg | | parsed] eqn:Hpage.
  - exists [EGoto searchUrl_]. split; [reflexivity |].
    intros u [[= <-] | []]. left. reflexivity.
  - destruct (without_blob_visit (emit tr (EGoto searchUrl_))) as (evs & H & Hv).
    exists (EGoto searchUrl_ :: evs). split.
    + rewrite H. unfold emit. rewrite <- app_assoc. reflexivity.
    + intros u [[= <-] | Hu]; [left; reflexivity | destruct (Hv u Hu)].
  - destruct (after_blob_visit parsed (emit tr (EGoto searchUrl_))) as (evs & H & Hv).
    exists (EGoto searchUrl_ :: evs). split.
    + rewrite H. unfold emit. rewrite <- app_assoc. reflexivity.
    + intros u [[= <-] | Hu]; [left; reflexivity | right].
      destruct (Hv u Hu) as (results & d & Hl & Hb & Hd & ->).
      exists tr, parsed, results, d. repeat split; assumption.
Qed.

Lemma browse_visit tr :
  exists evs,
    snd (browse E W address city state zip tr) = (tr ++ evs)%list /\
    forall u, In (EGoto u) evs -> u = searchUrl_ \/ listed_ u.
Proof.
  unfold browse. destruct (launch W tr) as [msg |].
  - exists [ELaunch]. split; [reflexivity |]. intros u [[=] | []].
  - destruct (scrape_visit (emit tr ELaunch)) as (evs & H & Hv).
    exists (ELaunch :: evs ++ [EClose])%list. split.
    + destruct (scrape E W address city state zip (emit tr ELaunch)) as [[r | m] tr1];
        cbn [snd] in *; rewrite H; unfold emit; rewrite <- !app_assoc; reflexivity.
    + intros u [[=] | Hu]. apply in_app_or in Hu.
      destruct Hu as [Hu | [[=] | []]]. exact (Hv u Hu).
Qed.

Lemma resolve_visit :
  forall u, In (EGoto u) (snd (resolve E W address city state zip [])) ->
            u = searchUrl_ \/ listed_ u.
Proof.
  intros u. unfold resolve. fold (prefers_api E).
  destruct (prefers_api E && keys_set E)%bool.
  - destruct (lookup_fetches E W address city state zip []) as (pre & H & Hf).
    cbn [app] in H.
    assert (~ In (EGoto u) pre) as Hpre.
    { intro Hin. pose proof (forallb_In _ _ _ Hf Hin) as Hx. discriminate Hx. }
    destruct (rapidApiLookupStrict E W address city state zip [])
      as [[[out | reason] | msg] tr1]; cbn [snd] in *; subst tr1.
    + intro Hu. contradiction.
    + destruct (browse_visit pre) as (evs & Hb & Hv).
      destruct (browse E W address city state zip pre) as [r tr2].
      cbn [snd] in *. subst tr2. intro Hu. apply in_app_or in Hu.
      destruct Hu as [Hu | Hu]; [contradiction | exact (Hv u Hu)].
    + intro Hu. contradiction.
  - destruct (browse_visit []) as (evs & Hb & Hv).
    destruct (browse E W address city state zip []) as [r tr2].
    cbn [snd app] in *. subst tr2. apply Hv.
Qed.

End RouteVisits.

(** X18. The browser visits the search page and, at most, one more
    page: the detail page of the best-scoring result that the search
    page listed, at its [detailUrl] made absolute. No other page is
    ever opened; in particular nothing that an API payload names. *)
Theorem visits_are_listed (E : environment) (W : world) (req : request) (u : string) :
  In (EGoto u) (snd (zestimate_route E W req)) ->
  u = buildSearchUrl (field req "address") (field req "city") (field req "state")
        (field req "zip") \/
  listed_detail W (field req "address") (field req "city") (field req "state")
    (field req "zip") u.
Proof.
  destruct (route_cases E W req) as [[_ ->] | [(_ & _ & ->) | (_ & _ & _ & _ & ->)]].
  - intros [].
  - intros [].
  - apply resolve_visit.
Qed.

Lemma visits_are_listed_witness :
  "https://www.zillow.com/homedetails/2077_zpid/"
  = buildSearchUrl (VStr "123 Main St") (VStr "Springfield") (VStr "IL") (VStr "62704") \/
  listed_detail listing_world (VStr "123 Main St") (VStr "Springfield") (VStr "IL")
    (VStr "62704") "https://www.zillow.com/homedetails/2077_zpid/".
Proof.
  apply (visits_are_listed no_env listing_world
           (query "123 Main St" "Springfield" "IL" "62704")).
  vm_compute. right. right. left. reflexivity.
Defined.
